(** * castari-proxy: the audit logger and the request handler

    A shallow embedding of [worker/src/logger.ts] and of [worker/src/index.ts],
    with the properties of the design document that concern them and more
    properties that the code shows.

    Definitions come first:
    - [JS]       the pieces of the JavaScript runtime that the code calls:
                 strings of UTF-16 code units, the streaming UTF-8
                 [TextDecoder], binary64 numbers, [JSON.parse] and
                 [JSON.stringify], the coercions behind [+] and behind a
                 computed property key;
    - [Logger]   [logger.ts], function by function;
    - [Worker]   [index.ts]: the [fetch] handler and its helpers, over the
                 modules it imports;
    - [Samples]  the event streams of [logger.test.ts];
    - [Notions], [HandlerNotions]
                 what the statements need besides the code;
    - [Doubles]  stand-ins for the imported modules, for closed examples.

    Then the properties: of the runtime in [JSFacts] and [RuntimeProps], of
    the logger in [LoggerProps] and [ReassemblyProps], of the handler in
    [WorkerProps] and [HandlerProps]. *)

From Stdlib Require Import ZArith NArith Ascii String List Lia Bool SpecFloat.
From stdpp Require Import base option list numbers.

Local Open Scope N_scope.
#[local] Set Warnings "-register-all".

(* ================================================================== *)
(** * Part 1: the JavaScript runtime, as far as the logger uses it      *)
(* ================================================================== *)

Module JS.

(** ** Strings

    A JavaScript string is a sequence of 16-bit code units. *)

Definition jstring := list N.

(** An ASCII literal as a JavaScript string. *)
Definition js (s : string) : jstring :=
  List.map N_of_ascii (list_ascii_of_string s).

Fixpoint str_eqb (a b : jstring) : bool :=
  match a, b with
  | [], [] => true
  | x :: a', y :: b' => (x =? y) && str_eqb a' b'
  | _, _ => false
  end.

(** [s.startsWith(p)] *)
Fixpoint startsWith (s p : jstring) : bool :=
  match p, s with
  | [], _ => true
  | c :: p', d :: s' => (c =? d) && startsWith s' p'
  | _ :: _, [] => false
  end.

(** [s.indexOf(p)]; [None] stands for [-1]. *)
Fixpoint indexOf (s p : jstring) : option nat :=
  if startsWith s p then Some 0%nat
  else match s with
       | [] => None
       | _ :: s' => S <$> indexOf s' p
       end.

(** [s.slice(0, n)] and [s.slice(n)] for [0 <= n]. *)
Definition slice_to (n : nat) (s : jstring) : jstring := take n s.
Definition slice_from (n : nat) (s : jstring) : jstring := drop n s.

(** White space and line terminators, the characters [trim] removes. *)
Definition is_space (c : N) : bool :=
  (c =? 9) || (c =? 10) || (c =? 11) || (c =? 12) || (c =? 13) || (c =? 32)
  || (c =? 160) || (c =? 5760) || ((8192 <=? c) && (c <=? 8202))
  || (c =? 8232) || (c =? 8233) || (c =? 8239) || (c =? 8287)
  || (c =? 12288) || (c =? 65279).

Fixpoint trimStart (s : jstring) : jstring :=
  match s with
  | c :: s' => if is_space c then trimStart s' else s
  | [] => []
  end.

Definition trim (s : jstring) : jstring :=
  rev (trimStart (rev (trimStart s))).

(** [s.split(sep)] for a separator of one code unit. *)
Fixpoint split_aux (sep : N) (cur : jstring) (s : jstring) : list jstring :=
  match s with
  | [] => [rev cur]
  | c :: s' =>
      if c =? sep then rev cur :: split_aux sep [] s'
      else split_aux sep (c :: cur) s'
  end.

Definition split (sep : N) (s : jstring) : list jstring := split_aux sep [] s.

Definition LF : N := 10.
Definition DQUOTE : N := 34.

(** ** TextDecoder

    [new TextDecoder()] is the UTF-8 decoder of the Encoding standard, not
    fatal, not ignoring the byte order mark; [decode(chunk, {stream: true})]
    keeps the state of an unfinished sequence for the next chunk.  A malformed
    sequence becomes U+FFFD. *)

Record Decoder := {
  dec_cp : N;          (* code point being assembled *)
  dec_seen : N;        (* continuation bytes seen *)
  dec_needed : N;      (* continuation bytes needed *)
  dec_lower : N;       (* bounds for the next continuation byte *)
  dec_upper : N;
  dec_bom_seen : bool  (* the first code point has been produced *)
}.

Definition newTextDecoder : Decoder :=
  {| dec_cp := 0; dec_seen := 0; dec_needed := 0;
     dec_lower := 128; dec_upper := 191; dec_bom_seen := false |}.

Definition dec_reset (d : Decoder) : Decoder :=
  {| dec_cp := 0; dec_seen := 0; dec_needed := 0;
     dec_lower := 128; dec_upper := 191; dec_bom_seen := dec_bom_seen d |}.

Definition REPLACEMENT : N := 65533.

(** A byte read when no sequence is pending. *)
Definition dec_lead (d : Decoder) (b : N) : Decoder * list N :=
  if b <=? 127 then (d, [b])
  else if (194 <=? b) && (b <=? 223) then
    ({| dec_cp := N.land b 31; dec_seen := 0; dec_needed := 1;
        dec_lower := 128; dec_upper := 191;
        dec_bom_seen := dec_bom_seen d |}, [])
  else if (224 <=? b) && (b <=? 239) then
    ({| dec_cp := N.land b 15; dec_seen := 0; dec_needed := 2;
        dec_lower := if b =? 224 then 160 else 128;
        dec_upper := if b =? 237 then 159 else 191;
        dec_bom_seen := dec_bom_seen d |}, [])
  else if (240 <=? b) && (b <=? 244) then
    ({| dec_cp := N.land b 7; dec_seen := 0; dec_needed := 3;
        dec_lower := if b =? 240 then 144 else 128;
        dec_upper := if b =? 244 then 143 else 191;
        dec_bom_seen := dec_bom_seen d |}, [])
  else (d, [REPLACEMENT]).

(** One byte: the code points it completes (at most two: a replacement
    character for the sequence it breaks, and itself). *)
Definition dec_byte (d : Decoder) (b : N) : Decoder * list N :=
  if dec_needed d =? 0 then dec_lead d b
  else if (dec_lower d <=? b) && (b <=? dec_upper d) then
    let cp := N.lor (N.shiftl (dec_cp d) 6) (N.land b 63) in
    let seen := dec_seen d + 1 in
    if seen =? dec_needed d then (dec_reset d, [cp])
    else ({| dec_cp := cp; dec_seen := seen; dec_needed := dec_needed d;
             dec_lower := 128; dec_upper := 191;
             dec_bom_seen := dec_bom_seen d |}, [])
  else
    let '(d', out) := dec_lead (dec_reset d) b in
    (d', REPLACEMENT :: out).

(** A code point as UTF-16 code units. *)
Definition utf16 (cp : N) : jstring :=
  if cp <? 65536 then [cp]
  else let c := cp - 65536 in
       [55296 + N.shiftr c 10; 56320 + N.land c 1023].

(** The byte order mark is dropped when it is the first code point. *)
Fixpoint dec_emit (bom_seen : bool) (cps : list N) : bool * jstring :=
  match cps with
  | [] => (bom_seen, [])
  | cp :: cps' =>
      let '(b, out) := dec_emit true cps' in
      (b, if negb bom_seen && (cp =? 65279) then out else utf16 cp ++ out)
  end.

Definition dec_set_bom (d : Decoder) (b : bool) : Decoder :=
  {| dec_cp := dec_cp d; dec_seen := dec_seen d; dec_needed := dec_needed d;
     dec_lower := dec_lower d; dec_upper := dec_upper d; dec_bom_seen := b |}.

(** [decoder.decode(chunk, {stream: true})] *)
Fixpoint decode_stream (d : Decoder) (chunk : list Byte.byte)
  : Decoder * jstring :=
  match chunk with
  | [] => (d, [])
  | b :: chunk' =>
      let '(d1, cps) := dec_byte d (Byte.to_N b) in
      let '(seen, out) := dec_emit (dec_bom_seen d1) cps in
      let '(d2, out') := decode_stream (dec_set_bom d1 seen) chunk' in
      (d2, out ++ out')
  end.

(** [new TextEncoder().encode(s)] on an ASCII literal. *)
Definition encode_ascii (s : string) : list Byte.byte := list_byte_of_string s.

(** ** Exceptions

    A computation that may throw.  The logger never inspects what it catches,
    so the kind of the exception is all that is kept. *)

Inductive JsError := TypeError | RangeError | SyntaxError | StreamError.

Inductive Outcome (A : Type) :=
  | Ok (a : A)
  | Throw (e : JsError).
Arguments Ok {A} a.
Arguments Throw {A} e.

#[global] Instance outcome_ret : MRet Outcome := fun A a => Ok a.
#[global] Instance outcome_bind : MBind Outcome := fun A B f m =>
  match m with
  | Ok a => f a
  | Throw e => Throw e
  end.

(** [try { body } catch { handler }] *)
Definition try_catch {A} (body : Outcome A) (handler : JsError -> Outcome A)
  : Outcome A :=
  match body with
  | Ok a => Ok a
  | Throw e => handler e
  end.

(** ** Numbers

    A Number is an IEEE 754 binary64 value, here the [spec_float] of the
    Standard Library at precision 53 and maximal exponent 1024. *)

Definition number := spec_float.

(** The Number nearest to [m * 10^e] (ties to even), as [JSON.parse] reads a
    decimal literal. *)
Definition number_of_decimal (neg : bool) (m : N) (e : Z) : number :=
  match m with
  | N0 => S754_zero neg
  | Npos p =>
      match e with
      | Zneg k => SFdiv 53 1024 (S754_finite neg p 0)
                                (S754_finite false (10 ^ k)%positive 0)
      | Z0 => binary_round 53 1024 neg p 0
      | Zpos k => binary_round 53 1024 neg (p * 10 ^ k)%positive 0
      end
  end.

Definition number_of_N (n : N) : number := number_of_decimal false n 0.

Definition number_is_zero_or_nan (x : number) : bool :=
  match x with
  | S754_zero _ | S754_nan => true
  | _ => false
  end.

(** Decimal digits of a natural number, most significant first. *)
Fixpoint uint_digits (u : Decimal.uint) : jstring :=
  match u with
  | Decimal.Nil => []
  | Decimal.D0 u => 48 :: uint_digits u
  | Decimal.D1 u => 49 :: uint_digits u
  | Decimal.D2 u => 50 :: uint_digits u
  | Decimal.D3 u => 51 :: uint_digits u
  | Decimal.D4 u => 52 :: uint_digits u
  | Decimal.D5 u => 53 :: uint_digits u
  | Decimal.D6 u => 54 :: uint_digits u
  | Decimal.D7 u => 55 :: uint_digits u
  | Decimal.D8 u => 56 :: uint_digits u
  | Decimal.D9 u => 57 :: uint_digits u
  end.

Definition N_digits (n : N) : jstring := uint_digits (N.to_uint n).

Section NumberToString.

(** The value of a positive finite Number is the fraction [a / b]. *)
Definition fraction_of (m : positive) (e : Z) : N * N :=
  match e with
  | Zneg k => (Npos m, Npos (2 ^ k))
  | Z0 => (Npos m, 1)
  | Zpos k => (Npos (m * 2 ^ k), 1)
  end.

(** [floor (log10 (a / b))] for [a / b >= 1], by repeated division. *)
Fixpoint log10_up (fuel : nat) (q : N) : Z :=
  match fuel with
  | O => 0%Z
  | S fuel' => if q <? 10 then 0%Z else (1 + log10_up fuel' (q / 10))%Z
  end.

(** The least [j >= 1] with [a * 10^j >= b], for [a / b < 1]. *)
Fixpoint log10_down (fuel : nat) (a b : N) : Z :=
  match fuel with
  | O => 1%Z
  | S fuel' =>
      if b <=? a * 10 then 1%Z else (1 + log10_down fuel' (a * 10) b)%Z
  end.

Definition log10_floor (a b : N) : Z :=
  if b <=? a then log10_up 400 (a / b) else (- log10_down 400 a b)%Z.

(** [10^z] for [0 <= z], and [1] below. *)
Definition pow10 (z : Z) : N := Z.to_N (10 ^ Z.max 0 z).

(** The candidates with [k] digits: [s * 10^p] just below and just above
    the value, those that read back as the same Number, the nearer first
    (an even [s] on a tie). *)
Definition candidates (m : positive) (e : Z) (k : Z) : list (N * Z) :=
  let '(a, b) := fraction_of m e in
  let p := (log10_floor a b - k + 1)%Z in
  let A := a * pow10 (- p) in
  let B := b * pow10 p in
  let lo := A / B in
  let r := A mod B in
  let hi := lo + 1 in
  let norm (s : N) : N * Z :=
    if s =? pow10 k then (pow10 (k - 1), (p + 1)%Z) else (s, p) in
  let reads_back (c : N * Z) : bool :=
    match number_of_decimal false (fst c) (snd c) with
    | S754_finite false m' e' => (Pos.eqb m m') && (Z.eqb e e')
    | _ => false
    end in
  let ordered :=
    if r =? 0 then [norm lo]
    else match 2 * r ?= B with
         | Lt => [norm lo; norm hi]
         | Gt => [norm hi; norm lo]
         | Eq => if N.even lo then [norm lo; norm hi]
                 else [norm hi; norm lo]
         end in
  List.filter reads_back ordered.

(** The shortest digit string: the first [k] in [1 .. 17] with a
    candidate. *)
Fixpoint shortest (fuel : nat) (m : positive) (e : Z) (k : Z) : N * Z :=
  match fuel with
  | O => (Npos m, e)
  | S fuel' =>
      match candidates m e k with
      | c :: _ => c
      | [] => shortest fuel' m e (k + 1)
      end
  end.

Definition zeros (n : Z) : jstring := repeat 48 (Z.to_nat n).

(** Number::toString of a positive finite value with digits [s] and
    decimal exponent [p]. *)
Definition format_number (s : N) (p : Z) : jstring :=
  let ds := N_digits s in
  let k := Z.of_nat (length ds) in
  let n := (p + k)%Z in
  if (k <=? n)%Z && (n <=? 21)%Z then ds ++ zeros (n - k)
  else if (0 <? n)%Z && (n <=? 21)%Z then
    take (Z.to_nat n) ds ++ js "." ++ drop (Z.to_nat n) ds
  else if (-6 <? n)%Z && (n <=? 0)%Z then js "0." ++ zeros (- n) ++ ds
  else
    let ex := (n - 1)%Z in
    let sign := if (ex <? 0)%Z then js "-" else js "+" in
    let tail := js "e" ++ sign ++ N_digits (Z.to_N (Z.abs ex)) in
    match ds with
    | [d] => d :: tail
    | d :: rest => d :: js "." ++ rest ++ tail
    | [] => tail
    end.

Definition Number_toString (x : number) : jstring :=
  match x with
  | S754_nan => js "NaN"
  | S754_zero _ => js "0"
  | S754_infinity false => js "Infinity"
  | S754_infinity true => js "-Infinity"
  | S754_finite neg m e =>
      let '(s, p) := shortest 17 m e 1 in
      (if neg then js "-" else []) ++ format_number s p
  end.

End NumberToString.

(** ** Digits *)

Definition is_digit (c : N) : bool := (48 <=? c) && (c <=? 57).

(** The leading digits of [s], as digit values, and the rest. *)
Fixpoint span_digits (s : jstring) : list N * jstring :=
  match s with
  | c :: s' =>
      if is_digit c then
        let '(ds, r) := span_digits s' in (c - 48 :: ds, r)
      else ([], s)
  | [] => ([], [])
  end.

Definition digits_value (ds : list N) : N :=
  fold_left (fun acc d => 10 * acc + d) ds 0.

(** A property key is an array index when it is the decimal form of an
    integer between [0] and [2^32 - 2]. *)
Definition array_index (key : jstring) : option nat :=
  let '(ds, r) := span_digits key in
  match r, ds with
  | [], [_] => Some (N.to_nat (digits_value ds))
  | [], d :: _ =>
      if (d =? 0) || (10 <? N.of_nat (length ds))
         || (4294967294 <? digits_value ds)
      then None
      else Some (N.to_nat (digits_value ds))
  | _, _ => None
  end.

(** ** JSON values

    What [JSON.parse] returns.  An object keeps its properties in the order
    of their first occurrence; a property that is absent reads as
    [undefined], here [None]. *)

Inductive json :=
  | JNull
  | JBool (b : bool)
  | JNum (x : number)
  | JStr (s : jstring)
  | JArr (items : list json)
  | JObj (props : list (jstring * json)).

Definition jsval := option json.
Definition undefined : jsval := None.

Fixpoint obj_get (k : jstring) (kv : list (jstring * json)) : jsval :=
  match kv with
  | [] => None
  | (k', v) :: kv' => if str_eqb k k' then Some v else obj_get k kv'
  end.

(** Defining a property.  A duplicate replaces the value in place; among
    new properties those named by an array index come first, in ascending
    order, then the others in the order of their creation. *)
Fixpoint obj_insert_index (i : nat) (k : jstring) (v : json)
    (kv : list (jstring * json)) : list (jstring * json) :=
  match kv with
  | [] => [(k, v)]
  | (k', v') :: kv' =>
      match array_index k' with
      | Some j =>
          if (j <? i)%nat then (k', v') :: obj_insert_index i k v kv'
          else (k, v) :: kv
      | None => (k, v) :: kv
      end
  end.

Fixpoint obj_replace (k : jstring) (v : json) (kv : list (jstring * json))
  : list (jstring * json) :=
  match kv with
  | [] => []
  | (k', v') :: kv' =>
      if str_eqb k k' then (k', v) :: kv' else (k', v') :: obj_replace k v kv'
  end.

Definition obj_set (k : jstring) (v : json) (kv : list (jstring * json))
  : list (jstring * json) :=
  match obj_get k kv with
  | Some _ => obj_replace k v kv
  | None =>
      match array_index k with
      | Some i => obj_insert_index i k v kv
      | None => kv ++ [(k, v)]
      end
  end.

(** [v.name] for a value [v] that is neither [null] nor [undefined] and one
    of the property names the logger reads ([message], [id], [model],
    [content_block], [type], [text], [name], [index], [delta],
    [partial_json], [stop_reason], [usage], [input_tokens], [output_tokens],
    [reasoning_tokens]): none of them is defined on the prototype of a
    string, a number, a boolean, an array or an object, so only an own
    property of an object answers. *)
Definition get (v : json) (name : string) : jsval :=
  match v with
  | JObj kv => obj_get (js name) kv
  | _ => None
  end.

(** [v.name] where [v] may be [null] or [undefined]: a [TypeError]. *)
Definition get_strict (v : jsval) (name : string) : Outcome jsval :=
  match v with
  | None | Some JNull => Throw TypeError
  | Some o => Ok (get o name)
  end.

(** [v?.name] *)
Definition get_opt (v : jsval) (name : string) : jsval :=
  match v with
  | None | Some JNull => None
  | Some o => get o name
  end.

(** [a ?? b] *)
Definition nullish (a : jsval) (b : jsval) : jsval :=
  match a with
  | None | Some JNull => b
  | Some _ => a
  end.

(** ToBoolean *)
Definition truthy (v : jsval) : bool :=
  match v with
  | None | Some JNull => false
  | Some (JBool b) => b
  | Some (JNum x) => negb (number_is_zero_or_nan x)
  | Some (JStr s) => match s with [] => false | _ => true end
  | Some (JArr _) | Some (JObj _) => true
  end.

(** [v === 'literal'] *)
Definition is_str (v : jsval) (lit : string) : bool :=
  match v with
  | Some (JStr s) => str_eqb s (js lit)
  | _ => false
  end.

(** ** JSON.parse *)

Definition is_json_ws (c : N) : bool :=
  (c =? 32) || (c =? 9) || (c =? 10) || (c =? 13).

Fixpoint skip_ws (s : jstring) : jstring :=
  match s with
  | c :: s' => if is_json_ws c then skip_ws s' else s
  | [] => []
  end.

Definition hex_value (c : N) : option N :=
  if is_digit c then Some (c - 48)
  else if (97 <=? c) && (c <=? 102) then Some (c - 87)
  else if (65 <=? c) && (c <=? 70) then Some (c - 55)
  else None.

Definition unescape (c : N) : option N :=
  if c =? 34 then Some 34        (* quotation mark *)
  else if c =? 92 then Some 92   (* reverse solidus *)
  else if c =? 47 then Some 47   (* solidus *)
  else if c =? 98 then Some 8    (* b *)
  else if c =? 102 then Some 12  (* f *)
  else if c =? 110 then Some 10  (* n *)
  else if c =? 114 then Some 13  (* r *)
  else if c =? 116 then Some 9   (* t *)
  else None.

(** The characters of a string literal after its opening quotation mark,
    up to and including the closing one. *)
Fixpoint parse_string_body (s : jstring) (acc : jstring)
  : option (jstring * jstring) :=
  match s with
  | [] => None
  | c :: s' =>
      if c =? 34 then Some (rev acc, s')
      else if c =? 92 then
        match s' with
        | [] => None
        | e :: s'' =>
            if e =? 117 then
              match s'' with
              | h1 :: h2 :: h3 :: h4 :: s3 =>
                  match hex_value h1, hex_value h2, hex_value h3,
                        hex_value h4 with
                  | Some a, Some b, Some c', Some d =>
                      parse_string_body s3
                        (((a * 16 + b) * 16 + c') * 16 + d :: acc)
                  | _, _, _, _ => None
                  end
              | _ => None
              end
            else
              match unescape e with
              | Some u => parse_string_body s'' (u :: acc)
              | None => None
              end
        end
      else if c <? 32 then None
      else parse_string_body s' (c :: acc)
  end.

(** The character [c] at the head of [s]: what follows it. *)
Definition expect (c : N) (s : jstring) : option jstring :=
  match s with
  | d :: r => if d =? c then Some r else None
  | [] => None
  end.

Definition take_minus (s : jstring) : bool * jstring :=
  match expect 45 s with
  | Some r => (true, r)
  | None => (false, s)
  end.

Definition take_sign (s : jstring) : bool * jstring :=
  match expect 45 s, expect 43 s with
  | Some r, _ => (true, r)
  | None, Some r => (false, r)
  | None, None => (false, s)
  end.

(** A point and one digit or more, or nothing. *)
Definition parse_fraction (s : jstring) : option (list N * jstring) :=
  match expect 46 s with
  | Some r =>
      let '(fs, r') := span_digits r in
      match fs with
      | [] => None
      | _ => Some (fs, r')
      end
  | None => Some ([], s)
  end.

(** [e] or [E], an optional sign and one digit or more, or nothing. *)
Definition parse_exponent (s : jstring) : option (Z * jstring) :=
  match expect 101 s, expect 69 s with
  | None, None => Some (0%Z, s)
  | Some r, _ | None, Some r =>
      let '(eneg, r1) := take_sign r in
      let '(es, r2) := span_digits r1 in
      match es with
      | [] => None
      | _ => let e := Z.of_N (digits_value es) in
             Some (if eneg then (- e)%Z else e, r2)
      end
  end.

(** A number literal: an optional minus sign; the digit 0 or digits that do
    not start with 0; optionally a fraction; optionally an exponent. *)
Definition parse_number (s : jstring) : option (number * jstring) :=
  let '(neg, s1) := take_minus s in
  let '(ints, s2) := span_digits s1 in
  match ints with
  | [] => None
  | d :: ds =>
      if (d =? 0) && negb (match ds with [] => true | _ => false end)
      then None
      else
        '(fracs, s3) ← parse_fraction s2;
        '(e10, s4) ← parse_exponent s3;
        Some (number_of_decimal neg (digits_value (ints ++ fracs))
                (e10 - Z.of_nat (length fracs)), s4)
  end.

Section Containers.

(** The parser of one value, used for the elements. *)
Variable parse_element : jstring -> option (json * jstring).

(** After [[] and at least one element to come. *)
Fixpoint parse_elements (fuel : nat) (s : jstring) (acc : list json)
  : option (json * jstring) :=
  match fuel with
  | O => None
  | S fuel' =>
      '(v, r) ← parse_element s;
      match expect 44 (skip_ws r), expect 93 (skip_ws r) with
      | Some r', _ => parse_elements fuel' r' (v :: acc)
      | None, Some r' => Some (JArr (rev (v :: acc)), r')
      | None, None => None
      end
  end.

(** After [{] and at least one member to come. *)
Fixpoint parse_members (fuel : nat) (s : jstring)
    (acc : list (jstring * json)) : option (json * jstring) :=
  match fuel with
  | O => None
  | S fuel' =>
      r ← expect 34 (skip_ws s);
      '(k, r1) ← parse_string_body r [];
      r2 ← expect 58 (skip_ws r1);
      '(v, r3) ← parse_element r2;
      let acc' := obj_set k v acc in
      match expect 44 (skip_ws r3), expect 125 (skip_ws r3) with
      | Some r4, _ => parse_members fuel' r4 acc'
      | None, Some r4 => Some (JObj acc', r4)
      | None, None => None
      end
  end.

End Containers.

(** One value, white space before it allowed.  Every level of nesting and
    every element consumes a character, so the length of the text is fuel
    enough. *)
Fixpoint parse_value (fuel : nat) (s : jstring) : option (json * jstring) :=
  match fuel with
  | O => None
  | S fuel' =>
      match skip_ws s with
      | [] => None
      | c :: r =>
          if c =? 123 then
            match expect 125 (skip_ws r) with
            | Some r' => Some (JObj [], r')
            | None => parse_members (parse_value fuel') (length r) r []
            end
          else if c =? 91 then
            match expect 93 (skip_ws r) with
            | Some r' => Some (JArr [], r')
            | None => parse_elements (parse_value fuel') (length r) r []
            end
          else if c =? 34 then
            '(str, r') ← parse_string_body r []; Some (JStr str, r')
          else if startsWith (c :: r) (js "true") then
            Some (JBool true, drop 4 (c :: r))
          else if startsWith (c :: r) (js "false") then
            Some (JBool false, drop 5 (c :: r))
          else if startsWith (c :: r) (js "null") then
            Some (JNull, drop 4 (c :: r))
          else
            '(x, r') ← parse_number (c :: r); Some (JNum x, r')
      end
  end.

(** [JSON.parse(text)]; [None] is a [SyntaxError]. *)
Definition JSON_parse (text : jstring) : option json :=
  '(v, r) ← parse_value (S (length text)) text;
  match skip_ws r with
  | [] => Some v
  | _ => None
  end.

(** ** Coercions *)

Definition has_own (kv : list (jstring * json)) (name : string) : bool :=
  match obj_get (js name) kv with
  | Some _ => true
  | None => false
  end.

(** ToString.  An array joins its elements with commas, [null] as the empty
    string; an object answers through [Object.prototype.toString] unless an
    own [toString] property, which is never callable in a parsed value,
    hides it: then the conversion throws. *)
Fixpoint ToString (v : json) : Outcome jstring :=
  match v with
  | JNull => Ok (js "null")
  | JBool true => Ok (js "true")
  | JBool false => Ok (js "false")
  | JNum x => Ok (Number_toString x)
  | JStr s => Ok s
  | JObj kv =>
      if has_own kv "toString" then Throw TypeError
      else Ok (js "[object Object]")
  | JArr items =>
      (fix join (l : list json) (first : bool) : Outcome jstring :=
         match l with
         | [] => Ok []
         | x :: l' =>
             s ← match x with
                 | JNull => Ok []
                 | _ => ToString x
                 end;
             r ← join l' false;
             Ok ((if first then [] else js ",") ++ s ++ r)
         end) items true
  end.

(** ToPrimitive, for either hint: arrays and objects become strings. *)
Definition ToPrimitive (v : json) : Outcome json :=
  match v with
  | JArr _ | JObj _ => s ← ToString v; Ok (JStr s)
  | _ => Ok v
  end.

(** ToNumber of a primitive that is not a string. *)
Definition ToNumber_prim (v : json) : number :=
  match v with
  | JNum x => x
  | JBool true => number_of_N 1
  | JBool false | JNull => S754_zero false
  | _ => S754_nan
  end.

(** [a + b] *)
Definition js_add (a b : json) : Outcome json :=
  pa ← ToPrimitive a;
  pb ← ToPrimitive b;
  match pa, pb with
  | JStr _, _ | _, JStr _ =>
      sa ← ToString pa; sb ← ToString pb; Ok (JStr (sa ++ sb))
  | _, _ => Ok (JNum (SFadd 53 1024 (ToNumber_prim pa) (ToNumber_prim pb)))
  end.

(** ToPropertyKey of a value used in [object[value]]. *)
Definition ToPropertyKey (v : jsval) : Outcome jstring :=
  match v with
  | None => Ok (js "undefined")
  | Some w => ToString w
  end.

(** ** JSON.stringify, and the bodies of responses *)

Definition hex_digit (n : N) : N := if n <? 10 then 48 + n else 87 + n.

Definition hex4 (c : N) : jstring :=
  [hex_digit (N.shiftr c 12 mod 16); hex_digit (N.shiftr c 8 mod 16);
   hex_digit (N.shiftr c 4 mod 16); hex_digit (c mod 16)].

Definition is_high_surrogate (c : N) : bool := (55296 <=? c) && (c <=? 56319).
Definition is_low_surrogate (c : N) : bool := (56320 <=? c) && (c <=? 57343).

(** QuoteJSONString, without the enclosing quotation marks. *)
Fixpoint quote_chars (s : jstring) : jstring :=
  match s with
  | [] => []
  | c :: s' =>
      if c =? 34 then js "\" ++ [34] ++ quote_chars s'
      else if c =? 92 then js "\\" ++ quote_chars s'
      else if c =? 8 then js "\b" ++ quote_chars s'
      else if c =? 9 then js "\t" ++ quote_chars s'
      else if c =? 10 then js "\n" ++ quote_chars s'
      else if c =? 12 then js "\f" ++ quote_chars s'
      else if c =? 13 then js "\r" ++ quote_chars s'
      else if c <? 32 then js "\u" ++ hex4 c ++ quote_chars s'
      else if is_high_surrogate c then
        match s' with
        | d :: s'' =>
            if is_low_surrogate d then c :: d :: quote_chars s''
            else js "\u" ++ hex4 c ++ quote_chars s'
        | [] => js "\u" ++ hex4 c
        end
      else if is_low_surrogate c then js "\u" ++ hex4 c ++ quote_chars s'
      else c :: quote_chars s'
  end.

Definition quote (s : jstring) : jstring := [34] ++ quote_chars s ++ [34].

Definition number_is_finite (x : number) : bool :=
  match x with
  | S754_zero _ | S754_finite _ _ _ => true
  | _ => false
  end.

(** [JSON.stringify(v)] of a parsed value, without indentation. *)
Fixpoint JSON_stringify (v : json) : jstring :=
  match v with
  | JNull => js "null"
  | JBool true => js "true"
  | JBool false => js "false"
  | JNum x => if number_is_finite x then Number_toString x else js "null"
  | JStr s => quote s
  | JArr items =>
      js "[" ++
      (fix elements (l : list json) (first : bool) : jstring :=
         match l with
         | [] => []
         | x :: l' =>
             (if first then [] else js ",") ++ JSON_stringify x
               ++ elements l' false
         end) items true
      ++ js "]"
  | JObj props =>
      js "{" ++
      (fix members (l : list (jstring * json)) (first : bool) : jstring :=
         match l with
         | [] => []
         | (k, x) :: l' =>
             (if first then [] else js ",") ++ quote k ++ js ":"
               ++ JSON_stringify x ++ members l' false
         end) props true
      ++ js "}"
  end.

(** UTF-8 of one code point. *)
Definition utf8_bytes (cp : N) : list N :=
  if cp <? 128 then [cp]
  else if cp <? 2048 then [192 + N.shiftr cp 6; 128 + cp mod 64]
  else if cp <? 65536 then
    [224 + N.shiftr cp 12; 128 + N.shiftr cp 6 mod 64; 128 + cp mod 64]
  else
    [240 + N.shiftr cp 18; 128 + N.shiftr cp 12 mod 64;
     128 + N.shiftr cp 6 mod 64; 128 + cp mod 64].

Definition byte_of_N (n : N) : Byte.byte :=
  match Byte.of_N n with
  | Some b => b
  | None => Byte.x00
  end.

(** The bytes of a string used as a body: a surrogate without its partner
    becomes U+FFFD. *)
Fixpoint utf8_encode (s : jstring) : list Byte.byte :=
  match s with
  | [] => []
  | c :: s' =>
      if is_high_surrogate c then
        match s' with
        | d :: s'' =>
            if is_low_surrogate d then
              List.map byte_of_N
                (utf8_bytes (65536 + (c - 55296) * 1024 + (d - 56320)))
                ++ utf8_encode s''
            else List.map byte_of_N (utf8_bytes REPLACEMENT) ++ utf8_encode s'
        | [] => List.map byte_of_N (utf8_bytes REPLACEMENT)
        end
      else if is_low_surrogate c then
        List.map byte_of_N (utf8_bytes REPLACEMENT) ++ utf8_encode s'
      else List.map byte_of_N (utf8_bytes c) ++ utf8_encode s'
  end.

(** Decoding a whole body: the streaming decoder, then the replacement
    character for a sequence left unfinished. *)
Definition utf8_decode (bytes : list Byte.byte) : jstring :=
  let '(d, text) := decode_stream newTextDecoder bytes in
  if dec_needed d =? 0 then text else text ++ [REPLACEMENT].

(** [s.toLowerCase()] on the characters of a header value. *)
Definition lower_char (c : N) : N :=
  if (65 <=? c) && (c <=? 90) then c + 32
  else if (192 <=? c) && (c <=? 222) && negb (c =? 215) then c + 32
  else c.

Definition toLowerCase (s : jstring) : jstring := List.map lower_char s.

End JS.

(* ================================================================== *)
(** * Part 2: logger.ts                                                 *)
(* ================================================================== *)

Module Logger.
Import JS.

(** ** Declarations of [types.ts] that the logger uses *)

Inductive Provider := anthropic | openrouter | vllm | sglang.

Record AnthropicMessage := {
  role : jstring;
  content : json
}.

(** The [usage] object the reassembler builds: the three counters, copied
    as they come. *)
Record Usage := {
  input_tokens : jsval;
  output_tokens : jsval;
  reasoning_tokens : jsval
}.

Inductive AnthropicContent :=
  | ContentText (text : json)
  | ContentToolUse (id name : json) (input : json).

(** The response object the reassembler returns.  [content] is a JavaScript
    array: an index that was never started is a hole, [None]. *)
Record AnthropicResponse := {
  resp_id : json;
  resp_type : jstring;
  resp_role : jstring;
  resp_model : json;
  stop_reason : json;
  stop_sequence : json;
  resp_content : list (option AnthropicContent);
  resp_usage : option Usage
}.

(** ** Promises and streams *)

Inductive Promise (A : Type) :=
  | Fulfilled (a : A)
  | Rejected (e : JsError)
  | Pending.
Arguments Fulfilled {A} a.
Arguments Rejected {A} e.
Arguments Pending {A}.

(** The promise of an [async] function whose body runs to completion. *)
Definition settle {A} (body : Outcome A) : Promise A :=
  match body with
  | Ok a => Fulfilled a
  | Throw e => Rejected e
  end.

(** A byte stream that ends: the chunks it delivers, then either the end
    ([done]) or an error (the read rejects). *)
Inductive StreamEnd := Closed | Errored.

Record ReadableStream := {
  chunks : list (list Byte.byte);
  ending : StreamEnd
}.

(** ** deriveTurnIndex *)

Definition deriveTurnIndex (messages : list AnthropicMessage) : nat :=
  fold_left
    (fun count msg =>
       if str_eqb (role msg) (js "assistant") then S count else count)
    messages 0%nat.

(** ** The block accumulators *)

Inductive BlockState :=
  | TextBlock (text : json)
  | ToolUseBlock (id name : json) (inputBuffer : jstring).

(** The array [blocks].  The reassembler indexes it with [data.index], a
    value of any kind, so besides its elements the array can receive named
    properties.  Two names matter later: a property [map] hides
    [Array.prototype.map], and an assignment to [__proto__] replaces the
    prototype, which is kept here under that name. *)
Record BlockArray := {
  items : list (option BlockState);
  named : list (jstring * BlockState)
}.

Definition no_blocks : BlockArray := {| items := []; named := [] |}.

(** [array[i] = v]: an index past the end extends the array with holes. *)
Definition array_store {A} (i : nat) (v : A) (l : list (option A))
  : list (option A) :=
  if decide (i < length l)%nat then <[i := Some v]> l
  else l ++ replicate (i - length l) None ++ [Some v].

Fixpoint named_get {A} (k : jstring) (kv : list (jstring * A)) : option A :=
  match kv with
  | [] => None
  | (k', v) :: kv' => if str_eqb k k' then Some v else named_get k kv'
  end.

Fixpoint named_set {A} (k : jstring) (v : A) (kv : list (jstring * A))
  : list (jstring * A) :=
  match kv with
  | [] => [(k, v)]
  | (k', v') :: kv' =>
      if str_eqb k k' then (k, v) :: kv' else (k', v') :: named_set k v kv'
  end.

(** [blocks[key] = block].  Setting [length] to an object is a
    [RangeError]. *)
Definition blocks_set (key : jstring) (b : BlockState) (arr : BlockArray)
  : Outcome BlockArray :=
  match array_index key with
  | Some i => Ok {| items := array_store i b (items arr); named := named arr |}
  | None =>
      if str_eqb key (js "length") then Throw RangeError
      else Ok {| items := items arr; named := named_set key b (named arr) |}
  end.

(** [blocks[key]] when it is one of the accumulators.  Anything else the
    lookup can find (the length, a method of the prototype) has no [type]
    property equal to ['text'] or ['tool_use'] and leaves the reassembler
    idle, like [undefined]. *)
Definition blocks_get (key : jstring) (arr : BlockArray) : option BlockState :=
  match array_index key with
  | Some i => mjoin (items arr !! i)
  | None => named_get key (named arr)
  end.

(** Writing back the accumulator found under [key], after [+=]. *)
Definition blocks_update (key : jstring) (b : BlockState) (arr : BlockArray)
  : BlockArray :=
  match array_index key with
  | Some i => {| items := <[i := Some b]> (items arr); named := named arr |}
  | None => {| items := items arr; named := named_set key b (named arr) |}
  end.

(** [blocks.map] can be called as long as nothing hides it. *)
Definition map_callable (arr : BlockArray) : bool :=
  match named_get (js "map") (named arr),
        named_get (js "__proto__") (named arr) with
  | None, None => true
  | _, _ => false
  end.

(** ** safeParseJson *)

Definition empty_object : json := JObj [].

Definition safeParseJson (value : jstring) : json :=
  match value with
  | [] => empty_object
  | _ => match JSON_parse value with
         | Some v => v
         | None => JStr value
         end
  end.

(** ** reassembleFromSSE *)

(** The local variables of one call. *)
Record Reassembly := {
  messageId : json;
  model : json;
  stopReason : json;
  usage : option Usage;
  blocks : BlockArray;
  buffer : jstring;
  decoder : Decoder
}.

Definition initial : Reassembly :=
  {| messageId := JStr []; model := JStr []; stopReason := JNull;
     usage := None; blocks := no_blocks; buffer := [];
     decoder := newTextDecoder |}.

Definition set_message (i m : json) (st : Reassembly) : Reassembly :=
  {| messageId := i; model := m; stopReason := stopReason st;
     usage := usage st; blocks := blocks st; buffer := buffer st;
     decoder := decoder st |}.

Definition set_stopReason (r : json) (st : Reassembly) : Reassembly :=
  {| messageId := messageId st; model := model st; stopReason := r;
     usage := usage st; blocks := blocks st; buffer := buffer st;
     decoder := decoder st |}.

Definition set_usage (u : Usage) (st : Reassembly) : Reassembly :=
  {| messageId := messageId st; model := model st;
     stopReason := stopReason st; usage := Some u; blocks := blocks st;
     buffer := buffer st; decoder := decoder st |}.

Definition set_blocks (b : BlockArray) (st : Reassembly) : Reassembly :=
  {| messageId := messageId st; model := model st;
     stopReason := stopReason st; usage := usage st; blocks := b;
     buffer := buffer st; decoder := decoder st |}.

Definition set_input (buf : jstring) (d : Decoder) (st : Reassembly)
  : Reassembly :=
  {| messageId := messageId st; model := model st;
     stopReason := stopReason st; usage := usage st; blocks := blocks st;
     buffer := buf; decoder := d |}.

(** [a ?? b] with a default that is defined. *)
Definition or_else (a : jsval) (b : json) : json :=
  match nullish a (Some b) with
  | Some v => v
  | None => b
  end.

(** The [event:] and [data:] fields of a raw event: of several lines with
    the same field the last one counts. *)
Definition event_fields (raw : jstring) : jstring * jstring :=
  fold_left
    (fun '(eventType, dataStr) line =>
       if startsWith line (js "event:")
       then (trim (slice_from 6 line), dataStr)
       else if startsWith line (js "data:")
       then (eventType, trim (slice_from 5 line))
       else (eventType, dataStr))
    (split LF raw) ([], []).

Definition on_message_start (data : json) (st : Reassembly)
  : Outcome Reassembly :=
  msg ← get_strict (Some data) "message";
  if truthy msg then
    Ok (set_message (or_else (get_opt msg "id") (messageId st))
                    (or_else (get_opt msg "model") (model st)) st)
  else Ok st.

Definition on_content_block_start (data : json) (st : Reassembly)
  : Outcome Reassembly :=
  block ← get_strict (Some data) "content_block";
  if is_str (get_opt block "type") "text" then
    key ← ToPropertyKey (get data "index");
    arr ← blocks_set key
            (TextBlock (or_else (get_opt block "text") (JStr [])))
            (blocks st);
    Ok (set_blocks arr st)
  else if is_str (get_opt block "type") "tool_use" then
    key ← ToPropertyKey (get data "index");
    arr ← blocks_set key
            (ToolUseBlock (or_else (get_opt block "id") (JStr []))
                          (or_else (get_opt block "name") (JStr [])) [])
            (blocks st);
    Ok (set_blocks arr st)
  else Ok st.

(** [buffer += value], with a string on the left. *)
Definition append_to_string (buf : jstring) (value : json) : Outcome jstring :=
  r ← js_add (JStr buf) value;
  match r with
  | JStr s => Ok s
  | _ => Ok buf
  end.

Definition on_content_block_delta (data : json) (st : Reassembly)
  : Outcome Reassembly :=
  idx ← get_strict (Some data) "index";
  let delta := get data "delta" in
  if truthy delta then
    key ← ToPropertyKey idx;
    match blocks_get key (blocks st) with
    | Some (TextBlock text) =>
        if is_str (get_opt delta "type") "text_delta" then
          text' ← js_add text (or_else (get_opt delta "text") (JStr []));
          Ok (set_blocks (blocks_update key (TextBlock text') (blocks st)) st)
        else Ok st
    | Some (ToolUseBlock id name inputBuffer) =>
        if is_str (get_opt delta "type") "input_json_delta" then
          buf' ← append_to_string inputBuffer
                   (or_else (get_opt delta "partial_json") (JStr []));
          Ok (set_blocks
                (blocks_update key (ToolUseBlock id name buf') (blocks st)) st)
        else Ok st
    | None => Ok st
    end
  else Ok st.

Definition on_message_delta (data : json) (st : Reassembly)
  : Outcome Reassembly :=
  delta ← get_strict (Some data) "delta";
  let st1 :=
    match get_opt delta "stop_reason" with
    | Some r => if truthy (Some r) then set_stopReason r st else st
    | None => st
    end in
  let u := nullish (get_opt delta "usage") (get data "usage") in
  if truthy u then
    Ok (set_usage {| input_tokens := get_opt u "input_tokens";
                     output_tokens := get_opt u "output_tokens";
                     reasoning_tokens := get_opt u "reasoning_tokens" |} st1)
  else Ok st1.

Definition on_message_stop (data : json) (st : Reassembly)
  : Outcome Reassembly :=
  r ← get_strict (Some data) "stop_reason";
  match r with
  | Some v => if truthy r then Ok (set_stopReason v st) else Ok st
  | None => Ok st
  end.

(** [eventType || data?.type] *)
Definition event_kind (eventType : jstring) (data : json) : jsval :=
  match eventType with
  | [] => get_opt (Some data) "type"
  | _ => Some (JStr eventType)
  end.

(** The [switch] of [processRawEvent]. *)
Definition dispatch (eventType : jstring) (data : json) (st : Reassembly)
  : Outcome Reassembly :=
  let kind := event_kind eventType data in
  if is_str kind "message_start" then on_message_start data st
  else if is_str kind "content_block_start" then on_content_block_start data st
  else if is_str kind "content_block_delta" then on_content_block_delta data st
  else if is_str kind "content_block_stop" then Ok st
  else if is_str kind "message_delta" then on_message_delta data st
  else if is_str kind "message_stop" then on_message_stop data st
  else Ok st.

Definition processRawEvent (raw : jstring) (st : Reassembly)
  : Outcome Reassembly :=
  match raw with
  | [] => Ok st
  | _ =>
      if startsWith raw (js ":") then Ok st
      else
        let '(eventType, dataStr) := event_fields raw in
        match dataStr with
        | [] => Ok st
        | _ =>
            if str_eqb dataStr (js "[DONE]") then Ok st
            else match JSON_parse dataStr with
                 | None => Ok st
                 | Some data => dispatch eventType data st
                 end
        end
  end.

(** The inner [while] loop: as long as the buffer holds a blank line, cut
    the event before it off and process it.  The second component is the
    exception that left the loop, if one did; the state is the one at that
    moment.  Every turn shortens the buffer, so its length bounds the number
    of turns. *)
Fixpoint drain (fuel : nat) (st : Reassembly) : Reassembly * option JsError :=
  match fuel with
  | O => (st, None)
  | S fuel' =>
      match indexOf (buffer st) [LF; LF] with
      | None => (st, None)
      | Some boundary =>
          let rawEvent := slice_to boundary (buffer st) in
          let st1 :=
            set_input (slice_from (boundary + 2) (buffer st)) (decoder st) st in
          match processRawEvent (trim rawEvent) st1 with
          | Ok st2 => drain fuel' st2
          | Throw e => (st1, Some e)
          end
      end
  end.

(** One turn of the outer loop, after [reader.read()] returned a chunk. *)
Definition on_chunk (value : list Byte.byte) (st : Reassembly)
  : Reassembly * option JsError :=
  let '(d, text) := decode_stream (decoder st) value in
  let st1 := set_input (buffer st ++ text) d st in
  drain (S (length (buffer st1))) st1.

(** The outer [while (true)] loop over the reads of the stream. *)
Fixpoint read_loop (cs : list (list Byte.byte)) (e : StreamEnd)
    (st : Reassembly) : Reassembly * option JsError :=
  match cs with
  | [] => match e with
          | Closed => (st, None)
          | Errored => (st, Some StreamError)
          end
  | value :: cs' =>
      match on_chunk value st with
      | (st', None) => read_loop cs' e st'
      | thrown => thrown
      end
  end.

(** The callback of [blocks.map]. *)
Definition build_content (block : BlockState) : AnthropicContent :=
  match block with
  | TextBlock text => ContentText text
  | ToolUseBlock id name inputBuffer =>
      ContentToolUse id name (safeParseJson inputBuffer)
  end.

(** [blocks.map(callback)]: holes stay holes. *)
Definition blocks_map {B} (f : BlockState -> B) (arr : BlockArray)
  : Outcome (list (option B)) :=
  if map_callable arr then Ok (List.map (option_map f) (items arr))
  else Throw TypeError.

(** What follows the [try]: the content array and the response object.
    [rid] is the identifier that [randomId('msg')] returns when called. *)
Definition finish (rid : jstring) (st : Reassembly) : Outcome AnthropicResponse :=
  content ← blocks_map build_content (blocks st);
  Ok {| resp_id := if truthy (Some (messageId st)) then messageId st
                   else JStr rid;
        resp_type := js "message";
        resp_role := js "assistant";
        resp_model := model st;
        stop_reason := stopReason st;
        stop_sequence := JNull;
        resp_content := content;
        resp_usage := usage st |}.

(** The state when the [try] statement is left: its [catch] clause is empty,
    so an exception only ends the reading. *)
Definition accumulate (stream : ReadableStream) : Reassembly :=
  fst (read_loop (chunks stream) (ending stream) initial).

Definition reassembleFromSSE (rid : jstring) (stream : ReadableStream)
  : Promise AnthropicResponse :=
  settle (finish rid (accumulate stream)).

Definition emptyResponse (rid : jstring) : AnthropicResponse :=
  {| resp_id := JStr rid;
     resp_type := js "message";
     resp_role := js "assistant";
     resp_model := JStr [];
     stop_reason := JNull;
     stop_sequence := JNull;
     resp_content := [];
     resp_usage := None |}.

(** ** ReadableStream.tee

    The two branches of a tee share the source.  A read on a branch takes
    the next chunk queued for it; when none is queued it pulls a chunk from
    the source and queues it for the other branch as well. *)

Inductive Branch := ClientBranch | LogBranch.

Record Tee := {
  source : list (list Byte.byte);
  queue_client : list (list Byte.byte);
  queue_log : list (list Byte.byte)
}.

Definition tee_start (stream : ReadableStream) : Tee :=
  {| source := chunks stream; queue_client := []; queue_log := [] |}.

(** One [read()] on a branch: the chunk, or [None] at the end of the
    source. *)
Definition tee_read (b : Branch) (t : Tee) : option (list Byte.byte) * Tee :=
  match b with
  | ClientBranch =>
      match queue_client t, source t with
      | c :: q, _ =>
          (Some c, {| source := source t; queue_client := q;
                      queue_log := queue_log t |})
      | [], c :: src =>
          (Some c, {| source := src; queue_client := [];
                      queue_log := queue_log t ++ [c] |})
      | [], [] => (None, t)
      end
  | LogBranch =>
      match queue_log t, source t with
      | c :: q, _ =>
          (Some c, {| source := source t; queue_client := queue_client t;
                      queue_log := q |})
      | [], c :: src =>
          (Some c, {| source := src; queue_client := queue_client t ++ [c];
                      queue_log := [] |})
      | [], [] => (None, t)
      end
  end.

(** Reads in the order of a schedule; what each branch received. *)
Fixpoint tee_run (schedule : list Branch) (t : Tee)
  : list (list Byte.byte) * list (list Byte.byte) * Tee :=
  match schedule with
  | [] => ([], [], t)
  | b :: schedule' =>
      let '(r, t1) := tee_read b t in
      let '(got_client, got_log, t2) := tee_run schedule' t1 in
      match b, r with
      | ClientBranch, Some c => (c :: got_client, got_log, t2)
      | LogBranch, Some c => (got_client, c :: got_log, t2)
      | _, None => (got_client, got_log, t2)
      end
  end.

(** Reading one branch until the end. *)
Fixpoint tee_read_all (fuel : nat) (b : Branch) (t : Tee)
  : list (list Byte.byte) :=
  match fuel with
  | O => []
  | S fuel' =>
      match tee_read b t with
      | (Some c, t') => c :: tee_read_all fuel' b t'
      | (None, _) => []
      end
  end.

Definition tee_left (b : Branch) (t : Tee) : nat :=
  match b with
  | ClientBranch => length (queue_client t) + length (source t)
  | LogBranch => length (queue_log t) + length (source t)
  end.

(** What a branch delivers in all: the chunks it received during the reads
    that were served on the two branches, in the order [reads], then those
    it receives when it is read on to the end. *)
Definition tee_total (b : Branch) (reads : list Branch)
    (stream : ReadableStream) : list (list Byte.byte) :=
  let '(got_client, got_log, t) := tee_run reads (tee_start stream) in
  match b with
  | ClientBranch => got_client
  | LogBranch => got_log
  end ++ tee_read_all (S (tee_left b t)) b t.

(** A branch as the stream its reader sees.  The end of the source, clean
    or not, reaches a branch after the chunks queued for it. *)
Definition branch_stream (b : Branch) (reads : list Branch)
    (stream : ReadableStream) : ReadableStream :=
  {| chunks := tee_total b reads stream; ending := ending stream |}.

(** [stream.tee()].  The readers of the two branches run side by side:
    [reads] is the order in which the runtime serves their reads. *)
Definition tee (reads : list Branch) (stream : ReadableStream)
  : ReadableStream * ReadableStream :=
  (branch_stream ClientBranch reads stream,
   branch_stream LogBranch reads stream).

(** ** teeAndCollectStream *)

Record Response := {
  status : N;
  headers : list (jstring * jstring);
  body : option ReadableStream
}.

Record TeeResult := {
  clientResponse : Response;
  collected : Promise AnthropicResponse
}.

(** The statuses that admit no body. *)
Definition null_body_status (st : N) : bool :=
  (st =? 101) || (st =? 103) || (st =? 204) || (st =? 205) || (st =? 304).

(** [new Response(stream, { status, headers })] for a body that is not
    null.  The constructor refuses a status outside 200..599 with a
    RangeError, and a status that admits no body with a TypeError; the
    headers are copied, and a stream brings no content type. *)
Definition new_Response_of_stream (stream : ReadableStream) (st : N)
    (h : list (jstring * jstring)) : Outcome Response :=
  if (st <? 200) || (599 <? st) then Throw RangeError
  else if null_body_status st then Throw TypeError
  else Ok {| status := st; headers := h; body := Some stream |}.

(** [rid] is the identifier that [randomId('msg')] returns when called, and
    [reads] the order in which the reads on the two branches get served. *)
Definition teeAndCollectStream (rid : jstring) (reads : list Branch)
    (response : Response) : Outcome TeeResult :=
  match body response with
  | None =>
      Ok {| clientResponse := response;
            collected := Fulfilled (emptyResponse rid) |}
  | Some stream =>
      let '(clientBranch, logBranch) := tee reads stream in
      clientResponse ← new_Response_of_stream clientBranch (status response)
                         (headers response);
      let collected := reassembleFromSSE rid logBranch in
      Ok {| clientResponse := clientResponse; collected := collected |}
  end.

(** ** The log entry *)

Record AnthropicRequest := {
  req_model : jstring;
  req_messages : list AnthropicMessage;
  req_stream : option bool;
  req_tools : jsval;
  req_metadata : jsval;
  req_mcp_servers : option (list json)
}.

(** The response of a log entry is either the object the reassembler built
    or the parsed body of a response that was not streamed. *)
Inductive ResponseObject :=
  | Reassembled (r : AnthropicResponse)
  | ParsedBody (j : json).

Record LogError := {
  err_status : N;
  err_message : jstring
}.

Record LogEntry := {
  requestId : jstring;
  sessionId : jstring;
  turnIndex : nat;
  timestamp : jstring;
  provider : Provider;
  originalModel : jstring;
  wireModel : jstring;
  request : AnthropicRequest;
  response : option ResponseObject;
  error : option LogError;
  clientMeta : option json;
  latencyMs : Z;
  streaming : bool
}.

(** A count in a template literal or under [String(...)]. *)
Definition nat_to_string (n : nat) : jstring :=
  Number_toString (number_of_N (N.of_nat n)).

(** ** buildLogKey *)

Definition buildLogKey (entry : LogEntry) : jstring :=
  let date := slice_to 10 (timestamp entry) in
  js "logs/" ++ date ++ js "/" ++ sessionId entry ++ js "/"
    ++ nat_to_string (turnIndex entry) ++ js "_" ++ requestId entry
    ++ js ".json".

(** ** writeLogEntry *)

Definition provider_name (p : Provider) : jstring :=
  match p with
  | anthropic => js "anthropic"
  | openrouter => js "openrouter"
  | vllm => js "vllm"
  | sglang => js "sglang"
  end.

Record R2PutOptions := {
  contentType : jstring;
  customMetadata : list (jstring * jstring)
}.

(** The audit bucket.  [put] may throw at once, or return a promise that is
    fulfilled, is rejected, or is never settled. *)
Record R2Bucket := {
  put : jstring -> jstring -> R2PutOptions -> Outcome (Promise unit)
}.

(** [await] of a call inside an [async] function: an exception thrown by
    the call and a rejected promise are both thrown at the [await]. *)
Definition await {A} (call : Outcome (Promise A)) : Promise A :=
  match call with
  | Ok p => p
  | Throw e => Rejected e
  end.

(** [try { ... } catch { ... }] around awaited code. *)
Definition try_async {A} (body : Promise A) (handler : JsError -> Promise A)
  : Promise A :=
  match body with
  | Rejected e => handler e
  | settled_or_pending => settled_or_pending
  end.

Section WriteLogEntry.

(** [JSON.stringify] of a log entry.  The shape of the request object is
    declared in [types.ts]; the serializer is left open and may throw. *)
Variable stringify : LogEntry -> Outcome jstring.

Definition writeLogEntry (bucket : R2Bucket) (entry : LogEntry)
  : Promise unit :=
  try_async
    (let key := buildLogKey entry in
     match stringify entry with
     | Throw e => Rejected e
     | Ok body =>
         await (put bucket key body
                  {| contentType := js "application/json";
                     customMetadata :=
                       [(js "sessionId", sessionId entry);
                        (js "provider", provider_name (provider entry));
                        (js "model", originalModel entry);
                        (js "turnIndex",
                          nat_to_string (turnIndex entry))] |})
     end)
    (fun _ => Fulfilled tt).

End WriteLogEntry.

End Logger.

(* ================================================================== *)
(** * Part 3: index.ts                                                  *)
(* ================================================================== *)

Module Worker.
Import JS Logger.

(** ** Requests, responses, errors *)

Definition Headers := list (jstring * jstring).

(** The values of the headers of a name, in order; names compare without
    regard to case. *)
Fixpoint header_values (h : Headers) (name : jstring) : list jstring :=
  match h with
  | [] => []
  | (k, v) :: h' =>
      if str_eqb (toLowerCase k) (toLowerCase name)
      then v :: header_values h' name
      else header_values h' name
  end.

(** [headers.get(name)]: the values of a header that is repeated are joined
    with a comma and a space. *)
Definition headers_get (h : Headers) (name : jstring) : option jstring :=
  match header_values h name with
  | [] => None
  | v :: vs => Some (v ++ concat (List.map (fun w => js ", " ++ w) vs))
  end.

Record Request := {
  pathname : jstring;
  method : jstring;
  req_headers : Headers;
  req_payload : list Byte.byte
}.

(** What the handler can throw: the two errors of [errors.ts], or an
    exception of the runtime. *)
Inductive Exception :=
  | InvalidRequest (message : jstring) (details : option json)
  | AuthenticationError (message : jstring)
  | Native (e : JsError).

Definition invalidRequest := InvalidRequest.
Definition authenticationError := AuthenticationError.

Inductive Result (A : Type) :=
  | Return (a : A)
  | Raise (e : Exception).
Arguments Return {A} a.
Arguments Raise {A} e.

#[global] Instance result_ret : MRet Result := fun A a => Return a.
#[global] Instance result_bind : MBind Result := fun A B f m =>
  match m with
  | Return a => f a
  | Raise e => Raise e
  end.

Definition ok (r : Response) : bool := (200 <=? status r) && (status r <=? 299).

(** [new Response(text, { status, headers })].  The constructor refuses a
    status outside 200..599, and a body together with a status that admits
    none; a body without a content type gets the one of plain text. *)
Definition new_Response (text : jstring) (st : N) (h : Headers)
  : Result Response :=
  if (st <? 200) || (599 <? st) then Raise (Native RangeError)
  else if null_body_status st then Raise (Native TypeError)
  else Return
    {| status := st;
       headers := match headers_get h (js "content-type") with
                  | Some _ => h
                  | None => h ++ [(js "content-type",
                                   js "text/plain;charset=UTF-8")]
                  end;
       body := Some {| chunks := [utf8_encode text]; ending := Closed |} |}.

(** [await response.text()] *)
Definition body_text (r : Response) : Result jstring :=
  match body r with
  | None => Return []
  | Some stream =>
      match ending stream with
      | Errored => Raise (Native StreamError)
      | Closed => Return (utf8_decode (concat (chunks stream)))
      end
  end.

(** [await response.json()] *)
Definition body_json (r : Response) : Result json :=
  text ← body_text r;
  match JSON_parse text with
  | Some v => Return v
  | None => Raise (Native SyntaxError)
  end.

(** ** Declarations of the modules that index.ts imports *)

Record WorkerConfig := {
  serverToolsMode : jstring;
  anthropicBaseUrl : jstring;
  openRouterBaseUrl : jstring;
  vllmBaseUrl : option jstring;
  sglangBaseUrl : option jstring
}.

Record Env := {
  MCP_BRIDGE_MODE : option jstring;
  LOG_BUCKET : R2Bucket
}.

Record Resolved := {
  res_provider : Provider;
  res_wireModel : jstring;
  res_originalModel : jstring
}.

Record ServerToolEntry := {
  kind : jstring;
  label : jstring
}.

Record BuildOptions := {
  opt_wireModel : jstring;
  opt_reasoning : jsval;
  opt_webSearch : jsval
}.

Record UpstreamRequest := {
  up_url : jstring;
  up_headers : Headers;
  up_body : jstring
}.

(** The readings of the clock and the identifiers drawn during one
    request. *)
Record Clock := {
  startTime : Z;
  isoTime : jstring;
  logTime : Z
}.

Record Ids := {
  id_req : jstring;
  id_sess : jstring;
  id_msg : jstring
}.

(** A task handed to [ctx.waitUntil]: the entry and the promise of its
    write. *)
Record Scheduled := {
  entry : LogEntry;
  write : Promise unit
}.

Record Reply := {
  reply : Response;
  scheduled : list Scheduled
}.

(** ** Functions of index.ts that do not depend on other modules *)

Definition normalizeMetadata (metadata : jsval) : jsval :=
  match metadata with
  | Some (JObj kv) => Some (JObj kv)
  | Some (JArr l) => Some (JArr l)
  | _ => None
  end.

Definition bearer_token (auth : option jstring) : option jstring :=
  match auth with
  | Some a =>
      match a with
      | [] => None
      | _ => if startsWith (toLowerCase a) (js "bearer ")
             then Some (trim (slice_from 7 a))
             else None
      end
  | None => None
  end.

Definition extractApiKey (h : Headers) : Result jstring :=
  match bearer_token (headers_get h (js "authorization")) with
  | Some (c :: token) => Return (c :: token)
  | _ =>
      match headers_get h (js "x-api-key") with
      | Some (c :: key) => Return (c :: key)
      | _ => Raise (authenticationError (js "Missing API key"))
      end
  end.

Definition optional_header_key (h : Headers) : option jstring :=
  match headers_get h (js "x-api-key") with
  | Some (c :: key) =>
      if str_eqb (c :: key) (js "no-auth") then None else Some (c :: key)
  | _ => None
  end.

Definition extractOptionalApiKey (h : Headers) : option jstring :=
  match bearer_token (headers_get h (js "authorization")) with
  | Some (c :: token) =>
      if str_eqb (c :: token) (js "no-auth") then optional_header_key h
      else Some (c :: token)
  | _ => optional_header_key h
  end.

Definition safeParseJsonMeta (raw : jstring) : option json :=
  match JSON_parse raw with
  | Some (JObj kv) => Some (JObj kv)
  | _ => None
  end.

(** A string where the source passes a value that may be [undefined]. *)
Definition string_or_undefined (v : option jstring) : jstring :=
  match v with
  | Some s => s
  | None => js "undefined"
  end.

Definition buildAnthropicHeaders (original : Headers) (apiKey : option jstring)
  : Headers :=
  [(js "content-type", js "application/json");
   (js "x-api-key", string_or_undefined apiKey)]
  ++ match headers_get original (js "anthropic-version") with
     | Some (c :: v) => [(js "anthropic-version", c :: v)]
     | _ => []
     end.

Definition upper_provider (p : Provider) : jstring :=
  match p with
  | anthropic => js "ANTHROPIC"
  | openrouter => js "OPENROUTER"
  | vllm => js "VLLM"
  | sglang => js "SGLANG"
  end.

Definition is_true (b : option bool) : bool :=
  match b with
  | Some true => true
  | _ => false
  end.

Definition status_details (st : N) (payload : json) : option json :=
  Some (JObj [(js "status", JNum (number_of_N st)); (js "body", payload)]).

(** What the handler depends on and index.ts does not define: the modules
    it imports (config.ts, errors.ts, utils.ts, provider.ts, translator.ts,
    stream.ts), and the runtime (the network behind the global [fetch],
    [JSON.stringify] of the typed request and of a log entry, the clock,
    the random identifiers, and the order in which the reads on the two
    branches of a tee get served). *)
Class Dependencies := {
  CastariHeaders : Type;
  resolveConfig : Env -> WorkerConfig;
  errorResponse : Exception -> Response;
  normalizeCastariHeaders : Headers -> CastariHeaders;
  readJsonBody : Request -> Result AnthropicRequest;
  getHeader : Headers -> jstring -> option jstring;
  resolveProvider :
    CastariHeaders -> AnthropicRequest -> WorkerConfig -> Resolved;
  categorizeServerTools : jsval -> list ServerToolEntry;
  buildOpenRouterRequest : AnthropicRequest -> BuildOptions -> json;
  mapOpenRouterResponse : json -> jstring -> json;
  streamOpenRouterToAnthropic : Response -> jstring -> Response;
  upstream : UpstreamRequest -> Result Response;
  stringify_request : AnthropicRequest -> jstring;
  stringify_entry : LogEntry -> Outcome jstring;
  clock : Clock;
  ids : Ids;
  tee_reads : list Branch
}.

Section Handler.

Context {deps : Dependencies}.

Definition proxyAnthropic (body : AnthropicRequest) (request : Request)
    (apiKey : option jstring) (upstreamUrl : jstring) : Result Response :=
  upstreamResp ← upstream
    {| up_url := upstreamUrl;
       up_headers := buildAnthropicHeaders (req_headers request) apiKey;
       up_body := stringify_request body |};
  if negb (ok upstreamResp) then
    text ← body_text upstreamResp;
    new_Response
      (match text with
       | [] => JSON_stringify
                 (JObj [(js "error", JStr (js "Anthropic upstream error"))])
       | _ => text
       end)
      (status upstreamResp)
      [(js "content-type",
        match headers_get (headers upstreamResp) (js "content-type") with
        | Some ct => ct
        | None => js "application/json"
        end)]
  else Return upstreamResp.

Definition json_response_headers : Headers :=
  [(js "content-type", js "application/json");
   (js "cache-control", js "no-store")].

Definition handleOpenAICompatible (body : AnthropicRequest)
    (wireModel originalModel : jstring) (apiKey : option jstring)
    (upstreamUrl : jstring) (providerName : jstring) : Result Response :=
  let compatRequest :=
    buildOpenRouterRequest body
      {| opt_wireModel := wireModel; opt_reasoning := None;
         opt_webSearch := None |} in
  let hs :=
    (js "content-type", js "application/json")
    :: match apiKey with
       | Some (c :: key) => [(js "authorization", js "Bearer " ++ c :: key)]
       | _ => []
       end in
  upstreamResp ← upstream
    {| up_url := upstreamUrl; up_headers := hs;
       up_body := JSON_stringify compatRequest |};
  if is_true (req_stream body) then
    if negb (ok upstreamResp) then
      payload ← body_text upstreamResp;
      Raise (invalidRequest (providerName ++ js " streaming error")
               (status_details (status upstreamResp) (JStr payload)))
    else Return (streamOpenRouterToAnthropic upstreamResp originalModel)
  else
    parsed ← body_json upstreamResp;
    if negb (ok upstreamResp) then
      Raise (invalidRequest (providerName ++ js " error")
               (status_details (status upstreamResp) parsed))
    else
      let responseBody := mapOpenRouterResponse parsed originalModel in
      new_Response (JSON_stringify responseBody) 200 json_response_headers.

Definition handleOpenRouter (body : AnthropicRequest)
    (wireModel originalModel : jstring) (apiKey : option jstring)
    (config : WorkerConfig) (reasoning webSearch : jsval)
  : Result Response :=
  let openRouterRequest :=
    buildOpenRouterRequest body
      {| opt_wireModel := wireModel; opt_reasoning := reasoning;
         opt_webSearch := webSearch |} in
  upstreamResp ← upstream
    {| up_url := openRouterBaseUrl config;
       up_headers :=
         [(js "content-type", js "application/json");
          (js "authorization", js "Bearer " ++ string_or_undefined apiKey)];
       up_body := JSON_stringify openRouterRequest |};
  if is_true (req_stream body) then
    if negb (ok upstreamResp) then
      payload ← body_text upstreamResp;
      Raise (invalidRequest (js "OpenRouter streaming error")
               (status_details (status upstreamResp) (JStr payload)))
    else Return (streamOpenRouterToAnthropic upstreamResp originalModel)
  else
    parsed ← body_json upstreamResp;
    if negb (ok upstreamResp) then
      Raise (invalidRequest (js "OpenRouter error")
               (status_details (status upstreamResp) parsed))
    else
      let responseBody := mapOpenRouterResponse parsed originalModel in
      new_Response (JSON_stringify responseBody) 200 json_response_headers.

(** What the handler has settled when it reaches the upstream call. *)
Record Routing := {
  rt_body : AnthropicRequest;
  rt_provider : Provider;
  rt_wireModel : jstring;
  rt_originalModel : jstring;
  rt_apiKey : option jstring;
  rt_config : WorkerConfig;
  rt_reasoning : jsval;
  rt_webSearch : jsval;
  rt_requestId : jstring;
  rt_sessionId : jstring;
  rt_turnIndex : nat;
  rt_clientMeta : option json
}.

Definition is_kind (k : string) (e : ServerToolEntry) : bool :=
  str_eqb (kind e) (js k).

(** The handler from the reading of the request to the base log entry. *)
Definition route (request : Request) (env : Env) : Result Routing :=
  let requestId := id_req ids in
  let sessionId :=
    match getHeader (req_headers request) (js "x-castari-session-id") with
    | Some s => s
    | None => id_sess ids
    end in
  let clientMeta :=
    match getHeader (req_headers request) (js "x-client-meta") with
    | Some (c :: raw) => safeParseJsonMeta (c :: raw)
    | _ => None
    end in
  let config := resolveConfig env in
  let hs := normalizeCastariHeaders (req_headers request) in
  body ← readJsonBody request;
  let metadata := normalizeMetadata (req_metadata body) in
  let castari := get_opt metadata "castari" in
  let reasoning := get_opt castari "reasoning" in
  let webSearch := get_opt castari "web_search_options" in
  let resolved := resolveProvider hs body config in
  let turnIndex := deriveTurnIndex (req_messages body) in
  apiKey ← match res_provider resolved with
           | vllm | sglang =>
               Return (extractOptionalApiKey (req_headers request))
           | _ => key ← extractApiKey (req_headers request);
                  Return (Some key)
           end;
  let serverToolEntries := categorizeServerTools (req_tools body) in
  let webSearchTools := List.filter (is_kind "websearch") serverToolEntries in
  let otherServerTools := List.filter (is_kind "other") serverToolEntries in
  let isNonAnthropicProvider :=
    match res_provider resolved with
    | anthropic => false
    | _ => true
    end in
  let policy := isNonAnthropicProvider
                && negb (match otherServerTools with [] => true | _ => false end) in
  resolved' ←
    (if policy && str_eqb (serverToolsMode config) (js "error") then
       Raise (invalidRequest (js "Server tools require Anthropic provider")
                (Some (JObj [(js "tools",
                   JArr (List.map (fun e => JStr (label e))
                           otherServerTools))])))
     else if policy && str_eqb (serverToolsMode config) (js "enforceAnthropic")
     then Return {| res_provider := anthropic;
                    res_wireModel := res_originalModel resolved;
                    res_originalModel := res_originalModel resolved |}
     else Return resolved);
  let webSearch' :=
    match res_provider resolved' with
    | openrouter =>
        match webSearchTools with
        | _ :: _ => if truthy webSearch then webSearch else Some (JObj [])
        | [] => webSearch
        end
    | _ => webSearch
    end in
  let has_mcp := match req_mcp_servers body with
                 | Some (_ :: _) => true
                 | _ => false
                 end in
  let native := match res_provider resolved' with
                | anthropic => true
                | _ => false
                end in
  let bridged := match MCP_BRIDGE_MODE env with
                 | Some m => str_eqb m (js "http-sse")
                 | None => false
                 end in
  if has_mcp && negb native && negb bridged then
    Raise (invalidRequest
             (js "MCP servers require Anthropic routing or http-sse bridge")
             (Some (JObj [(js "mode",
                JStr (match MCP_BRIDGE_MODE env with
                      | Some m => m
                      | None => js "off"
                      end))])))
  else
    Return {| rt_body := body;
              rt_provider := res_provider resolved';
              rt_wireModel := res_wireModel resolved';
              rt_originalModel := res_originalModel resolved';
              rt_apiKey := apiKey;
              rt_config := config;
              rt_reasoning := reasoning;
              rt_webSearch := webSearch';
              rt_requestId := requestId;
              rt_sessionId := sessionId;
              rt_turnIndex := turnIndex;
              rt_clientMeta := clientMeta |}.

(** [scheduleLog]: the entry and its write, handed to [ctx.waitUntil]. *)
Definition scheduleLog (env : Env) (rt : Routing)
    (resp : option ResponseObject) (is_streaming : bool)
    (err : option LogError) : Scheduled :=
  let e :=
    {| requestId := rt_requestId rt;
       sessionId := rt_sessionId rt;
       turnIndex := rt_turnIndex rt;
       timestamp := isoTime clock;
       provider := rt_provider rt;
       originalModel := rt_originalModel rt;
       wireModel := rt_wireModel rt;
       request := rt_body rt;
       response := resp;
       error := err;
       clientMeta := rt_clientMeta rt;
       latencyMs := logTime clock - startTime clock;
       streaming := is_streaming |} in
  {| entry := e; write := writeLogEntry stringify_entry (LOG_BUCKET env) e |}.

(** [logStreamingResponse]: the log is scheduled by the [then] of
    [collected], so only when that promise is fulfilled.  What
    [teeAndCollectStream] throws leaves the helper, and is caught by
    [fetch]. *)
Definition logStreamingResponse (env : Env) (rt : Routing) (resp : Response)
  : Result Reply :=
  match teeAndCollectStream (id_msg ids) tee_reads resp with
  | Throw e => Raise (Native e)
  | Ok t =>
      Return
        {| reply := clientResponse t;
           scheduled :=
             match collected t with
             | Fulfilled assembled =>
                 [scheduleLog env rt (Some (Reassembled assembled)) true None]
             | _ => []
             end |}
  end.

(** After a response that was not streamed: its body is parsed for the
    log, and the response is returned. *)
Definition logParsedResponse (env : Env) (rt : Routing) (resp : Response)
  : Result Reply :=
  clonedBody ← body_json resp;
  Return {| reply := resp;
            scheduled :=
              [scheduleLog env rt (Some (ParsedBody clonedBody)) false
                 None] |}.

(** The handler from the upstream call on. *)
Definition serve (request : Request) (env : Env) (rt : Routing)
  : Result Reply :=
  match rt_provider rt with
  | anthropic =>
      resp ← proxyAnthropic (rt_body rt) request (rt_apiKey rt)
               (anthropicBaseUrl (rt_config rt));
      if negb (ok resp) then
        errorText ← body_text resp;
        Return {| reply := resp;
                  scheduled :=
                    [scheduleLog env rt None false
                       (Some {| err_status := status resp;
                                err_message := slice_to 1000 errorText |})]
               |}
      else logStreamingResponse env rt resp
  | openrouter =>
      resp ← handleOpenRouter (rt_body rt) (rt_wireModel rt)
               (rt_originalModel rt) (rt_apiKey rt) (rt_config rt)
               (rt_reasoning rt) (rt_webSearch rt);
      if is_true (req_stream (rt_body rt))
      then logStreamingResponse env rt resp
      else logParsedResponse env rt resp
  | p =>
      match (match p with
             | vllm => vllmBaseUrl (rt_config rt)
             | _ => sglangBaseUrl (rt_config rt)
             end) with
      | Some (c :: url) =>
          resp ← handleOpenAICompatible (rt_body rt) (rt_wireModel rt)
                   (rt_originalModel rt) (rt_apiKey rt) (c :: url)
                   (provider_name p);
          if is_true (req_stream (rt_body rt))
          then logStreamingResponse env rt resp
          else logParsedResponse env rt resp
      | _ =>
          Raise (invalidRequest
                   (provider_name p
                      ++ js " provider is not configured. Set UPSTREAM_"
                      ++ upper_provider p ++ js "_BASE_URL.") None)
      end
  end.

(** [fetch]: the [try] block, and the [catch] that turns whatever was
    thrown into a response. *)
Definition fetch (request : Request) (env : Env) : Reply :=
  let attempt :=
    if negb (str_eqb (pathname request) (js "/v1/messages"))
       || negb (str_eqb (method request) (js "POST"))
    then
      resp ← new_Response (js "Not found") 404 [];
      Return {| reply := resp; scheduled := [] |}
    else
      rt ← route request env;
      serve request env rt in
  match attempt with
  | Return r => r
  | Raise e => {| reply := errorResponse e; scheduled := [] |}
  end.

End Handler.

End Worker.

(* ================================================================== *)
(** * Part 4: the streams of logger.test.ts                             *)
(* ================================================================== *)

Module Samples.
Import JS Logger.
Local Open Scope string_scope.

Definition str (s : string) : json := JStr (js s).
Definition num (n : N) : json := JNum (number_of_N n).
Definition obj (props : list (string * json)) : json :=
  JObj (List.map (fun '(k, v) => (js k, v)) props).

(** [buildSSEStream]: one chunk for each event, holding the lines
    [event: <name>] and [data: <JSON>] and a blank line. *)
Definition sse_chunk (ev : string * json) : list Byte.byte :=
  utf8_encode (js "event: " ++ js (fst ev) ++ [LF] ++ js "data: "
               ++ JSON_stringify (snd ev) ++ [LF; LF])%list.

Definition buildSSEStream (events : list (string * json)) : ReadableStream :=
  {| chunks := List.map sse_chunk events; ending := Closed |}.

Definition message_start (id model : string) : string * json :=
  ("message_start",
   obj [("type", str "message_start");
        ("message", obj [("id", str id); ("type", str "message");
                         ("role", str "assistant"); ("model", str model);
                         ("content", JArr [])])]).

Definition text_block_start (index : N) : string * json :=
  ("content_block_start",
   obj [("type", str "content_block_start"); ("index", num index);
        ("content_block", obj [("type", str "text"); ("text", str "")])]).

Definition text_delta (index : N) (text : string) : string * json :=
  ("content_block_delta",
   obj [("type", str "content_block_delta"); ("index", num index);
        ("delta", obj [("type", str "text_delta"); ("text", str text)])]).

Definition block_stop (index : N) : string * json :=
  ("content_block_stop",
   obj [("type", str "content_block_stop"); ("index", num index)]).

Definition message_stop : string * json :=
  ("message_stop", obj [("type", str "message_stop")]).

(** The events of the test of a simple text response. *)
Definition text_events : list (string * json) :=
  [message_start "msg_test" "claude-3";
   text_block_start 0;
   text_delta 0 "Hello ";
   text_delta 0 "world!";
   block_stop 0;
   ("message_delta",
    obj [("type", str "message_delta");
         ("delta", obj [("stop_reason", str "end_turn");
                        ("usage", obj [("input_tokens", num 10);
                                       ("output_tokens", num 5)])])]);
   message_stop].

Definition event_stream_response (stream : ReadableStream) : Response :=
  {| status := 200;
     headers := [(js "content-type", js "text/event-stream")];
     body := Some stream |}.

(** The events of the test of a response with a tool call; the two argument
    fragments are the halves of an object with the property [query]. *)
Definition tool_events : list (string * json) :=
  [message_start "msg_tools" "claude-3";
   text_block_start 0;
   text_delta 0 "Let me search.";
   block_stop 0;
   ("content_block_start",
    obj [("type", str "content_block_start"); ("index", num 1);
         ("content_block", obj [("type", str "tool_use"); ("id", str "tool_1");
                                ("name", str "search"); ("input", JObj [])])]);
   ("content_block_delta",
    obj [("type", str "content_block_delta"); ("index", num 1);
         ("delta", obj [("type", str "input_json_delta");
                        ("partial_json",
                         JStr (js "{" ++ quote (js "query") ++ js ":")%list)])]);
   ("content_block_delta",
    obj [("type", str "content_block_delta"); ("index", num 1);
         ("delta", obj [("type", str "input_json_delta");
                        ("partial_json",
                         JStr (quote (js "hello") ++ js "}")%list)])]);
   block_stop 1;
   ("message_delta",
    obj [("type", str "message_delta");
         ("delta", obj [("stop_reason", str "tool_use")])]);
   message_stop].

(** Two [message_start] events with different identifiers and models. *)
Definition two_starts : list (string * json) :=
  [message_start "msg_first" "model-a";
   message_start "msg_second" "model-b";
   message_stop].

(** A block started under the index ["map"]. *)
Definition map_index_events : list (string * json) :=
  [message_start "msg_test" "claude-3";
   ("content_block_start",
    obj [("type", str "content_block_start"); ("index", str "map");
         ("content_block", obj [("type", str "text"); ("text", str "")])])].

End Samples.

(* ================================================================== *)
(** * Part 5: notions used in the statements                            *)
(* ================================================================== *)

Module Notions.
Import JS Logger Samples.

Definition is_assistant (msg : AnthropicMessage) : Prop :=
  role msg = js "assistant".

#[global] Instance is_assistant_dec msg : Decision (is_assistant msg) :=
  decide (role msg = js "assistant").

Definition user_message (c : json) : AnthropicMessage :=
  {| role := js "user"; content := c |}.

Definition is_rejected {A} (p : Promise A) : bool :=
  match p with
  | Rejected _ => true
  | _ => false
  end.

(** The entry of the tests of [buildLogKey] and [writeLogEntry]. *)
Definition sample_entry : LogEntry :=
  {| requestId := js "req_001"; sessionId := js "sess_001";
     turnIndex := 0; timestamp := js "2026-02-15T10:00:00.000Z";
     provider := anthropic;
     originalModel := js "claude-sonnet-4-5-20250929";
     wireModel := js "claude-sonnet-4-5-20250929";
     request := {| req_model := js "claude-sonnet-4-5-20250929";
                   req_messages := [user_message (JStr (js "Hi"))];
                   req_stream := None; req_tools := None;
                   req_metadata := None; req_mcp_servers := None |};
     response := None; error := None; clientMeta := None;
     latencyMs := 150; streaming := false |}.

(** Events that were cut out of the buffer and parsed, processed in order;
    an exception ends the processing. *)
Fixpoint run_events (events : list (jstring * json)) (st : Reassembly)
  : Outcome Reassembly :=
  match events with
  | [] => Ok st
  | (eventType, data) :: events' =>
      st' ← dispatch eventType data st; run_events events' st'
  end.

Definition is_message_start (ev : jstring * json) : bool :=
  is_str (event_kind (fst ev) (snd ev)) "message_start".

(** The data of a [message_start] event whose message has the identifier
    [i] and the model [m], neither of them [null]. *)
Definition carries (data : json) (i m : json) : Prop :=
  exists msg,
    get data "message" = Some msg
    /\ get msg "id" = Some i /\ i <> JNull
    /\ get msg "model" = Some m /\ m <> JNull.

(** The state in which the processing of events ends: after the last
    one, or before the first one whose processing throws. *)
Fixpoint stopped_at (events : list (jstring * json)) (st : Reassembly)
  : Reassembly :=
  match events with
  | [] => st
  | (eventType, data) :: events' =>
      match dispatch eventType data st with
      | Ok st' => stopped_at events' st'
      | Throw _ => st
      end
  end.

(** What the message of a [message_start] event offers for a field: nothing
    when the message is missing or falsy, or when the field is absent or
    [null]. *)
Definition offered (data : json) (field : string) : option json :=
  match get data "message" with
  | Some msg =>
      if truthy (Some msg) then
        match get msg field with
        | None | Some JNull => None
        | Some v => Some v
        end
      else None
  | None => None
  end.

(** The data of a [message_start] event whose message has no identifier and
    no model, or [null] for them. *)
Definition carries_nothing (data : json) : Prop :=
  exists msg,
    get data "message" = Some msg
    /\ nullish (get msg "id") None = None
    /\ nullish (get msg "model") None = None.

(** *** The reassembler in one pass

    What the design says of the reassembler, without the chunks: the text of
    the stream is cut at its blank lines, from the left, and the pieces are
    processed in order until one throws; what follows the last blank line
    is not an event. *)

(** The variables of a reassembly that are not its input. *)
Definition core (st : Reassembly)
  : json * json * json * option Usage * BlockArray :=
  (messageId st, model st, stopReason st, usage st, blocks st).

Fixpoint segments (fuel : nat) (text : jstring) : list jstring * jstring :=
  match fuel with
  | O => ([], text)
  | S fuel' =>
      match indexOf text [LF; LF] with
      | None => ([], text)
      | Some k =>
          let '(raws, rest) := segments fuel' (slice_from (k + 2) text) in
          (slice_to k text :: raws, rest)
      end
  end.

(** The events of a text and what is left after them; a cut shortens the
    text, so its length is fuel enough. *)
Definition segs (text : jstring) : list jstring * jstring :=
  segments (S (length text)) text.

Definition events_of (text : jstring) : list jstring := fst (segs text).

Fixpoint run_raw (raws : list jstring) (st : Reassembly)
  : Reassembly * option JsError :=
  match raws with
  | [] => (st, None)
  | raw :: raws' =>
      match processRawEvent (trim raw) st with
      | Ok st' => run_raw raws' st'
      | Throw e => (st, Some e)
      end
  end.

(** The text of the bytes of a stream, as the streaming decoder gives it. *)
Definition stream_text (bytes : list Byte.byte) : jstring :=
  snd (decode_stream newTextDecoder bytes).

Definition replay (bytes : list Byte.byte) : Reassembly :=
  fst (run_raw (events_of (stream_text bytes)) initial).



(** A parser of elements that consumes what it accepts. *)
Definition consuming (pv : jstring -> option (json * jstring)) : Prop :=
  forall s v r, pv s = Some (v, r) -> (length r < length s)%nat.

Definition on_outcome {A B} (f : A -> B) (o : Outcome A) : Outcome B :=
  match o with
  | Ok a => Ok (f a)
  | Throw e => Throw e
  end.


(** The stream of the chunks [cs] that then fails. *)
Definition failing_after (cs : list (list Byte.byte)) : ReadableStream :=
  {| chunks := cs; ending := Errored |}.

Definition closed_after (cs : list (list Byte.byte)) : ReadableStream :=
  {| chunks := cs; ending := Closed |}.

(** A status that [new Response] accepts together with a body. *)
Definition status_admits_body (st : N) : bool :=
  (200 <=? st) && (st <=? 599) && negb (null_body_status st).

(** The exception of [new Response] for a status that it does not accept
    together with a body. *)
Definition refusal (st : N) : JsError :=
  if (st <? 200) || (599 <? st) then RangeError else TypeError.

(** The body the native path gives to its error response. *)
Definition native_error_text (text : jstring) : jstring :=
  match text with
  | [] => JSON_stringify
            (JObj [(js "error", JStr (js "Anthropic upstream error"))])
  | _ => text
  end.

Definition content_type_or_json (h : Worker.Headers) : jstring :=
  match Worker.headers_get h (js "content-type") with
  | Some ct => ct
  | None => js "application/json"
  end.

(** The exception that the translated paths throw for an upstream answer
    that is not a success, in a request that does not ask for a stream. *)
Definition translated_error (p : Provider) (st : N) (text : jstring)
  : Worker.Exception :=
  match JSON_parse text with
  | None => Worker.Native SyntaxError
  | Some parsed =>
      Worker.InvalidRequest
        (match p with
         | openrouter => js "OpenRouter error"
         | _ => provider_name p ++ js " error"
         end)
        (Worker.status_details st parsed)
  end.

(** The base address of a provider that needs one configured. *)
Definition configured_url (p : Provider) (config : Worker.WorkerConfig)
  : option jstring :=
  match p with
  | vllm => Worker.vllmBaseUrl config
  | sglang => Worker.sglangBaseUrl config
  | _ => Some (js "configured")
  end.

Definition is_configured (p : Provider) (config : Worker.WorkerConfig)
  : bool :=
  match configured_url p config with
  | Some (_ :: _) => true
  | _ => false
  end.


(** The chunks queued for a branch of a tee. *)
Definition tee_queue (b : Branch) (t : Tee) : list (list Byte.byte) :=
  match b with
  | ClientBranch => queue_client t
  | LogBranch => queue_log t
  end.

(** *** Framed events *)

(** The text of a stream: its bytes, as the streaming decoder gives
    them. *)
Definition text_of (stream : ReadableStream) : jstring :=
  stream_text (concat (chunks stream)).

(** A raw event that a blank line can end: it holds no blank line and does
    not end with a line feed. *)
Definition terminable (raw : jstring) : Prop :=
  indexOf (raw ++ [LF]) [LF; LF] = None.

(** Raw events, each followed by a blank line. *)
Definition frame (raws : list jstring) : jstring :=
  concat (List.map (fun raw => raw ++ [LF; LF]) raws).

(** A raw event that [processRawEvent] passes over: an empty one, a
    comment, one without data or with the data [[DONE]], one whose data is
    no JSON, and one whose kind has no case in the [switch] or has the
    empty case of [content_block_stop]. *)
Definition passed_over (raw : jstring) : bool :=
  match trim raw with
  | [] => true
  | t =>
      startsWith t (js ":")
      || let '(eventType, dataStr) := event_fields t in
         match dataStr with
         | [] => true
         | _ =>
             str_eqb dataStr (js "[DONE]")
             || match JSON_parse dataStr with
                | None => true
                | Some data =>
                    let kind := event_kind eventType data in
                    negb (is_str kind "message_start"
                          || is_str kind "content_block_start"
                          || is_str kind "content_block_delta"
                          || is_str kind "message_delta"
                          || is_str kind "message_stop")
                end
         end
  end.

(** A raw event whose processing throws, whatever was accumulated. *)
Definition fatal (raw : jstring) : Prop :=
  forall st, exists e, processRawEvent (trim raw) st = Throw e.

(** The characters that the decimal form of a Number is made of. *)
Definition number_char (c : N) : bool :=
  is_digit c || existsb (N.eqb c) (js "+-.e" ++ js "Infinity" ++ js "NaN").

(** The index of an event is absent, [null], a boolean or a number: not a
    string, an array or an object. *)
Definition plain_index (data : json) : bool :=
  match get data "index" with
  | Some (JStr _) | Some (JArr _) | Some (JObj _) => false
  | _ => true
  end.


(** *** Events of the protocol, with any index *)

Definition block_start_event (index block : json) : jstring * json :=
  (js "content_block_start",
   obj [("type", str "content_block_start"); ("index", index);
        ("content_block", block)]%string).

Definition block_delta_event (index delta : json) : jstring * json :=
  (js "content_block_delta",
   obj [("type", str "content_block_delta"); ("index", index);
        ("delta", delta)]%string).

Definition text_block (text : jstring) : json :=
  obj [("type", str "text"); ("text", JStr text)]%string.

Definition tool_use_block (id name : jstring) : json :=
  obj [("type", str "tool_use"); ("id", JStr id); ("name", JStr name);
       ("input", JObj [])]%string.

Definition text_delta_of (text : jstring) : json :=
  obj [("type", str "text_delta"); ("text", JStr text)]%string.

Definition input_json_delta (partial_json : jstring) : json :=
  obj [("type", str "input_json_delta");
       ("partial_json", JStr partial_json)]%string.

(** *** Audit records *)

(** The three shapes of an audit record: an error without a response, on
    the native path; a reassembled response, streamed; a parsed body, not
    streamed, on the other paths. *)
Definition well_shaped (e : LogEntry) : bool :=
  match response e, error e with
  | None, Some _ =>
      negb (streaming e)
      && match provider e with anthropic => true | _ => false end
  | Some (Reassembled _), None => streaming e
  | Some (ParsedBody _), None =>
      negb (streaming e)
      && match provider e with anthropic => false | _ => true end
  | _, _ => false
  end.

End Notions.

(* ================================================================== *)
(** * Part 6: what the statements about the handler need                *)
(* ================================================================== *)

Module HandlerNotions.
Import JS Logger Worker Samples Notions.

(** The answer to a request for another path or method. *)
Definition not_found : Response :=
  {| status := 404;
     headers := [(js "content-type", js "text/plain;charset=UTF-8")];
     body := Some {| chunks := [utf8_encode (js "Not found")];
                     ending := Closed |} |}.

(** The response that the translated paths build from the translated
    body. *)
Definition translated_response (responseBody : json) : Response :=
  {| status := 200;
     headers := json_response_headers;
     body := Some {| chunks := [utf8_encode (JSON_stringify responseBody)];
                     ending := Closed |} |}.

(** The exception of the translated paths for an upstream answer that is
    not a success, in a request that asks for a stream. *)
Definition streaming_error (p : Provider) (st : N) (payload : jstring)
  : Exception :=
  InvalidRequest
    (match p with
     | openrouter => js "OpenRouter streaming error"
     | _ => provider_name p ++ js " streaming error"
     end)
    (status_details st (JStr payload)).

Section Resolution.

Context {deps : Dependencies}.

(** What [resolveProvider] answers for a request whose body reads as
    [body]. *)
Definition resolution (request : Request) (env : Env)
    (body : AnthropicRequest) : Resolved :=
  resolveProvider (normalizeCastariHeaders (req_headers request)) body
    (resolveConfig env).

(** The server tools of a body that are not web searches. *)
Definition other_server_tools (body : AnthropicRequest)
  : list ServerToolEntry :=
  List.filter (is_kind "other") (categorizeServerTools (req_tools body)).

(** The session of a request: the one its header names, or a new one. *)
Definition session_of (request : Request) : jstring :=
  match getHeader (req_headers request) (js "x-castari-session-id") with
  | Some s => s
  | None => id_sess ids
  end.


End Resolution.

End HandlerNotions.

(* ================================================================== *)
(** * Part 7: stand-ins for the modules that index.ts imports           *)
(* ================================================================== *)

Module Doubles.
Import JS Logger Worker Samples Notions.
Local Open Scope string_scope.

(** Modelled from the spec: errors.ts is not among the sources.  Section 7
    of the design: an authentication error is surfaced as a client-visible
    4xx, an invalid-request error as a client-visible 4xx with a structured
    detail payload; here also a 500 for any other exception. *)
Definition spec_errorResponse (e : Exception) : Response :=
  let '(st, kind, message, details) :=
    match e with
    | InvalidRequest m d => (400, "invalid_request_error", m, d)
    | AuthenticationError m => (401, "authentication_error", m, None)
    | Native _ => (500, "api_error", js "Internal error", None)
    end in
  {| status := st;
     headers := [(js "content-type", js "application/json")];
     body :=
       Some {| chunks :=
                 [utf8_encode
                    (JSON_stringify
                       (obj [("type", str "error");
                             ("error",
                              JObj ([(js "type", str kind);
                                     (js "message", JStr message)]
                                    ++ match details with
                                       | Some d => [(js "details", d)]
                                       | None => []
                                       end)%list)]))];
               ending := Closed |} |}.

(** Modelled from the spec: provider.ts is not among the sources.  Section
    4.1, steps 1 and 3: a recognized prefix of the model decides the
    provider and is stripped, an OpenRouter model without a vendor gets the
    default vendor; any other model goes to the native provider unchanged.
    The routing header of step 2 is left out. *)
Definition spec_resolveProvider (_ : unit) (body : AnthropicRequest)
    (_ : WorkerConfig) : Resolved :=
  let m := req_model body in
  let strip (n : nat) (p : Provider) :=
    {| res_provider := p; res_wireModel := slice_from n m;
       res_originalModel := m |} in
  if startsWith m (js "or:") then
    {| res_provider := openrouter;
       res_wireModel :=
         match indexOf (slice_from 3 m) (js "/") with
         | Some _ => slice_from 3 m
         | None => (js "openai/" ++ slice_from 3 m)%list
         end;
       res_originalModel := m |}
  else if startsWith m (js "vllm:") || startsWith m (js "vllm/")
  then strip 5%nat vllm
  else if startsWith m (js "sglang:") || startsWith m (js "sglang/")
  then strip 7%nat sglang
  else strip 0%nat anthropic.

Definition sample_config : WorkerConfig :=
  {| serverToolsMode := js "error";
     anthropicBaseUrl := js "https://api.anthropic.com";
     openRouterBaseUrl := js "https://openrouter.ai/api";
     vllmBaseUrl := Some (js "http://localhost:8000");
     sglangBaseUrl := Some (js "http://localhost:30000") |}.

(** A bucket whose [put] succeeds. *)
Definition accepting_bucket : R2Bucket :=
  {| put := fun _ _ _ => Ok (Fulfilled tt) |}.

Definition sample_env : Env :=
  {| MCP_BRIDGE_MODE := None; LOG_BUCKET := accepting_bucket |}.

Definition sample_clock : Clock :=
  {| startTime := 1000; isoTime := js "2026-02-15T10:00:00.000Z";
     logTime := 1150 |}.

Definition sample_ids : Ids :=
  {| id_req := js "req_001"; id_sess := js "sess_001";
     id_msg := js "msg_generated" |}.

(** The reader of the logging branch is served first, then the client
    twice, then the logger again. *)
Definition sample_reads : list Branch :=
  [LogBranch; ClientBranch; ClientBranch; LogBranch].

(** Stand-ins for one request: its body reads as [body], and the upstream
    answers [up] to whatever it is sent. *)
Definition doubles (body : AnthropicRequest) (up : Response) : Dependencies :=
  {| CastariHeaders := unit;
     resolveConfig := fun _ => sample_config;
     errorResponse := spec_errorResponse;
     normalizeCastariHeaders := fun _ => tt;
     readJsonBody := fun _ => Return body;
     getHeader := headers_get;
     resolveProvider := spec_resolveProvider;
     categorizeServerTools := fun _ => [];
     buildOpenRouterRequest :=
       fun _ opts => JObj [(js "model", JStr (opt_wireModel opts))];
     mapOpenRouterResponse := fun parsed _ => parsed;
     streamOpenRouterToAnthropic := fun r _ => r;
     upstream := fun _ => Return up;
     stringify_request := fun _ => js "{}";
     stringify_entry := fun _ => Ok (js "{}");
     clock := sample_clock;
     ids := sample_ids;
     tee_reads := sample_reads |}.

Definition post_messages : Request :=
  {| pathname := js "/v1/messages"; method := js "POST";
     req_headers := [(js "x-api-key", js "sk-test")];
     req_payload := [] |}.

Definition request_body (model : string) (stream : option bool)
  : AnthropicRequest :=
  {| req_model := js model;
     req_messages := [user_message (str "Hi")];
     req_stream := stream; req_tools := None; req_metadata := None;
     req_mcp_servers := None |}.

Definition json_upstream (st : N) (payload : json) : Response :=
  {| status := st;
     headers := [(js "content-type", js "application/json")];
     body := Some {| chunks := [utf8_encode (JSON_stringify payload)];
                     ending := Closed |} |}.

(** An upstream failure, and an upstream message that is not streamed. *)
Definition upstream_failure : Response :=
  json_upstream 500 (obj [("error", str "boom")]).

Definition upstream_failure_text : jstring :=
  JSON_stringify (obj [("error", str "boom")]).

Definition upstream_message : Response :=
  json_upstream 200
    (obj [("id", str "msg_1"); ("type", str "message");
          ("role", str "assistant"); ("model", str "claude-3");
          ("content", JArr [obj [("type", str "text"); ("text", str "Hi")]]);
          ("stop_reason", str "end_turn")]).

(** Three requests: to OpenRouter with a failing upstream, to the native
    provider without streaming and with an upstream that answers a message,
    and to the native provider with a failing upstream. *)
Definition failing_openrouter : Dependencies :=
  doubles (request_body "or:gpt-5-mini" None) upstream_failure.

Definition native_unstreamed : Dependencies :=
  doubles (request_body "claude-3" (Some false)) upstream_message.

Definition native_failing : Dependencies :=
  doubles (request_body "claude-3" (Some false)) upstream_failure.

(** The routing of [post_messages] with a body for the native provider. *)
Definition native_routing (stream : option bool) : Routing :=
  {| rt_body := request_body "claude-3" stream;
     rt_provider := anthropic;
     rt_wireModel := js "claude-3";
     rt_originalModel := js "claude-3";
     rt_apiKey := Some (js "sk-test");
     rt_config := sample_config;
     rt_reasoning := None;
     rt_webSearch := None;
     rt_requestId := js "req_001";
     rt_sessionId := js "sess_001";
     rt_turnIndex := 0;
     rt_clientMeta := None |}.

(** *** More requests and streams *)

(** The lines of an event as [buildSSEStream] writes them, without the
    blank line. *)
Definition raw_event (ev : string * json) : jstring :=
  (js "event: " ++ js (fst ev) ++ [LF] ++ js "data: "
   ++ JSON_stringify (snd ev))%list.

(** A stream that delivers a text in one chunk and then fails. *)
Definition failing_text (text : jstring) : ReadableStream :=
  {| chunks := [utf8_encode text]; ending := Errored |}.

Definition keep_alive : jstring := js ": keep-alive".

(** The events of a message start and a message stop as a server writes
    them that ends its lines with a carriage return and a line feed. *)
Definition crlf_lines (ev : string * json) : jstring :=
  (js "event: " ++ js (fst ev) ++ [13; LF] ++ js "data: "
   ++ JSON_stringify (snd ev) ++ [13; LF; 13; LF])%list.

Definition crlf_stream : ReadableStream :=
  {| chunks := [utf8_encode (crlf_lines (message_start "msg_test" "claude-3"));
                utf8_encode (crlf_lines message_stop)];
     ending := Closed |}.

(** A [message_start] event whose data is [null]. *)
Definition null_start : jstring :=
  (js "event: message_start" ++ [LF] ++ js "data: null")%list.

(** A reassembly with two text blocks. *)
Definition two_blocks : Reassembly :=
  set_blocks
    {| items := [Some (TextBlock (str "a")); Some (TextBlock (str "b"))];
       named := [] |}
    initial.

(** An entry of the request of [sample_entry], written later the same
    day. *)
Definition later_entry : LogEntry :=
  {| requestId := requestId sample_entry;
     sessionId := sessionId sample_entry;
     turnIndex := turnIndex sample_entry;
     timestamp := js "2026-02-15T23:59:59.999Z";
     provider := openrouter;
     originalModel := originalModel sample_entry;
     wireModel := wireModel sample_entry;
     request := request sample_entry;
     response := None; error := None; clientMeta := None;
     latencyMs := 7; streaming := true |}.

Definition get_messages : Request :=
  {| pathname := js "/v1/messages"; method := js "GET";
     req_headers := [(js "x-api-key", js "sk-test")];
     req_payload := [] |}.

(** A request without a key. *)
Definition anonymous_post : Request :=
  {| pathname := js "/v1/messages"; method := js "POST";
     req_headers := []; req_payload := [] |}.

(** The routing of [post_messages] with a body for OpenRouter. *)
Definition openrouter_routing (stream : option bool) : Routing :=
  {| rt_body := request_body "or:gpt-5-mini" stream;
     rt_provider := openrouter;
     rt_wireModel := js "openai/gpt-5-mini";
     rt_originalModel := js "or:gpt-5-mini";
     rt_apiKey := Some (js "sk-test");
     rt_config := sample_config;
     rt_reasoning := None;
     rt_webSearch := None;
     rt_requestId := js "req_001";
     rt_sessionId := js "sess_001";
     rt_turnIndex := 0;
     rt_clientMeta := None |}.

(** A configuration without the address of vLLM, and the stand-ins of a
    request for a vLLM model under it. *)
Definition config_without_vllm : WorkerConfig :=
  {| serverToolsMode := js "error";
     anthropicBaseUrl := js "https://api.anthropic.com";
     openRouterBaseUrl := js "https://openrouter.ai/api";
     vllmBaseUrl := None;
     sglangBaseUrl := Some (js "http://localhost:30000") |}.

Definition vllm_unconfigured : Dependencies :=
  {| CastariHeaders := unit;
     resolveConfig := fun _ => config_without_vllm;
     errorResponse := spec_errorResponse;
     normalizeCastariHeaders := fun _ => tt;
     readJsonBody := fun _ => Return (request_body "vllm:llama" None);
     getHeader := headers_get;
     resolveProvider := spec_resolveProvider;
     categorizeServerTools := fun _ => [];
     buildOpenRouterRequest :=
       fun _ opts => JObj [(js "model", JStr (opt_wireModel opts))];
     mapOpenRouterResponse := fun parsed _ => parsed;
     streamOpenRouterToAnthropic := fun r _ => r;
     upstream := fun _ => Return upstream_message;
     stringify_request := fun _ => js "{}";
     stringify_entry := fun _ => Ok (js "{}");
     clock := sample_clock;
     ids := sample_ids;
     tee_reads := sample_reads |}.

Definition vllm_routing : Routing :=
  {| rt_body := request_body "vllm:llama" None;
     rt_provider := vllm;
     rt_wireModel := js "llama";
     rt_originalModel := js "vllm:llama";
     rt_apiKey := Some (js "sk-test");
     rt_config := config_without_vllm;
     rt_reasoning := None;
     rt_webSearch := None;
     rt_requestId := js "req_001";
     rt_sessionId := js "sess_001";
     rt_turnIndex := 0;
     rt_clientMeta := None |}.


Definition openrouter_unstreamed : Dependencies :=
  doubles (request_body "or:gpt-5-mini" None) upstream_message.

Definition openrouter_stream_failing : Dependencies :=
  doubles (request_body "or:gpt-5-mini" (Some true)) upstream_failure.

(** The message of [upstream_message]. *)
Definition upstream_message_body : json :=
  obj [("id", str "msg_1"); ("type", str "message");
       ("role", str "assistant"); ("model", str "claude-3");
       ("content", JArr [obj [("type", str "text"); ("text", str "Hi")]]);
       ("stop_reason", str "end_turn")].

End Doubles.

(* ================================================================== *)
(** * Part 8: properties of the runtime model                           *)
(* ================================================================== *)

Module JSFacts.
Import JS Notions.

Lemma str_eqb_eq (a b : jstring) : str_eqb a b = true <-> a = b.
Proof.
  revert b; induction a as [|x a IH]; intros [|y b]; simpl; try easy.
  rewrite andb_true_iff, N.eqb_eq, IH. split.
  - intros [-> ->]; reflexivity.
  - intros [= -> ->]; auto.
Qed.

Lemma str_eqb_refl (a : jstring) : str_eqb a a = true.
Proof. apply str_eqb_eq; reflexivity. Qed.

Lemma str_eqb_neq (a b : jstring) : str_eqb a b = false <-> a <> b.
Proof.
  destruct (str_eqb a b) eqn:E.
  - apply str_eqb_eq in E. split; [discriminate | contradiction].
  - split; [|reflexivity]. intros _ H. apply str_eqb_eq in H. congruence.
Qed.

(** ** Prefixes and occurrences *)

Lemma startsWith_app (s t p : jstring) :
  startsWith s p = true -> startsWith (s ++ t) p = true.
Proof.
  revert s; induction p as [|c p IH]; intros [|d s]; simpl; try easy.
  - destruct t; reflexivity.
  - rewrite !andb_true_iff. intros [-> H]. auto.
Qed.

Lemma startsWith_app_long (s t p : jstring) :
  (length p <= length s)%nat -> startsWith (s ++ t) p = startsWith s p.
Proof.
  revert s; induction p as [|c p IH]; intros [|d s]; simpl; try easy;
    try lia.
  - destruct t; reflexivity.
  - intros H. rewrite IH by lia. reflexivity.
Qed.

Lemma startsWith_length (s p : jstring) :
  startsWith s p = true -> (length p <= length s)%nat.
Proof.
  revert s; induction p as [|c p IH]; intros [|d s]; simpl; try easy;
    try lia.
  rewrite andb_true_iff. intros [_ H]. apply IH in H. lia.
Qed.

Lemma indexOf_bound (p s : jstring) (k : nat) :
  indexOf s p = Some k -> (k + length p <= length s)%nat.
Proof.
  revert k; induction s as [|c s IH]; intros k.
  - destruct p; simpl; [|easy]. intros [= <-]. simpl. lia.
  - cbn [indexOf]. destruct (startsWith (c :: s) p) eqn:E.
    + intros [= <-]. apply startsWith_length in E. simpl in *. lia.
    + destruct (indexOf s p) as [k'|] eqn:Hk; simpl; [|easy].
      intros [= <-]. specialize (IH _ eq_refl). simpl. lia.
Qed.

Lemma indexOf_app (p s t : jstring) (k : nat) :
  indexOf s p = Some k -> indexOf (s ++ t) p = Some k.
Proof.
  revert k; induction s as [|c s IH]; intros k.
  - destruct p; simpl; [|easy]. intros [= <-]. destruct t; reflexivity.
  - cbn [indexOf app].
    change (c :: s ++ t) with ((c :: s) ++ t).
    destruct (startsWith (c :: s) p) eqn:E.
    + intros [= <-]. rewrite startsWith_app by exact E. reflexivity.
    + destruct (indexOf s p) as [k'|] eqn:Hk; [|easy].
      intros [= <-].
      rewrite startsWith_app_long, E.
      * rewrite (IH _ eq_refl). reflexivity.
      * apply indexOf_bound in Hk. simpl. lia.
Qed.

(** ** The fuel of the parser *)



Lemma skip_ws_length (s : jstring) : (length (skip_ws s) <= length s)%nat.
Proof.
  induction s as [|c s IH]; simpl; [lia|].
  destruct (is_json_ws c); simpl; lia.
Qed.

Lemma expect_length (c : N) (s r : jstring) :
  expect c s = Some r -> length s = S (length r).
Proof.
  destruct s as [|d s]; simpl; [discriminate|].
  destruct (d =? c); [intros [= <-]; reflexivity | discriminate].
Qed.

Lemma span_digits_length (s : jstring) :
  (length (snd (span_digits s)) <= length s)%nat.
Proof.
  induction s as [|c s IH]; simpl; [lia|].
  destruct (is_digit c); simpl; [|lia].
  destruct (span_digits s); simpl in *. lia.
Qed.

Lemma span_digits_consumed (s : jstring) :
  fst (span_digits s) <> [] -> (length (snd (span_digits s)) < length s)%nat.
Proof.
  destruct s as [|c s]; simpl; [congruence|].
  destruct (is_digit c); simpl; [|congruence].
  pose proof (span_digits_length s). destruct (span_digits s); simpl in *.
  lia.
Qed.

Lemma parse_string_body_length (s : jstring) :
  forall acc k r,
    parse_string_body s acc = Some (k, r) -> (length r < length s)%nat.
Proof.
  remember (length s) as n eqn:Hn. revert s Hn.
  induction n as [n IH] using lt_wf_ind. intros s Hn acc k r.
  destruct s as [|c s]; simpl; [discriminate|].
  destruct (c =? 34); [intros [= <- <-]; simpl in *; lia|].
  destruct (c =? 92).
  - destruct s as [|e s]; [discriminate|].
    destruct (e =? 117).
    + destruct s as [|h1 [|h2 [|h3 [|h4 s]]]]; try discriminate.
      destruct (hex_value h1), (hex_value h2), (hex_value h3),
        (hex_value h4); try discriminate.
      intros H. apply (IH (length s)) in H; simpl in *; lia.
    + destruct (unescape e); [|discriminate].
      intros H. apply (IH (length s)) in H; simpl in *; lia.
  - destruct (c <? 32); [discriminate|].
    intros H. apply (IH (length s)) in H; simpl in *; lia.
Qed.

Lemma take_minus_length (s : jstring) :
  (length (snd (take_minus s)) <= length s)%nat.
Proof.
  unfold take_minus. destruct (expect 45 s) eqn:E; simpl; [|lia].
  apply expect_length in E. lia.
Qed.

Lemma take_sign_length (s : jstring) :
  (length (snd (take_sign s)) <= length s)%nat.
Proof.
  unfold take_sign.
  destruct (expect 45 s) eqn:E1; simpl.
  - apply expect_length in E1. lia.
  - destruct (expect 43 s) eqn:E2; simpl; [|lia].
    apply expect_length in E2. lia.
Qed.

Lemma parse_fraction_length (s : jstring) (fs : list N) (r : jstring) :
  parse_fraction s = Some (fs, r) -> (length r <= length s)%nat.
Proof.
  unfold parse_fraction. destruct (expect 46 s) as [r0|] eqn:E.
  - apply expect_length in E. pose proof (span_digits_length r0).
    destruct (span_digits r0) as [fs' r']. simpl in *.
    destruct fs'; [discriminate|]. intros [= <- <-]. lia.
  - intros [= <- <-]. lia.
Qed.

Lemma parse_exponent_length (s : jstring) (e : Z) (r : jstring) :
  parse_exponent s = Some (e, r) -> (length r <= length s)%nat.
Proof.
  unfold parse_exponent.
  assert (Hdigits : forall r0 : jstring,
             (length r0 < length s)%nat ->
             (let '(eneg, r1) := take_sign r0 in
              let '(es, r2) := span_digits r1 in
              match es with
              | [] => None
              | _ :: _ =>
                  Some (if eneg then (- Z.of_N (digits_value es))%Z
                        else Z.of_N (digits_value es), r2)
              end) = Some (e, r) -> (length r <= length s)%nat).
  { intros r0 Hr0. pose proof (take_sign_length r0).
    destruct (take_sign r0) as [eneg r1]. simpl in *.
    pose proof (span_digits_length r1).
    destruct (span_digits r1) as [es r2]. simpl in *.
    destruct es; [discriminate|]. intros [= <- <-]. lia. }
  destruct (expect 101 s) as [r0|] eqn:E1.
  - apply expect_length in E1. apply Hdigits. lia.
  - destruct (expect 69 s) as [r0|] eqn:E2.
    + apply expect_length in E2. apply Hdigits. lia.
    + intros [= <- <-]. lia.
Qed.

Lemma parse_number_length (s : jstring) (x : number) (r : jstring) :
  parse_number s = Some (x, r) -> (length r < length s)%nat.
Proof.
  unfold parse_number. pose proof (take_minus_length s) as Hm.
  destruct (take_minus s) as [neg s1]. simpl in Hm.
  pose proof (span_digits_consumed s1) as Hints.
  destruct (span_digits s1) as [ints s2]. simpl in Hints.
  destruct ints as [|d ds]; [discriminate|].
  specialize (Hints ltac:(discriminate)).
  destruct ((d =? 0) && _); [discriminate|].
  destruct (parse_fraction s2) as [[fracs s3]|] eqn:Hf; [|discriminate].
  apply parse_fraction_length in Hf. simpl.
  destruct (parse_exponent s3) as [[e10 s4]|] eqn:He; [|discriminate].
  apply parse_exponent_length in He. simpl. intros [= <- <-]. lia.
Qed.

Lemma parse_elements_length pv (Hpv : consuming pv) (fuel : nat) :
  forall s acc v r,
    parse_elements pv fuel s acc = Some (v, r) -> (length r < length s)%nat.
Proof.
  induction fuel as [|fuel IH]; intros s acc v r; simpl; [discriminate|].
  destruct (pv s) as [[v1 r1]|] eqn:Hp; [|discriminate]. simpl.
  apply Hpv in Hp. pose proof (skip_ws_length r1).
  destruct (expect 44 (skip_ws r1)) as [r'|] eqn:E1.
  - apply expect_length in E1. intros H'. apply IH in H'. lia.
  - destruct (expect 93 (skip_ws r1)) as [r'|] eqn:E2; [|discriminate].
    apply expect_length in E2. intros [= <- <-]. lia.
Qed.

Lemma parse_members_length pv (Hpv : consuming pv) (fuel : nat) :
  forall s acc v r,
    parse_members pv fuel s acc = Some (v, r) -> (length r < length s)%nat.
Proof.
  induction fuel as [|fuel IH]; intros s acc v r; simpl; [discriminate|].
  pose proof (skip_ws_length s).
  destruct (expect 34 (skip_ws s)) as [r0|] eqn:E0; [|discriminate]. simpl.
  apply expect_length in E0.
  destruct (parse_string_body r0 []) as [[k r1]|] eqn:Hk; [|discriminate].
  simpl. apply parse_string_body_length in Hk.
  pose proof (skip_ws_length r1).
  destruct (expect 58 (skip_ws r1)) as [r2|] eqn:E2; [|discriminate]. simpl.
  apply expect_length in E2.
  destruct (pv r2) as [[v3 r3]|] eqn:Hp; [|discriminate]. simpl.
  apply Hpv in Hp. pose proof (skip_ws_length r3).
  destruct (expect 44 (skip_ws r3)) as [r4|] eqn:E4.
  - apply expect_length in E4. intros H'. apply IH in H'. lia.
  - destruct (expect 125 (skip_ws r3)) as [r4|] eqn:E5; [|discriminate].
    apply expect_length in E5. intros [= <- <-]. lia.
Qed.

Lemma parse_value_consuming (fuel : nat) : consuming (parse_value fuel).
Proof.
  induction fuel as [|fuel IH]; intros s v r; cbn [parse_value];
    [discriminate|].
  pose proof (skip_ws_length s) as Hws.
  destruct (skip_ws s) as [|c r0]; [discriminate|]. simpl in Hws.
  pose proof (skip_ws_length r0).
  destruct (c =? 123); cbv beta iota.
  { destruct (expect 125 (skip_ws r0)) as [r'|] eqn:E.
    - apply expect_length in E. intros H'; injection H' as _ <-. lia.
    - intros H'. apply (parse_members_length _ IH) in H'. lia. }
  destruct (c =? 91); cbv beta iota.
  { destruct (expect 93 (skip_ws r0)) as [r'|] eqn:E.
    - apply expect_length in E. intros H'; injection H' as _ <-. lia.
    - intros H'. apply (parse_elements_length _ IH) in H'. lia. }
  destruct (c =? 34); cbv beta iota.
  { destruct (parse_string_body r0 []) as [[k r1]|] eqn:Hk; [|discriminate].
    apply parse_string_body_length in Hk. simpl.
    intros H'; injection H' as _ <-. lia. }
  destruct (startsWith (c :: r0) (js "true")) eqn:Ht; cbv beta iota.
  { intros H'; injection H' as _ <-. apply startsWith_length in Ht.
    rewrite length_drop. simpl in *. lia. }
  destruct (startsWith (c :: r0) (js "false")) eqn:Hf; cbv beta iota.
  { intros H'; injection H' as _ <-. apply startsWith_length in Hf.
    rewrite length_drop. simpl in *. lia. }
  destruct (startsWith (c :: r0) (js "null")) eqn:Hn; cbv beta iota.
  { intros H'; injection H' as _ <-. apply startsWith_length in Hn.
    rewrite length_drop. simpl in *. lia. }
  destruct (parse_number (c :: r0)) as [[x r1]|] eqn:Hx; [|discriminate].
  apply parse_number_length in Hx. simpl in *.
  intros H'; injection H' as _ <-. lia.
Qed.

(** Two parsers of elements that agree on the texts shorter than [bound]
    give the same loops on these texts, whatever the fuel of the loops
    beyond the length of the text. *)
Lemma parse_elements_agree pv1 pv2 (bound : nat)
    (H1 : consuming pv1)
    (Hagree : forall s, (length s < bound)%nat -> pv1 s = pv2 s)
    (Hempty : pv1 [] = None) (fuel1 : nat) :
  forall fuel2 s acc,
    (length s < bound)%nat ->
    (length s <= fuel1)%nat -> (length s <= fuel2)%nat ->
    parse_elements pv1 fuel1 s acc = parse_elements pv2 fuel2 s acc.
Proof.
  induction fuel1 as [|fuel1 IH]; intros fuel2 s acc Hb Hf1 Hf2.
  - destruct s; [|simpl in Hf1; lia].
    destruct fuel2; simpl; [reflexivity|].
    rewrite <- Hagree by exact Hb. rewrite Hempty. reflexivity.
  - destruct fuel2 as [|fuel2].
    + destruct s; [|simpl in Hf2; lia]. simpl. rewrite Hempty. reflexivity.
    + simpl. rewrite <- Hagree by exact Hb.
      destruct (pv1 s) as [[v r]|] eqn:Hp; [|reflexivity]. simpl.
      apply H1 in Hp. pose proof (skip_ws_length r).
      destruct (expect 44 (skip_ws r)) as [r'|] eqn:E; [|reflexivity].
      apply expect_length in E. apply IH; lia.
Qed.

Lemma parse_members_agree pv1 pv2 (bound : nat)
    (H1 : consuming pv1)
    (Hagree : forall s, (length s < bound)%nat -> pv1 s = pv2 s)
    (fuel1 : nat) :
  forall fuel2 s acc,
    (length s < bound)%nat ->
    (length s <= fuel1)%nat -> (length s <= fuel2)%nat ->
    parse_members pv1 fuel1 s acc = parse_members pv2 fuel2 s acc.
Proof.
  assert (Hnil : forall pv fuel acc, parse_members pv fuel [] acc = None).
  { intros pv [|fuel] acc; reflexivity. }
  induction fuel1 as [|fuel1 IH]; intros fuel2 s acc Hb Hf1 Hf2.
  - destruct s; [|simpl in Hf1; lia]. rewrite !Hnil. reflexivity.
  - destruct fuel2 as [|fuel2].
    + destruct s; [|simpl in Hf2; lia]. rewrite !Hnil. reflexivity.
    + simpl. pose proof (skip_ws_length s).
      destruct (expect 34 (skip_ws s)) as [r0|] eqn:E0; [|reflexivity].
      simpl. apply expect_length in E0.
      destruct (parse_string_body r0 []) as [[k r1]|] eqn:Hk; [|reflexivity].
      simpl. apply parse_string_body_length in Hk.
      pose proof (skip_ws_length r1).
      destruct (expect 58 (skip_ws r1)) as [r2|] eqn:E2; [|reflexivity].
      simpl. apply expect_length in E2.
      rewrite <- Hagree by lia.
      destruct (pv1 r2) as [[v3 r3]|] eqn:Hp; [|reflexivity]. simpl.
      apply H1 in Hp. pose proof (skip_ws_length r3).
      destruct (expect 44 (skip_ws r3)) as [r4|] eqn:E4; [|reflexivity].
      apply expect_length in E4. apply IH; lia.
Qed.

Lemma parse_value_empty (fuel : nat) : parse_value fuel [] = None.
Proof. destruct fuel; reflexivity. Qed.

(** Fuel beyond the length of the text changes nothing: the parser never
    gives up for want of fuel. *)
Lemma parse_value_fuel (n : nat) :
  forall m s,
    (length s < n)%nat -> (length s < m)%nat ->
    parse_value n s = parse_value m s.
Proof.
  induction n as [|n IH]; intros [|m] s Hn Hm; try lia.
  cbn [parse_value].
  pose proof (skip_ws_length s) as Hws.
  destruct (skip_ws s) as [|c r0]; [reflexivity|]. simpl in Hws.
  assert (Hagree : forall s', (length s' < length s)%nat ->
                              parse_value n s' = parse_value m s')
    by (intros s' Hs'; apply IH; lia).
  destruct (c =? 123).
  { destruct (expect 125 (skip_ws r0)); [reflexivity|].
    apply (parse_members_agree _ _ (length s)
             (parse_value_consuming n) Hagree); lia. }
  destruct (c =? 91).
  { destruct (expect 93 (skip_ws r0)); [reflexivity|].
    apply (parse_elements_agree _ _ (length s)
             (parse_value_consuming n) Hagree (parse_value_empty n)); lia. }
  reflexivity.
Qed.

Lemma JSON_parse_fuel (fuel : nat) (text : jstring) :
  (length text < fuel)%nat ->
  JSON_parse text
  = '(v, r) ← parse_value fuel text;
    match skip_ws r with
    | [] => Some v
    | _ => None
    end.
Proof.
  intros H. unfold JSON_parse.
  rewrite (parse_value_fuel (S (length text)) fuel) by lia. reflexivity.
Qed.

End JSFacts.

(* ================================================================== *)
(** * Part 9: properties of logger.ts                                   *)
(* ================================================================== *)

Module LoggerProps.
Import JS Logger Samples Notions JSFacts.

(** ** deriveTurnIndex *)

Lemma count_loop (messages : list AnthropicMessage) (count : nat) :
  fold_left
    (fun count msg =>
       if str_eqb (role msg) (js "assistant") then S count else count)
    messages count
  = (count + length (filter is_assistant messages))%nat.
Proof.
  revert count; induction messages as [|msg messages IH]; intros count.
  - simpl. lia.
  - cbn [fold_left]. rewrite IH, filter_cons.
    destruct (str_eqb (role msg) (js "assistant")) eqn:E.
    + apply str_eqb_eq in E. rewrite decide_True by exact E. simpl. lia.
    + apply str_eqb_neq in E. rewrite decide_False by exact E. reflexivity.
Qed.

(** C7.  The turn index of a sequence of messages is the number of its
    messages whose role is [assistant]; it is 0 for the empty sequence and
    for a sequence of user messages. *)
Theorem deriveTurnIndex_counts_assistant :
  (forall messages : list AnthropicMessage,
     deriveTurnIndex messages = length (filter is_assistant messages))
  /\ deriveTurnIndex [] = 0%nat
  /\ (forall contents : list json,
        deriveTurnIndex (List.map user_message contents) = 0%nat).
Proof.
  split; [|split].
  - intros messages. unfold deriveTurnIndex. apply count_loop.
  - reflexivity.
  - intros contents. unfold deriveTurnIndex. rewrite count_loop. simpl.
    induction contents as [|c contents IH]; [reflexivity|].
    cbn [List.map]. rewrite filter_cons, decide_False; [exact IH|].
    unfold is_assistant, user_message; simpl. discriminate.
Qed.

(** The histories of the tests. *)
Example deriveTurnIndex_three_turns :
  deriveTurnIndex
    (List.map (fun r => {| role := js r; content := JStr [] |})
       ["user"; "assistant"; "user"; "assistant"; "user"; "assistant";
        "user"]%string)
  = 3%nat.
Proof. reflexivity. Qed.

(** ** writeLogEntry *)

(** C3.  Whatever the serializer and the bucket do, the promise of
    [writeLogEntry] is not rejected: it is fulfilled, or it stays pending
    with a [put] that never settles.  With a [put] that throws, or whose
    promise is rejected, it is fulfilled. *)
Theorem writeLogEntry_never_rejects :
  forall (stringify : LogEntry -> Outcome jstring) (bucket : R2Bucket)
         (entry : LogEntry),
    is_rejected (writeLogEntry stringify bucket entry) = false
    /\ (writeLogEntry stringify bucket entry = Fulfilled tt
        \/ writeLogEntry stringify bucket entry = Pending)
    /\ (forall e : JsError,
          writeLogEntry stringify {| put := fun _ _ _ => Throw e |} entry
          = Fulfilled tt
          /\ writeLogEntry stringify {| put := fun _ _ _ => Ok (Rejected e) |}
               entry
             = Fulfilled tt).
Proof.
  intros stringify bucket entry. unfold writeLogEntry, try_async, await.
  split; [|split].
  - destruct (stringify entry) as [body|e]; [|reflexivity].
    destruct (put bucket _ _ _) as [[[]|e|]|e]; reflexivity.
  - destruct (stringify entry) as [body|e]; [|left; reflexivity].
    destruct (put bucket _ _ _) as [[[]|e|]|e]; auto.
  - intros e. simpl. destruct (stringify entry); auto.
Qed.

Example buildLogKey_sample :
  buildLogKey sample_entry = js "logs/2026-02-15/sess_001/0_req_001.json".
Proof. vm_compute. reflexivity. Qed.

(** ** The tee *)

Lemma tee_read_all_spec (b : Branch) (fuel : nat) (t : Tee) :
  (tee_left b t < fuel)%nat ->
  tee_read_all fuel b t = tee_queue b t ++ source t.
Proof.
  revert t; induction fuel as [|fuel IH]; intros t Hfuel; [lia|].
  destruct t as [src qc ql]; destruct b; simpl in *.
  - destruct qc as [|c qc]; [destruct src as [|c src]|]; simpl in *;
      try reflexivity; rewrite IH by (simpl; lia); reflexivity.
  - destruct ql as [|c ql]; [destruct src as [|c src]|]; simpl in *;
      try reflexivity; rewrite IH by (simpl; lia); reflexivity.
Qed.

(** Reads on one branch never take a chunk away from the other: what a
    branch has received, what is queued for it and what the source still
    holds always add up to the same chunks. *)
Lemma tee_run_branch (b : Branch) (reads : list Branch) :
  forall t got_client got_log t',
    tee_run reads t = (got_client, got_log, t') ->
    match b with
    | ClientBranch => got_client
    | LogBranch => got_log
    end ++ tee_queue b t' ++ source t'
    = tee_queue b t ++ source t.
Proof.
  induction reads as [|r reads IH]; intros t gc gl t' Hrun.
  - simpl in Hrun. injection Hrun as <- <- <-. destruct b; reflexivity.
  - cbn [tee_run] in Hrun.
    destruct (tee_read r t) as [c t1] eqn:Hread.
    destruct (tee_run reads t1) as [[gc1 gl1] t2] eqn:Hrest.
    specialize (IH _ _ _ _ Hrest).
    destruct t as [src qc ql]; destruct r; simpl in *.
    + destruct qc as [|c0 qc]; [destruct src as [|c0 src]|];
        injection Hread as <- <-; injection Hrun as <- <- <-;
        destruct b; simpl in *; rewrite ?IH; rewrite <- ?app_assoc;
        try reflexivity; congruence.
    + destruct ql as [|c0 ql]; [destruct src as [|c0 src]|];
        injection Hread as <- <-; injection Hrun as <- <- <-;
        destruct b; simpl in *; rewrite ?IH; rewrite <- ?app_assoc;
        try reflexivity; congruence.
Qed.

(** Whatever the order of the reads, each branch delivers the chunks of the
    source. *)
Lemma tee_total_same (b : Branch) (reads : list Branch)
    (stream : ReadableStream) :
  tee_total b reads stream = chunks stream.
Proof.
  unfold tee_total.
  destruct (tee_run reads (tee_start stream)) as [[gc gl] t] eqn:Hrun.
  rewrite tee_read_all_spec by lia.
  apply (tee_run_branch b) in Hrun. destruct b; exact Hrun.
Qed.

Lemma tee_same (reads : list Branch) (stream : ReadableStream) :
  tee reads stream = (stream, stream).
Proof.
  unfold tee, branch_stream. rewrite !tee_total_same.
  destruct stream; reflexivity.
Qed.

Lemma new_Response_of_stream_cases (stream : ReadableStream) (st : N)
    (h : list (jstring * jstring)) :
  new_Response_of_stream stream st h
  = if status_admits_body st
    then Ok {| status := st; headers := h; body := Some stream |}
    else Throw (refusal st).
Proof.
  unfold new_Response_of_stream, status_admits_body, refusal.
  destruct (N.ltb_spec st 200), (N.ltb_spec 599 st), (N.leb_spec 200 st),
    (N.leb_spec st 599); try lia; cbn [orb andb]; try reflexivity.
  destruct (null_body_status st); reflexivity.
Qed.

(** [teeAndCollectStream] on a response with a body. *)
Lemma teeAndCollectStream_body (rid : jstring) (reads : list Branch)
    (response : Response) (stream : ReadableStream) :
  body response = Some stream ->
  teeAndCollectStream rid reads response
  = if status_admits_body (status response)
    then Ok {| clientResponse :=
                 {| status := status response;
                    headers := headers response;
                    body := Some stream |};
               collected := reassembleFromSSE rid stream |}
    else Throw (refusal (status response)).
Proof.
  intros Hbody. unfold teeAndCollectStream. rewrite Hbody, tee_same.
  rewrite new_Response_of_stream_cases.
  destruct (status_admits_body (status response)); reflexivity.
Qed.

(** ** teeAndCollectStream and the reassembler on the streams of the tests *)

(** C1.  The events of the test of a simple text response (a message start
    with the identifier [msg_test] and the model [claude-3], a text block at
    index 0, the text deltas [Hello ] and [world!], the block stop, a
    message delta with the stop reason [end_turn] and the usage 10 and 5, a
    message stop) are reassembled into the response with that identifier,
    one text block [Hello world!], that stop reason and that usage, in
    whatever order the reads on the two branches are served. *)
Theorem reassemble_text_events :
  forall (rid : jstring) (reads : list Branch),
    on_outcome collected
      (teeAndCollectStream rid reads
         (event_stream_response (buildSSEStream text_events)))
    = Ok (Fulfilled
            {| resp_id := str "msg_test";
               resp_type := js "message";
               resp_role := js "assistant";
               resp_model := str "claude-3";
               stop_reason := str "end_turn";
               stop_sequence := JNull;
               resp_content := [Some (ContentText (str "Hello world!"))];
               resp_usage := Some {| input_tokens := Some (num 10);
                                     output_tokens := Some (num 5);
                                     reasoning_tokens := None |} |}).
Proof.
  intros rid reads.
  rewrite (teeAndCollectStream_body rid reads _ (buildSSEStream text_events))
    by reflexivity.
  vm_compute. reflexivity.
Qed.

(** ** The client branch *)



(** The client sees all of a stream that the reassembler stops reading
    after its first chunk. *)
Example tee_total_log_stalls :
  tee_total ClientBranch [LogBranch; ClientBranch; ClientBranch]
    (buildSSEStream text_events)
  = chunks (buildSSEStream text_events).
Proof. vm_compute. reflexivity. Qed.

(** The response of the test with the status 201, and the same response
    with a body that fails after its chunks. *)
Example teeAndCollectStream_created :
  forall (rid : jstring) (e : StreamEnd),
    let response :=
      {| status := 201; headers := [(js "x-test", js "1")];
         body := Some {| chunks := chunks (buildSSEStream text_events);
                         ending := e |} |} in
    on_outcome clientResponse
      (teeAndCollectStream rid [ClientBranch; LogBranch; LogBranch] response)
    = Ok response.
Proof. intros rid [|]; vm_compute; reflexivity. Qed.

(** A response without a body: the same response, and an empty message. *)
Example teeAndCollectStream_no_body :
  forall (rid : jstring) (reads : list Branch),
    teeAndCollectStream rid reads
      {| status := 200; headers := []; body := None |}
    = Ok {| clientResponse := {| status := 200; headers := []; body := None |};
            collected := Fulfilled (emptyResponse rid) |}.
Proof. reflexivity. Qed.

(** ** The events of a message start *)

Lemma run_events_app (a b : list (jstring * json)) (st : Reassembly) :
  run_events (a ++ b) st = st' ← run_events a st; run_events b st'.
Proof.
  revert st; induction a as [|[et d] a IH]; intros st; simpl; [reflexivity|].
  destruct (dispatch et d st) as [st1|e]; simpl; [apply IH | reflexivity].
Qed.

Lemma dispatch_message_start (data i m : json) (st : Reassembly) :
  carries data i m ->
  dispatch (js "message_start") data st = Ok (set_message i m st).
Proof.
  intros (msg & Hmsg & Hid & Hi & Hmodel & Hm).
  unfold dispatch. simpl. unfold on_message_start, get_strict.
  destruct data; try discriminate. simpl in *. rewrite Hmsg. simpl.
  destruct msg; try discriminate. simpl in *.
  rewrite Hid, Hmodel. unfold or_else, nullish.
  destruct i, m; try contradiction; reflexivity.
Qed.

Ltac outcome_cases :=
  repeat match goal with
         | H : Ok _ = Ok _ |- _ => injection H as <-
         | H : Throw _ = Ok _ |- _ => discriminate H
         | H : context [match ?x with _ => _ end] |- _ =>
             destruct x eqn:?; simpl in H
         | H : (_ ≫= _) = Ok _ |- _ => unfold mbind, outcome_bind in H
         end.

(** Only the [message_start] case writes the identifier and the model. *)
Lemma dispatch_other_keeps_message (ev : jstring * json) (st st' : Reassembly) :
  is_message_start ev = false ->
  dispatch (fst ev) (snd ev) st = Ok st' ->
  messageId st' = messageId st /\ model st' = model st.
Proof.
  unfold is_message_start, dispatch. intros ->.
  unfold on_content_block_start, on_content_block_delta, on_message_delta,
    on_message_stop.
  intros H. outcome_cases; simpl; repeat case_match; simpl; auto.
Qed.

Lemma run_events_keeps_message (events : list (jstring * json)) :
  forall st st',
    Forall (fun ev => is_message_start ev = false) events ->
    run_events events st = Ok st' ->
    messageId st' = messageId st /\ model st' = model st.
Proof.
  induction events as [|[et d] events IH]; intros st st' Hall Hrun.
  - injection Hrun as <-. auto.
  - inversion Hall as [|? ? Hev Hrest]; subst. simpl in Hrun.
    destruct (dispatch et d st) as [st1|e] eqn:Hd; [|discriminate].
    simpl in Hrun.
    destruct (dispatch_other_keeps_message (et, d) st st1 Hev Hd) as [H1 H2].
    destruct (IH st1 st' Hrest Hrun) as [H3 H4]. split; congruence.
Qed.

(** The second of two [message_start] events overwrites the identifier and
    the model that the first one set. *)
Lemma first_message_start_overwritten :
  exists r,
    reassembleFromSSE (js "generated") (buildSSEStream two_starts)
    = Fulfilled r
    /\ resp_id r = str "msg_second" /\ resp_model r = str "model-b"
    /\ resp_id r <> str "msg_first" /\ resp_model r <> str "model-a".
Proof.
  eexists. split; [vm_compute; reflexivity|].
  repeat split; try reflexivity; vm_compute; discriminate.
Qed.

Lemma stopped_at_app_ok (a b : list (jstring * json)) :
  forall st st0,
    run_events a st = Ok st0 ->
    stopped_at (a ++ b) st = stopped_at b st0.
Proof.
  induction a as [|[et d] a IH]; intros st st0 Hrun; simpl in *.
  - injection Hrun as <-. reflexivity.
  - destruct (dispatch et d st) as [st1|e]; [|discriminate].
    simpl in Hrun. apply IH, Hrun.
Qed.

(** An event that throws ends the processing: what follows it is not
    processed. *)
Lemma stopped_at_app_throw (a b : list (jstring * json)) :
  forall st e,
    run_events a st = Throw e ->
    stopped_at (a ++ b) st = stopped_at a st.
Proof.
  induction a as [|[et d] a IH]; intros st e Hrun; simpl in *;
    [discriminate|].
  destruct (dispatch et d st) as [st1|e1]; [|reflexivity].
  simpl in Hrun. eapply IH, Hrun.
Qed.

Lemma stopped_at_keeps_message (events : list (jstring * json)) :
  forall st,
    Forall (fun ev => is_message_start ev = false) events ->
    messageId (stopped_at events st) = messageId st
    /\ model (stopped_at events st) = model st.
Proof.
  induction events as [|[et d] events IH]; intros st Hall; simpl; [auto|].
  inversion Hall as [|? ? Hev Hrest]; subst.
  destruct (dispatch et d st) as [st1|e] eqn:Hd; [|auto].
  destruct (dispatch_other_keeps_message (et, d) st st1 Hev Hd) as [H1 H2].
  destruct (IH st1 Hrest) as [H3 H4]. split; congruence.
Qed.

(** A [message_start] event whose data is not [null] never throws: it
    replaces the identifier by the one its message offers, and keeps the
    captured one when the message offers none; and so for the model. *)
Lemma dispatch_message_start_offered (data : json) (st : Reassembly) :
  data <> JNull ->
  exists st',
    dispatch (js "message_start") data st = Ok st'
    /\ messageId st' = default (messageId st) (offered data "id")
    /\ model st' = default (model st) (offered data "model").
Proof.
  intros Hnull. unfold dispatch. simpl.
  unfold on_message_start, get_strict, offered.
  destruct data as [|b|x|s|l|kv]; try contradiction;
    cbn [get mbind outcome_bind];
    try (cbn [truthy]; eexists; split; [reflexivity|auto]).
  destruct (obj_get (js "message") kv) as [msg|];
    [|cbn [truthy]; eexists; split; [reflexivity|auto]].
  destruct (truthy (Some msg)) eqn:Hmsg; [|eexists; split; [reflexivity|auto]].
  eexists; split; [reflexivity|].
  assert (Hget : forall field, get_opt (Some msg) field = get msg field).
  { intros field. destruct msg; reflexivity. }
  cbn [messageId model set_message]. rewrite !Hget.
  unfold or_else, nullish.
  destruct (get msg "id") as [[]|], (get msg "model") as [[]|]; auto.
Qed.

(** An event of the kind [message_start], named by its [event:] field or,
    without one, by the [type] of its data, goes to the first case of the
    [switch]. *)
Lemma dispatch_is_message_start (ev : jstring * json) (st : Reassembly) :
  is_message_start ev = true ->
  dispatch (fst ev) (snd ev) st = on_message_start (snd ev) st.
Proof. unfold is_message_start, dispatch. intros ->. reflexivity. Qed.

(** C4, as the code has it.  The last [message_start] event that is
    processed wins, not the first.  Take a [message_start] event whose
    message carries an identifier and a model that are not null, with no
    [message_start] event after it.  When the events before it are
    processed without an exception, the identifier and the model captured
    when the processing ends are those of that event, whatever earlier
    events had set and whether or not a later event throws; the response,
    which is built unless [blocks.map] is not callable, has that model, and
    that identifier unless it is falsy (the empty string), in which case
    the generated one is used.  When an event before it throws, the
    processing ends there and the event changes nothing.  And any
    [message_start] event whose data is not null is processed without an
    exception: it replaces the captured identifier when its message offers
    one, and leaves it in place only when the message is missing or falsy,
    or its identifier absent or null; and so for the model. *)
Theorem message_start_last_wins :
  forall (before after : list (jstring * json)) (ev : jstring * json)
         (i m : json) (st : Reassembly) (rid : jstring),
    is_message_start ev = true ->
    carries (snd ev) i m ->
    Forall (fun ev' => is_message_start ev' = false) after ->
    let st' := stopped_at (before ++ ev :: after) st in
    match run_events before st with
    | Ok _ =>
        messageId st' = i /\ model st' = m
        /\ match finish rid st' with
           | Ok r =>
               resp_model r = m
               /\ resp_id r = (if truthy (Some i) then i else JStr rid)
           | Throw _ => map_callable (blocks st') = false
           end
    | Throw _ => st' = stopped_at before st
    end
    /\ (forall (ev' : jstring * json) (s : Reassembly),
          is_message_start ev' = true ->
          snd ev' <> JNull ->
          exists s',
            dispatch (fst ev') (snd ev') s = Ok s'
            /\ messageId s' = default (messageId s) (offered (snd ev') "id")
            /\ model s' = default (model s) (offered (snd ev') "model")).
Proof.
  intros before after ev i m st rid Hev Hc Hafter st'. split.
  - destruct (run_events before st) as [st0|e] eqn:Hb.
    + assert (Hst' : st' = stopped_at after (set_message i m st0)).
      { unfold st'. rewrite (stopped_at_app_ok _ _ _ _ Hb).
        pose proof (dispatch_is_message_start ev st0 Hev) as Hd.
        destruct ev as [et d]. cbn [stopped_at]. cbn [fst snd] in Hd, Hc.
        rewrite Hd.
        change (on_message_start d st0)
          with (dispatch (js "message_start") d st0).
        rewrite (dispatch_message_start _ _ _ _ Hc). reflexivity. }
      destruct (stopped_at_keeps_message after (set_message i m st0) Hafter)
        as [Hid Hmodel].
      rewrite <- Hst' in Hid, Hmodel. simpl in Hid, Hmodel.
      split; [exact Hid|]. split; [exact Hmodel|].
      unfold finish, blocks_map.
      destruct (map_callable (blocks st')); [|reflexivity].
      simpl. rewrite Hid, Hmodel. auto.
    + unfold st'. exact (stopped_at_app_throw _ _ _ _ Hb).
  - intros ev' s Hev' Hnull. rewrite (dispatch_is_message_start ev' s Hev').
    exact (dispatch_message_start_offered (snd ev') s Hnull).
Qed.

(** A [message_start] event whose message has neither an identifier nor a
    model leaves the captured ones in place. *)
Lemma message_start_without_id_keeps (data : json) (st : Reassembly) :
  carries_nothing data ->
  exists st', dispatch (js "message_start") data st = Ok st'
              /\ messageId st' = messageId st /\ model st' = model st.
Proof.
  intros (msg & Hmsg & Hid & Hmodel).
  unfold dispatch. simpl. unfold on_message_start, get_strict.
  destruct data; try discriminate. simpl in *. rewrite Hmsg. simpl.
  unfold or_else, nullish in *.
  destruct msg as [|b|x|s|l|kv]; simpl in *;
    try (eexists; split; [reflexivity|auto]);
    try (destruct b; eexists; split; try reflexivity; auto);
    try (destruct (negb (number_is_zero_or_nan x)); eexists; split;
         try reflexivity; auto);
    try (destruct s; eexists; split; try reflexivity; auto).
  destruct (obj_get (js "id") kv) as [[]|], (obj_get (js "model") kv)
    as [[]|]; try discriminate; auto.
Qed.

(** Two [message_start] events and a [message_stop]: the second start
    wins. *)
Lemma message_start_last_wins_witness :
  let ev := (js "message_start", snd (message_start "msg_second" "model-b")) in
  let events := [message_start "msg_first" "model-a"] in
  let before := List.map (fun ev => (js (fst ev), snd ev)) events in
  let after := [(js "message_stop", snd message_stop)] in
  let st' := stopped_at (before ++ ev :: after) initial in
  (is_message_start ev = true
   /\ carries (snd ev) (str "msg_second") (str "model-b")
   /\ Forall (fun ev' => is_message_start ev' = false) after)
  /\ messageId st' = str "msg_second" /\ model st' = str "model-b"
  /\ messageId (stopped_at before initial) = str "msg_first".
Proof.
  intros ev events before after st'.
  assert (He : is_message_start ev = true) by reflexivity.
  assert (Hc : carries (snd ev) (str "msg_second") (str "model-b")).
  { exists (obj [("id", str "msg_second"); ("type", str "message");
                 ("role", str "assistant"); ("model", str "model-b");
                 ("content", JArr [])]%string).
    repeat split; try reflexivity; discriminate. }
  assert (Ha : Forall (fun ev' => is_message_start ev' = false) after).
  { repeat constructor. }
  split; [split; [exact He|split; [exact Hc|exact Ha]]|].
  pose proof (message_start_last_wins before after ev (str "msg_second")
                (str "model-b") initial (js "generated") He Hc Ha) as H.
  cbv zeta in H. destruct H as [H _].
  destruct (run_events before initial) as [st0|e] eqn:E;
    [|vm_compute in E; discriminate E].
  destruct H as (Hid & Hmodel & _).
  split; [exact Hid|]. split; [exact Hmodel|]. vm_compute. reflexivity.
Defined.

(** An event that throws between two [message_start] events: the
    processing ends there, and the first start stays. *)
Example throwing_event_hides_later_start :
  messageId
    (stopped_at
       [(js "message_start", snd (message_start "msg_first" "model-a"));
        (js "content_block_start", JNull);
        (js "message_start", snd (message_start "msg_second" "model-b"))]
       initial)
  = str "msg_first".
Proof. vm_compute. reflexivity. Qed.

(** ** Read failures *)

Lemma read_loop_error_same_state (cs : list (list Byte.byte)) :
  forall st, fst (read_loop cs Errored st) = fst (read_loop cs Closed st).
Proof.
  induction cs as [|c cs IH]; intros st; simpl; [reflexivity|].
  destruct (on_chunk c st) as [st1 [e|]]; [reflexivity | apply IH].
Qed.

(** A read that fails ends the reading like the end of the stream does:
    the response is built from what the chunks before it had given. *)
Lemma read_failure_as_clean_end (rid : jstring) (cs : list (list Byte.byte)) :
  reassembleFromSSE rid (failing_after cs)
  = reassembleFromSSE rid (closed_after cs).
Proof.
  unfold reassembleFromSSE, accumulate; simpl.
  rewrite read_loop_error_same_state. reflexivity.
Qed.

(** The promise is fulfilled as long as [blocks.map] can be called, and
    rejected otherwise, whether a read failed or not. *)
Lemma reassemble_fulfilled_iff_map_callable (rid : jstring)
    (stream : ReadableStream) :
  if map_callable (blocks (accumulate stream))
  then exists r, reassembleFromSSE rid stream = Fulfilled r
  else reassembleFromSSE rid stream = Rejected TypeError.
Proof.
  unfold reassembleFromSSE, finish, blocks_map.
  destruct (map_callable (blocks (accumulate stream))); simpl; eauto.
Qed.

(** C8, at the input where it fails.  The stream delivers a message start
    and the start of a text block whose index is the string [map], then a
    read fails.  The block was stored as the property [map] of the array
    and hides [Array.prototype.map]; the call [blocks.map], which is made
    after the [try] statement, throws, and the promise is rejected. *)
Theorem read_failure_after_map_index_rejects :
  forall rid : jstring,
    reassembleFromSSE rid
      (failing_after (chunks (buildSSEStream map_index_events)))
    = Rejected TypeError.
Proof. intros rid. vm_compute. reflexivity. Qed.

(** A read failure after the events of the text response: the response of
    these events. *)
Example read_failure_after_text_events :
  forall rid : jstring,
    reassembleFromSSE rid (failing_after (chunks (buildSSEStream text_events)))
    = reassembleFromSSE rid (buildSSEStream text_events).
Proof. intros rid. apply read_failure_as_clean_end. Qed.

(** ** Tool inputs *)

Lemma lookup_map {A B} (f : A -> B) (l : list A) (i : nat) :
  List.map f l !! i = f <$> (l !! i).
Proof.
  revert i; induction l as [|x l IH]; intros [|i]; simpl; auto.
Qed.

(** C9.  When the promise is fulfilled, a tool-use accumulator at an index
    gives the tool-use block of the response at that index, with the same
    identifier and name and with [safeParseJson] of its argument buffer as
    input: the empty object for the empty buffer, the parsed value when the
    buffer is JSON, and the buffer itself, as a string, when it is not. *)
Theorem tool_input_parsed_on_completion :
  forall (rid : jstring) (stream : ReadableStream) (r : AnthropicResponse)
         (i : nat) (id name : json) (inputBuffer : jstring),
    reassembleFromSSE rid stream = Fulfilled r ->
    items (blocks (accumulate stream)) !! i
    = Some (Some (ToolUseBlock id name inputBuffer)) ->
    resp_content r !! i
    = Some (Some (ContentToolUse id name (safeParseJson inputBuffer)))
    /\ match inputBuffer with
       | [] => safeParseJson inputBuffer = JObj []
       | _ => match JSON_parse inputBuffer with
              | Some v => safeParseJson inputBuffer = v
              | None => safeParseJson inputBuffer = JStr inputBuffer
              end
       end.
Proof.
  intros rid stream r i id name buf Hres Hblock.
  unfold reassembleFromSSE, finish, blocks_map in Hres.
  destruct (map_callable (blocks (accumulate stream))); [|discriminate].
  simpl in Hres. injection Hres as <-. simpl. split.
  - rewrite lookup_map, Hblock. reflexivity.
  - unfold safeParseJson. destruct buf; [reflexivity|].
    destruct (JSON_parse _); reflexivity.
Qed.

Lemma tool_input_parsed_on_completion_witness :
  let stream := buildSSEStream tool_events in
  let buf := (js "{" ++ quote (js "query") ++ js ":" ++ quote (js "hello")
              ++ js "}")%list in
  let r := {| resp_id := str "msg_tools";
              resp_type := js "message"; resp_role := js "assistant";
              resp_model := str "claude-3"; stop_reason := str "tool_use";
              stop_sequence := JNull;
              resp_content :=
                [Some (ContentText (str "Let me search."));
                 Some (ContentToolUse (str "tool_1") (str "search")
                         (obj [("query", str "hello")]%string))];
              resp_usage := None |} in
  reassembleFromSSE (js "generated") stream = Fulfilled r
  /\ items (blocks (accumulate stream)) !! 1%nat
     = Some (Some (ToolUseBlock (str "tool_1") (str "search") buf))
  /\ resp_content r !! 1%nat
     = Some (Some (ContentToolUse (str "tool_1") (str "search")
                     (safeParseJson buf)))
  /\ safeParseJson buf = obj [("query", str "hello")]%string.
Proof.
  intros stream buf r.
  assert (Hres : reassembleFromSSE (js "generated") stream = Fulfilled r).
  { vm_compute. reflexivity. }
  assert (Hblock : items (blocks (accumulate stream)) !! 1%nat
                   = Some (Some (ToolUseBlock (str "tool_1") (str "search")
                                   buf))).
  { vm_compute. reflexivity. }
  split; [exact Hres|]. split; [exact Hblock|].
  split.
  - exact (proj1 (tool_input_parsed_on_completion (js "generated") stream r 1
                    (str "tool_1") (str "search") buf Hres Hblock)).
  - vm_compute. reflexivity.
Defined.

(** The three cases of [safeParseJson] on buffers. *)
Example safeParseJson_cases :
  safeParseJson [] = JObj []
  /\ safeParseJson (js "{" ++ quote (js "query") ++ js ":"
                     ++ quote (js "hello") ++ js "}")
     = obj [("query", str "hello")]%string
  /\ safeParseJson (js "{" ++ quote (js "query") ++ js ":")
     = JStr (js "{" ++ quote (js "query") ++ js ":").
Proof. repeat split; vm_compute; reflexivity. Qed.

(** ** The reassembler in one pass *)

Ltac handler_cases :=
  repeat match goal with
         | |- context [match ?x with _ => _ end] => destruct x eqn:?; simpl
         end; try reflexivity; try congruence.

Lemma dispatch_input (et : jstring) (data : json) (b : jstring) (d : Decoder)
    (st : Reassembly) :
  dispatch et data (set_input b d st)
  = on_outcome (set_input b d) (dispatch et data st).
Proof.
  unfold dispatch, on_message_start, on_content_block_start,
    on_content_block_delta, on_message_delta, on_message_stop.
  cbn [set_input messageId model stopReason usage blocks buffer decoder].
  unfold mbind, outcome_bind.
  handler_cases.
Qed.

Lemma processRawEvent_input (raw b : jstring) (d : Decoder) (st : Reassembly) :
  processRawEvent raw (set_input b d st)
  = on_outcome (set_input b d) (processRawEvent raw st).
Proof.
  unfold processRawEvent.
  destruct raw as [|c raw]; [reflexivity|].
  destruct (startsWith (c :: raw) (js ":")); [reflexivity|].
  destruct (event_fields (c :: raw)) as [et ds].
  destruct ds as [|c' ds]; [reflexivity|].
  destruct (str_eqb (c' :: ds) (js "[DONE]")); [reflexivity|].
  destruct (JSON_parse (c' :: ds)); [apply dispatch_input | reflexivity].
Qed.

Lemma set_input_same (st : Reassembly) :
  set_input (buffer st) (decoder st) st = st.
Proof. destruct st; reflexivity. Qed.

Lemma processRawEvent_keeps_input (raw : jstring) (st st' : Reassembly) :
  processRawEvent raw st = Ok st' ->
  buffer st' = buffer st /\ decoder st' = decoder st.
Proof.
  intros H. rewrite <- (set_input_same st) in H.
  rewrite processRawEvent_input in H.
  destruct (processRawEvent raw st) as [st1|e]; [|discriminate].
  injection H as <-. split; reflexivity.
Qed.

Lemma core_set_input (b : jstring) (d : Decoder) (st : Reassembly) :
  core (set_input b d st) = core st.
Proof. reflexivity. Qed.

Lemma core_eq_set_input (st st' : Reassembly) :
  core st = core st' -> st' = set_input (buffer st') (decoder st') st.
Proof.
  destruct st, st'; unfold core; simpl. intros [= -> -> -> -> ->]. reflexivity.
Qed.

Lemma run_raw_input (raws : list jstring) (b : jstring) (d : Decoder) :
  forall st,
    run_raw raws (set_input b d st)
    = (set_input b d (fst (run_raw raws st)), snd (run_raw raws st)).
Proof.
  induction raws as [|raw raws IH]; intros st; simpl; [reflexivity|].
  rewrite processRawEvent_input.
  destruct (processRawEvent (trim raw) st) as [st1|e]; simpl;
    [apply IH | reflexivity].
Qed.

Lemma run_raw_core (raws : list jstring) (st st' : Reassembly) :
  core st = core st' ->
  core (fst (run_raw raws st')) = core (fst (run_raw raws st))
  /\ snd (run_raw raws st') = snd (run_raw raws st).
Proof.
  intros H. rewrite (core_eq_set_input st st' H), run_raw_input.
  split; reflexivity.
Qed.

Lemma run_raw_app (a b : list jstring) :
  forall st,
    run_raw (a ++ b) st
    = match run_raw a st with
      | (st', None) => run_raw b st'
      | thrown => thrown
      end.
Proof.
  induction a as [|raw a IH]; intros st; simpl; [reflexivity|].
  destruct (processRawEvent (trim raw) st); [apply IH | reflexivity].
Qed.

(** Fuel beyond the length of the text changes nothing. *)
Lemma segments_fuel (n : nat) :
  forall m text,
    (length text < n)%nat -> (length text < m)%nat ->
    segments n text = segments m text.
Proof.
  induction n as [|n IH]; intros [|m] text Hn Hm; try lia. simpl.
  destruct (indexOf text [LF; LF]) as [k|] eqn:Hk; [|reflexivity].
  apply indexOf_bound in Hk. simpl in Hk.
  rewrite (IH m); [reflexivity| |]; unfold slice_from; rewrite length_drop; lia.
Qed.

Lemma drain_fuel (n : nat) :
  forall m st,
    (length (buffer st) < n)%nat -> (length (buffer st) < m)%nat ->
    drain n st = drain m st.
Proof.
  induction n as [|n IH]; intros [|m] st Hn Hm; try lia. simpl.
  destruct (indexOf (buffer st) [LF; LF]) as [k|] eqn:Hk; [|reflexivity].
  apply indexOf_bound in Hk. simpl in Hk.
  destruct (processRawEvent _ _) as [st2|e] eqn:Hp; [|reflexivity].
  apply processRawEvent_keeps_input in Hp. destruct Hp as [Hb _].
  simpl in Hb.
  apply IH; rewrite Hb; unfold slice_from; rewrite length_drop; lia.
Qed.

Lemma segments_rest (n : nat) :
  forall text,
    (length text < n)%nat ->
    indexOf (snd (segments n text)) [LF; LF] = None.
Proof.
  induction n as [|n IH]; intros text Hn; [lia|]. simpl.
  destruct (indexOf text [LF; LF]) as [k|] eqn:Hk; [|exact Hk].
  apply indexOf_bound in Hk. simpl in Hk.
  specialize (IH (slice_from (k + 2) text)).
  destruct (segments n (slice_from (k + 2) text)) as [raws rest]. simpl in *.
  apply IH. unfold slice_from. rewrite length_drop. lia.
Qed.

Lemma segs_eq (text : jstring) :
  segs text
  = match indexOf text [LF; LF] with
    | None => ([], text)
    | Some k =>
        (slice_to k text :: fst (segs (slice_from (k + 2) text)),
         snd (segs (slice_from (k + 2) text)))
    end.
Proof.
  unfold segs at 1. cbn [segments].
  destruct (indexOf text [LF; LF]) as [k|] eqn:Hk; [|reflexivity].
  apply indexOf_bound in Hk. simpl in Hk.
  unfold segs.
  rewrite (segments_fuel (length text) (S (length (slice_from (k + 2) text))));
    unfold slice_from; rewrite ?length_drop; try lia.
  destruct (segments _ _); reflexivity.
Qed.

Lemma segs_rest (text : jstring) : indexOf (snd (segs text)) [LF; LF] = None.
Proof. apply segments_rest. lia. Qed.

Lemma segs_app (text more : jstring) :
  segs (text ++ more)
  = (fst (segs text) ++ fst (segs (snd (segs text) ++ more)),
     snd (segs (snd (segs text) ++ more))).
Proof.
  remember (length text) as n eqn:Hn. revert text Hn.
  induction n as [n IH] using lt_wf_ind. intros text Hn.
  rewrite (segs_eq text).
  destruct (indexOf text [LF; LF]) as [k|] eqn:Hk.
  - rewrite (segs_eq (text ++ more)), (indexOf_app _ _ more _ Hk).
    apply indexOf_bound in Hk. simpl in Hk.
    unfold slice_from, slice_to.
    rewrite take_app_le, drop_app_le by lia.
    rewrite (IH (length (drop (k + 2) text))); [reflexivity| |reflexivity].
    rewrite length_drop. lia.
  - simpl. destruct (segs (text ++ more)); reflexivity.
Qed.

Lemma drain_segments (n : nat) :
  forall st,
    core (fst (drain n st))
    = core (fst (run_raw (fst (segments n (buffer st))) st))
    /\ snd (drain n st) = snd (run_raw (fst (segments n (buffer st))) st)
    /\ (snd (drain n st) = None ->
        buffer (fst (drain n st)) = snd (segments n (buffer st))
        /\ decoder (fst (drain n st)) = decoder st).
Proof.
  induction n as [|n IH]; intros st; [simpl; auto|].
  cbn [drain segments].
  destruct (indexOf (buffer st) [LF; LF]) as [k|]; [|simpl; auto].
  rewrite processRawEvent_input.
  destruct (segments n (slice_from (k + 2) (buffer st))) as [raws rest] eqn:Hs.
  cbn [fst snd run_raw].
  destruct (processRawEvent (trim (slice_to k (buffer st))) st) as [st2|e];
    cbn [on_outcome].
  - destruct (IH (set_input (slice_from (k + 2) (buffer st)) (decoder st) st2))
      as (Hcore & Hres & Hin).
    cbn [buffer decoder set_input] in Hcore, Hres, Hin.
    rewrite Hs in Hcore, Hres, Hin. cbn [fst snd] in Hcore, Hres, Hin.
    rewrite run_raw_input in Hcore, Hres. cbn [fst snd] in Hcore, Hres.
    rewrite core_set_input in Hcore. auto.
  - cbn [fst snd]. repeat split; try reflexivity. discriminate.
Qed.

Lemma decode_stream_app (a b : list Byte.byte) :
  forall d,
    decode_stream d (a ++ b)
    = (fst (decode_stream (fst (decode_stream d a)) b),
       snd (decode_stream d a)
         ++ snd (decode_stream (fst (decode_stream d a)) b)).
Proof.
  induction a as [|x a IH]; intros d; simpl.
  - destruct (decode_stream d b); reflexivity.
  - destruct (dec_byte d (Byte.to_N x)) as [d1 cps].
    destruct (dec_emit (dec_bom_seen d1) cps) as [seen out].
    rewrite IH.
    destruct (decode_stream (dec_set_bom d1 seen) a) as [d2 out2]. simpl.
    rewrite app_assoc. reflexivity.
Qed.

Lemma read_loop_replay (cs : list (list Byte.byte)) (e : StreamEnd) :
  forall st,
    indexOf (buffer st) [LF; LF] = None ->
    core (fst (read_loop cs e st))
    = core (fst (run_raw
                   (fst (segs (buffer st
                               ++ snd (decode_stream (decoder st)
                                         (concat cs)))))
                   st)).
Proof.
  induction cs as [|c cs IH]; intros st Hclean.
  - simpl. rewrite app_nil_r, segs_eq, Hclean. destruct e; reflexivity.
  - cbn [read_loop concat]. unfold on_chunk.
    rewrite decode_stream_app. cbn [snd].
    destruct (decode_stream (decoder st) c) as [d1 t1]. cbn [fst snd].
    rewrite app_assoc, segs_app. cbn [fst]. rewrite run_raw_app.
    set (st0 := set_input (buffer st ++ t1) d1 st).
    change (buffer st ++ t1) with (buffer st0).
    destruct (drain_segments (S (length (buffer st0))) st0)
      as (Hcore & Hres & Hin).
    fold (segs (buffer st0)) in Hcore, Hres, Hin.
    destruct (run_raw_core (fst (segs (buffer st0))) st st0 eq_refl)
      as [Hc0 Hr0].
    rewrite Hc0 in Hcore. rewrite Hr0 in Hres. clear Hc0 Hr0.
    destruct (drain (S (length (buffer st0))) st0) as [st1 r].
    cbn [fst snd] in Hcore, Hres, Hin.
    destruct (run_raw (fst (segs (buffer st0))) st) as [st' r'].
    cbn [fst snd] in Hcore, Hres. subst r'.
    destruct r as [err|].
    + exact Hcore.
    + destruct (Hin eq_refl) as [Hb Hdec].
      rewrite IH by (rewrite Hb; apply segs_rest).
      rewrite Hb, Hdec.
      apply (run_raw_core _ st' st1). symmetry. exact Hcore.
Qed.

Lemma finish_core (rid : jstring) (st st' : Reassembly) :
  core st = core st' -> finish rid st = finish rid st'.
Proof.
  unfold core, finish. intros [= -> -> -> -> ->]. reflexivity.
Qed.

Lemma accumulate_core (stream : ReadableStream) :
  core (accumulate stream) = core (replay (concat (chunks stream))).
Proof.
  unfold accumulate, replay, events_of, stream_text.
  rewrite (read_loop_replay (chunks stream) (ending stream) initial eq_refl).
  reflexivity.
Qed.

(** The response is the one of the one-pass reassembler on the bytes of
    the stream: it depends neither on how the bytes come in chunks nor on
    the way the stream ends. *)
Lemma reassemble_in_one_pass (rid : jstring) (stream : ReadableStream) :
  reassembleFromSSE rid stream
  = settle (finish rid (replay (concat (chunks stream)))).
Proof.
  unfold reassembleFromSSE. f_equal. apply finish_core, accumulate_core.
Qed.

(** ** Determinism *)



(** A stream without a message start: the identifier is the generated
    one. *)
Example generated_identifier :
  forall rid : jstring,
    reassembleFromSSE rid (buildSSEStream [message_stop])
    = Fulfilled (emptyResponse rid).
Proof. intros rid. vm_compute. reflexivity. Qed.

End LoggerProps.

(* ================================================================== *)
(** * Part 10: properties of index.ts                                   *)
(* ================================================================== *)

Module WorkerProps.
Import JS Logger Worker Samples Notions Doubles JSFacts.

Lemma fetch_routed `{Dependencies} (request : Request) (env : Env)
    (rt : Routing) :
  pathname request = js "/v1/messages" ->
  method request = js "POST" ->
  route request env = Return rt ->
  fetch request env
  = match serve request env rt with
    | Return r => r
    | Raise e => {| reply := errorResponse e; scheduled := [] |}
    end.
Proof.
  intros Hpath Hmethod Hroute. unfold fetch.
  rewrite Hpath, Hmethod, !str_eqb_refl, Hroute. reflexivity.
Qed.

(** A header that is repeated: its values, joined. *)
Example headers_get_repeated :
  headers_get [(js "Accept", js "text/html"); (js "x-api-key", js "k");
               (js "accept", js "text/plain")] (js "ACCEPT")
  = Some (js "text/html, text/plain").
Proof. reflexivity. Qed.

Lemma status_admits_body_checks (st : N) :
  status_admits_body st = true ->
  (st <? 200) || (599 <? st) = false /\ null_body_status st = false.
Proof.
  unfold status_admits_body. rewrite !andb_true_iff, negb_true_iff.
  intros [[H1 H2] H3]. split; [|exact H3].
  apply N.leb_le in H1, H2. apply orb_false_iff. split; apply N.ltb_ge; lia.
Qed.

(** The request to OpenRouter whose upstream answers 500: the client gets
    the response of an invalid-request error, not the upstream response,
    and no log entry is scheduled. *)
Lemma openrouter_error_is_translated :
  scheduled (@fetch failing_openrouter post_messages sample_env) = []
  /\ reply (@fetch failing_openrouter post_messages sample_env)
     = spec_errorResponse
         (InvalidRequest (js "OpenRouter error")
            (status_details 500 (obj [("error", str "boom")]%string)))
  /\ status (reply (@fetch failing_openrouter post_messages sample_env))
     <> status upstream_failure.
Proof.
  repeat split; try (vm_compute; reflexivity). vm_compute. discriminate.
Qed.

Lemma new_Response_cases (text : jstring) (st : N) (h : Headers) :
  new_Response text st h
  = if status_admits_body st
    then Return
           {| status := st;
              headers := match headers_get h (js "content-type") with
                         | Some _ => h
                         | None => h ++ [(js "content-type",
                                          js "text/plain;charset=UTF-8")]
                         end;
              body := Some {| chunks := [utf8_encode text];
                              ending := Closed |} |}
    else Raise (Native (refusal st)).
Proof.
  unfold new_Response, status_admits_body, refusal.
  destruct (N.ltb_spec st 200), (N.ltb_spec 599 st), (N.leb_spec 200 st),
    (N.leb_spec st 599); try lia; cbn [orb andb]; try reflexivity.
  destruct (null_body_status st); reflexivity.
Qed.

(** C5, as the code has it.  A request that does not ask for a stream, and
    an upstream answer that is not a success.  When the body of that answer
    can be read: on the native path, if the status of the upstream is one
    that [new Response] accepts together with a body, the client gets a
    response with that status and the text of the body (a fixed error
    object when that text is empty), and one log entry is scheduled, with
    no response, not streaming, and the error made of the status and of the
    first 1000 characters of the body; for any other status (below 200,
    above 599, or 304) the constructor throws, the client gets the response
    that [errorResponse] makes of that exception, and nothing is logged.
    On the other paths the upstream answer is not passed on: the handler
    throws an invalid-request error that carries the status and the parsed
    body (or the syntax error of a body that is no JSON), the client gets
    the response that [errorResponse] makes of it, and nothing is logged.
    When the body cannot be read, on every path the client gets the
    response that [errorResponse] makes of the failure, and nothing is
    logged. *)
Theorem upstream_error_by_provider :
  forall (D : Dependencies) (request : Request) (env : Env) (rt : Routing)
         (up : Response),
    pathname request = js "/v1/messages" ->
    method request = js "POST" ->
    route request env = Return rt ->
    is_true (req_stream (rt_body rt)) = false ->
    (forall u, upstream u = Return up) ->
    ok up = false ->
    is_configured (rt_provider rt) (rt_config rt) = true ->
    match body_text up with
    | Raise e =>
        fetch request env = {| reply := errorResponse e; scheduled := [] |}
    | Return text =>
        match rt_provider rt with
        | anthropic =>
            if status_admits_body (status up) then
              let resp :=
                {| status := status up;
                   headers :=
                     [(js "content-type", content_type_or_json (headers up))];
                   body :=
                     Some {| chunks := [utf8_encode (native_error_text text)];
                             ending := Closed |} |} in
              let err :=
                {| err_status := status up;
                   err_message :=
                     slice_to 1000
                       (utf8_decode (utf8_encode (native_error_text text))) |} in
              fetch request env
              = {| reply := resp;
                   scheduled := [scheduleLog env rt None false (Some err)] |}
              /\ response (entry (scheduleLog env rt None false (Some err)))
                 = None
              /\ streaming (entry (scheduleLog env rt None false (Some err)))
                 = false
              /\ error (entry (scheduleLog env rt None false (Some err)))
                 = Some err
            else
              fetch request env
              = {| reply := errorResponse (Native (refusal (status up)));
                   scheduled := [] |}
        | p =>
            fetch request env
            = {| reply := errorResponse (translated_error p (status up) text);
                 scheduled := [] |}
        end
    end.
Proof.
  intros D request env rt up Hpath Hmethod Hroute Hstream Hup Hok Hconf.
  rewrite (fetch_routed request env rt Hpath Hmethod Hroute).
  unfold serve, translated_error.
  destruct (body_text up) as [text|e] eqn:Htext;
    destruct (rt_provider rt) eqn:Hp.
  - (* anthropic *)
    unfold proxyAnthropic. rewrite Hup. cbn [mbind result_bind].
    rewrite Hok. cbn [negb]. rewrite Htext. cbn [mbind result_bind].
    rewrite new_Response_cases.
    destruct (status_admits_body (status up)); [|reflexivity].
    cbn [mbind result_bind]. unfold ok in *. cbn [status]. rewrite Hok.
    cbn [negb]. unfold body_text. cbn [body ending chunks concat].
    rewrite app_nil_r. repeat split.
  - (* openrouter *)
    unfold handleOpenRouter. rewrite Hup. simpl. rewrite Hstream.
    unfold body_json. rewrite Htext. simpl.
    destruct (JSON_parse text) as [parsed|]; simpl; [|reflexivity].
    rewrite Hok. reflexivity.
  - (* vllm *)
    unfold is_configured, configured_url in Hconf.
    destruct (vllmBaseUrl (rt_config rt)) as [[|c url]|]; try discriminate.
    unfold handleOpenAICompatible. rewrite Hup. simpl. rewrite Hstream.
    unfold body_json. rewrite Htext. simpl.
    destruct (JSON_parse text) as [parsed|]; simpl; [|reflexivity].
    rewrite Hok. reflexivity.
  - (* sglang *)
    unfold is_configured, configured_url in Hconf.
    destruct (sglangBaseUrl (rt_config rt)) as [[|c url]|]; try discriminate.
    unfold handleOpenAICompatible. rewrite Hup. simpl. rewrite Hstream.
    unfold body_json. rewrite Htext. simpl.
    destruct (JSON_parse text) as [parsed|]; simpl; [|reflexivity].
    rewrite Hok. reflexivity.
  - unfold proxyAnthropic. rewrite Hup. cbn [mbind result_bind].
    rewrite Hok. cbn [negb]. rewrite Htext. reflexivity.
  - unfold handleOpenRouter. rewrite Hup. simpl. rewrite Hstream.
    unfold body_json. rewrite Htext. reflexivity.
  - unfold is_configured, configured_url in Hconf.
    destruct (vllmBaseUrl (rt_config rt)) as [[|c url]|]; try discriminate.
    unfold handleOpenAICompatible. rewrite Hup. simpl. rewrite Hstream.
    unfold body_json. rewrite Htext. reflexivity.
  - unfold is_configured, configured_url in Hconf.
    destruct (sglangBaseUrl (rt_config rt)) as [[|c url]|]; try discriminate.
    unfold handleOpenAICompatible. rewrite Hup. simpl. rewrite Hstream.
    unfold body_json. rewrite Htext. reflexivity.
Qed.

(** The native path with an upstream that answers 500 and an error as
    JSON: that status and that body reach the client, and the entry is the
    error record. *)
Lemma upstream_error_by_provider_witness :
  (pathname post_messages = js "/v1/messages"
   /\ method post_messages = js "POST"
   /\ @route native_failing post_messages sample_env
      = Return (native_routing (Some false))
   /\ is_true (req_stream (rt_body (native_routing (Some false)))) = false
   /\ (forall u, @upstream native_failing u = Return upstream_failure)
   /\ ok upstream_failure = false
   /\ is_configured (rt_provider (native_routing (Some false)))
        (rt_config (native_routing (Some false))) = true)
  /\ body_text upstream_failure = Return upstream_failure_text
  /\ status_admits_body (status upstream_failure) = true
  /\ @fetch native_failing post_messages sample_env
     = {| reply := upstream_failure;
          scheduled :=
            [@scheduleLog native_failing sample_env
               (native_routing (Some false)) None false
               (Some {| err_status := 500;
                        err_message := upstream_failure_text |})] |}.
Proof.
  assert (H1 : pathname post_messages = js "/v1/messages") by reflexivity.
  assert (H2 : method post_messages = js "POST") by reflexivity.
  assert (H3 : @route native_failing post_messages sample_env
               = Return (native_routing (Some false)))
    by (vm_compute; reflexivity).
  assert (H4 : is_true (req_stream (rt_body (native_routing (Some false))))
               = false) by reflexivity.
  assert (H5 : forall u, @upstream native_failing u = Return upstream_failure)
    by (intros u; reflexivity).
  assert (H6 : ok upstream_failure = false) by reflexivity.
  assert (H7 : is_configured (rt_provider (native_routing (Some false)))
                 (rt_config (native_routing (Some false))) = true)
    by reflexivity.
  assert (H8 : body_text upstream_failure = Return upstream_failure_text)
    by (vm_compute; reflexivity).
  assert (H9 : status_admits_body (status upstream_failure) = true)
    by reflexivity.
  split; [repeat split; assumption|].
  split; [exact H8|]. split; [exact H9|].
  pose proof (upstream_error_by_provider native_failing post_messages
                sample_env (native_routing (Some false)) upstream_failure
                H1 H2 H3 H4 H5 H6 H7) as Hthm.
  rewrite H8 in Hthm. cbn [rt_provider native_routing] in Hthm.
  rewrite H9 in Hthm. destruct Hthm as [Hfetch _].
  rewrite Hfetch. vm_compute. reflexivity.
Defined.

(** The native path with an upstream that answers 304, or 600: the
    constructor throws, the client gets the response of that exception,
    and nothing is logged. *)
Example upstream_status_refused (st : N) :
  st = 304 \/ st = 600 ->
  @fetch (doubles (request_body "claude-3" (Some false))
            (json_upstream st (obj [("error", str "boom")]%string)))
    post_messages sample_env
  = {| reply := spec_errorResponse (Native (refusal st)); scheduled := [] |}.
Proof. intros [->| ->]; vm_compute; reflexivity. Qed.

#[local] Arguments body_json : simpl never.
#[local] Arguments JSON_stringify : simpl never.

(** The same request on the other paths, which do parse the body of a
    success and schedule the log with it. *)
Lemma translated_success_logged_from_body `{Dependencies}
    (request : Request) (env : Env) (rt : Routing) (up : Response)
    (parsed cloned : json) :
  let resp :=
    {| status := 200;
       headers := json_response_headers;
       body :=
         Some {| chunks :=
                   [utf8_encode
                      (JSON_stringify
                         (mapOpenRouterResponse parsed
                            (rt_originalModel rt)))];
                 ending := Closed |} |} in
  rt_provider rt <> anthropic ->
  is_configured (rt_provider rt) (rt_config rt) = true ->
  is_true (req_stream (rt_body rt)) = false ->
  (forall u, upstream u = Return up) ->
  ok up = true ->
  body_json up = Return parsed ->
  body_json resp = Return cloned ->
  serve request env rt
  = Return {| reply := resp;
              scheduled :=
                [scheduleLog env rt (Some (ParsedBody cloned)) false None] |}.
Proof.
  intros resp Hp Hconf Hstream Hup Hok Hparsed Hcloned.
  unfold serve, is_configured, configured_url in *.
  destruct (rt_provider rt); [congruence| | |].
  - unfold handleOpenRouter. rewrite Hup. simpl. rewrite Hstream, Hparsed.
    simpl. rewrite Hok. simpl.
    unfold logParsedResponse. fold resp. rewrite Hcloned. reflexivity.
  - destruct (vllmBaseUrl (rt_config rt)) as [[|c url]|]; try discriminate.
    unfold handleOpenAICompatible. rewrite Hup. simpl.
    rewrite Hstream, Hparsed. simpl. rewrite Hok. simpl.
    unfold logParsedResponse. fold resp. rewrite Hcloned. reflexivity.
  - destruct (sglangBaseUrl (rt_config rt)) as [[|c url]|]; try discriminate.
    unfold handleOpenAICompatible. rewrite Hup. simpl.
    rewrite Hstream, Hparsed. simpl. rewrite Hok. simpl.
    unfold logParsedResponse. fold resp. rewrite Hcloned. reflexivity.
Qed.

(** C6, where the code departs from it.  On the native path every
    successful upstream answer goes through [logStreamingResponse], whether
    the request asked for a stream or not: the reply is what that helper
    returns, or the response of what it throws; the body is teed and read
    as an event stream, and a log entry that gets scheduled has the
    streaming flag set and the reassembled response, not the parsed
    body. *)
Theorem native_success_is_logged_as_stream :
  forall (D : Dependencies) (request : Request) (env : Env) (rt : Routing)
         (up : Response),
    pathname request = js "/v1/messages" ->
    method request = js "POST" ->
    route request env = Return rt ->
    rt_provider rt = anthropic ->
    (forall u, upstream u = Return up) ->
    ok up = true ->
    fetch request env
    = match logStreamingResponse env rt up with
      | Return r => r
      | Raise e => {| reply := errorResponse e; scheduled := [] |}
      end
    /\ Forall (fun s => streaming (entry s) = true
                        /\ exists r, response (entry s) = Some (Reassembled r))
         (scheduled (fetch request env)).
Proof.
  intros D request env rt up Hpath Hmethod Hroute Hp Hup Hok.
  rewrite (fetch_routed request env rt Hpath Hmethod Hroute).
  unfold serve. rewrite Hp. unfold proxyAnthropic. rewrite Hup.
  cbn [mbind result_bind]. rewrite Hok. cbn [negb mbind result_bind].
  rewrite Hok. cbn [negb]. split; [reflexivity|].
  unfold logStreamingResponse.
  destruct (teeAndCollectStream _ _ up) as [t|e]; [|constructor].
  cbn [scheduled].
  destruct (collected t) as [assembled|e|]; repeat constructor.
  eexists; reflexivity.
Qed.

(** The request that is not streamed, with an upstream that answers a
    message as JSON: the entry is marked as streaming, and its response is
    what the reassembler makes of a body without events, an empty message
    with a generated identifier. *)
Lemma native_success_is_logged_as_stream_witness :
  (pathname post_messages = js "/v1/messages"
   /\ method post_messages = js "POST"
   /\ @route native_unstreamed post_messages sample_env
      = Return (native_routing (Some false))
   /\ rt_provider (native_routing (Some false)) = anthropic
   /\ (forall u, @upstream native_unstreamed u = Return upstream_message)
   /\ ok upstream_message = true)
  /\ req_stream (rt_body (native_routing (Some false))) = Some false
  /\ @fetch native_unstreamed post_messages sample_env
     = {| reply := upstream_message;
          scheduled :=
            [@scheduleLog native_unstreamed sample_env
               (native_routing (Some false))
               (Some (Reassembled (emptyResponse (js "msg_generated"))))
               true None] |}.
Proof.
  assert (H1 : pathname post_messages = js "/v1/messages") by reflexivity.
  assert (H2 : method post_messages = js "POST") by reflexivity.
  assert (H3 : @route native_unstreamed post_messages sample_env
               = Return (native_routing (Some false)))
    by (vm_compute; reflexivity).
  assert (H4 : rt_provider (native_routing (Some false)) = anthropic)
    by reflexivity.
  assert (H5 : forall u, @upstream native_unstreamed u
                         = Return upstream_message)
    by (intros u; reflexivity).
  assert (H6 : ok upstream_message = true) by reflexivity.
  split; [repeat split; assumption|]. split; [reflexivity|].
  destruct (native_success_is_logged_as_stream native_unstreamed post_messages
              sample_env (native_routing (Some false)) upstream_message
              H1 H2 H3 H4 H5 H6) as [Hfetch _].
  rewrite Hfetch. vm_compute. reflexivity.
Defined.

End WorkerProps.

(* ================================================================== *)
(** * Part 11: more of the runtime model                                *)
(* ================================================================== *)

Module RuntimeProps.
Import JS Logger Samples Notions JSFacts.

Lemma startsWith_nil (s : jstring) : startsWith s [] = true.
Proof. destruct s; reflexivity. Qed.

(** ** The decimal form of a Number *)

Lemma uint_digits_chars (u : Decimal.uint) :
  Forall (fun c => number_char c = true) (uint_digits u).
Proof. induction u; simpl; constructor; auto. Qed.

Lemma zeros_chars (n : Z) : Forall (fun c => number_char c = true) (zeros n).
Proof. unfold zeros. induction (Z.to_nat n); simpl; constructor; auto. Qed.

Lemma format_number_chars (s : N) (p : Z) :
  Forall (fun c => number_char c = true) (format_number s p).
Proof.
  unfold format_number, N_digits.
  pose proof (uint_digits_chars (N.to_uint s)) as Hds.
  set (ds := uint_digits (N.to_uint s)) in *. clearbody ds.
  assert (Hhead : forall d rest, ds = d :: rest -> number_char d = true)
    by (intros d rest ->; inversion Hds; assumption).
  assert (Htail : forall d rest, ds = d :: rest ->
            Forall (fun c => number_char c = true) rest)
    by (intros d rest ->; inversion Hds; assumption).
  destruct ds as [|d [|d' rest]];
    repeat case_match;
    repeat first
      [ apply uint_digits_chars | apply zeros_chars
      | apply Forall_take; exact Hds | apply Forall_drop; exact Hds
      | exact Hds
      | apply Forall_nil_2
      | apply Forall_app_2
      | apply Forall_cons_2; [reflexivity|]
      | apply Forall_cons_2; [eapply Hhead; reflexivity|]
      | eapply Htail; reflexivity ].
Qed.

(** Number::toString writes digits, a sign, a point, an exponent mark, or
    one of the words [Infinity] and [NaN]. *)
Lemma Number_toString_chars (x : number) :
  Forall (fun c => number_char c = true) (Number_toString x).
Proof.
  destruct x as [s|[|]| |s m e]; cbn [Number_toString];
    try (repeat constructor; fail).
  destruct (shortest 17 m e 1) as [d p].
  apply Forall_app_2; [destruct s; repeat constructor|].
  apply format_number_chars.
Qed.

(** So it never writes a word with another character in it. *)
Lemma Number_toString_avoids (x : number) (key : jstring) :
  forallb number_char key = false -> Number_toString x <> key.
Proof.
  intros H E. pose proof (Number_toString_chars x) as Hc. rewrite E in Hc.
  assert (forallb number_char key = true); [|congruence].
  apply forallb_forall. intros c Hin.
  exact (proj1 (List.Forall_forall _ _) Hc c Hin).
Qed.

(** ** Array indices *)











(** ** Strings through JSON.stringify and JSON.parse *)

Lemma hex_value_digit (n : N) : n < 16 -> hex_value (hex_digit n) = Some n.
Proof.
  intros Hn. unfold hex_digit, hex_value, is_digit.
  destruct (n <? 10) eqn:E.
  - apply N.ltb_lt in E.
    replace ((48 <=? 48 + n) && (48 + n <=? 57)) with true
      by (symmetry; apply andb_true_iff; split; apply N.leb_le; lia).
    f_equal. lia.
  - apply N.ltb_ge in E.
    replace ((48 <=? 87 + n) && (87 + n <=? 57)) with false
      by (symmetry; apply andb_false_iff; right; apply N.leb_gt; lia).
    replace ((97 <=? 87 + n) && (87 + n <=? 102)) with true
      by (symmetry; apply andb_true_iff; split; apply N.leb_le; lia).
    f_equal. lia.
Qed.

Lemma hex4_value (c : N) :
  c < 65536 ->
  ((N.shiftr c 12 mod 16 * 16 + N.shiftr c 8 mod 16) * 16
   + N.shiftr c 4 mod 16) * 16 + c mod 16 = c.
Proof.
  intros Hc. rewrite !N.shiftr_div_pow2.
  change (2 ^ 12) with (16 * 16 * 16). change (2 ^ 8) with (16 * 16).
  change (2 ^ 4) with 16.
  rewrite <- !N.Div0.div_div.
  pose proof (N.div_mod c 16 ltac:(lia)) as H0.
  pose proof (N.div_mod (c / 16) 16 ltac:(lia)) as H1.
  pose proof (N.div_mod (c / 16 / 16) 16 ltac:(lia)) as H2.
  pose proof (N.div_mod (c / 16 / 16 / 16) 16 ltac:(lia)) as H3.
  assert (H4 : c / 16 / 16 / 16 / 16 = 0).
  { rewrite !N.Div0.div_div. apply N.div_small. exact Hc. }
  rewrite H4 in H3.
  generalize dependent (c / 16 / 16 / 16 mod 16).
  generalize dependent (c / 16 / 16 mod 16).
  generalize dependent (c / 16 mod 16).
  generalize dependent (c mod 16).
  generalize dependent (c / 16 / 16 / 16).
  generalize dependent (c / 16 / 16).
  generalize dependent (c / 16).
  intros. lia.
Qed.

(** The escape of a code unit by its four hexadecimal digits reads back as
    the code unit. *)
Lemma parse_escaped_unit (c : N) (rest acc : jstring) :
  c < 65536 ->
  parse_string_body (js "\u" ++ hex4 c ++ rest) acc
  = parse_string_body rest (c :: acc).
Proof.
  intros Hc. unfold hex4. cbn [app js List.map list_ascii_of_string].
  change (N_of_ascii "\"%char) with 92. change (N_of_ascii "u"%char) with 117.
  cbn [parse_string_body]. change (92 =? 34) with false.
  change (92 =? 92) with true. change (117 =? 117) with true. cbv iota.
  rewrite !hex_value_digit by (apply N.mod_lt; lia).
  rewrite hex4_value by exact Hc. reflexivity.
Qed.

Lemma parse_plain_unit (c : N) (rest acc : jstring) :
  c <> 34 -> c <> 92 -> 32 <= c ->
  parse_string_body (c :: rest) acc = parse_string_body rest (c :: acc).
Proof.
  intros H1 H2 H3. cbn [parse_string_body].
  rewrite (proj2 (N.eqb_neq c 34) H1), (proj2 (N.eqb_neq c 92) H2).
  rewrite (proj2 (N.ltb_ge c 32) H3). reflexivity.
Qed.

Lemma parse_short_escape (e u : N) (rest acc : jstring) :
  e <> 117 -> unescape e = Some u ->
  parse_string_body (92 :: e :: rest) acc = parse_string_body rest (u :: acc).
Proof.
  intros H1 H2. cbn [parse_string_body].
  change (92 =? 34) with false. change (92 =? 92) with true. cbv iota.
  rewrite (proj2 (N.eqb_neq e 117) H1), H2. reflexivity.
Qed.

Ltac short_escape e u :=
  cbn [js List.map list_ascii_of_string app];
  change (N_of_ascii "\"%char) with 92;
  rewrite (parse_short_escape e u) by (reflexivity || discriminate).

(** What QuoteJSONString writes for a string, the parser of string
    literals reads back as that string, up to the closing quotation mark. *)
Lemma parse_quoted_chars (n : nat) :
  forall (s rest acc : jstring),
    (length s <= n)%nat ->
    parse_string_body (quote_chars s ++ 34 :: rest) acc
    = Some (rev acc ++ s, rest).
Proof.
  induction n as [|n IH]; intros [|c s] rest acc Hlen; simpl in Hlen;
    try lia; try (cbn; rewrite app_nil_r; reflexivity).
  assert (Hstep : forall s' r' a',
            (length s' <= n)%nat ->
            parse_string_body (quote_chars s' ++ 34 :: r') (c :: a')
            = Some (rev a' ++ c :: s', r')).
  { intros s' r' a' H'. rewrite IH by exact H'. cbn [rev].
    rewrite <- app_assoc. reflexivity. }
  cbn [quote_chars].
  destruct (c =? 34) eqn:E34.
  { apply N.eqb_eq in E34. subst c. rewrite <- !app_assoc.
    short_escape 34 34. apply Hstep. lia. }
  destruct (c =? 92) eqn:E92.
  { apply N.eqb_eq in E92. subst c. short_escape 92 92. apply Hstep. lia. }
  apply N.eqb_neq in E34, E92.
  destruct (c =? 8) eqn:E8.
  { apply N.eqb_eq in E8. subst c.
    change (js "\b") with [92; 98]. short_escape 98 8. apply Hstep. lia. }
  destruct (c =? 9) eqn:E9.
  { apply N.eqb_eq in E9. subst c.
    change (js "\t") with [92; 116]. short_escape 116 9. apply Hstep. lia. }
  destruct (c =? 10) eqn:E10.
  { apply N.eqb_eq in E10. subst c.
    change (js "\n") with [92; 110]. short_escape 110 10. apply Hstep. lia. }
  destruct (c =? 12) eqn:E12.
  { apply N.eqb_eq in E12. subst c.
    change (js "\f") with [92; 102]. short_escape 102 12. apply Hstep. lia. }
  destruct (c =? 13) eqn:E13.
  { apply N.eqb_eq in E13. subst c.
    change (js "\r") with [92; 114]. short_escape 114 13. apply Hstep. lia. }
  destruct (c <? 32) eqn:E32.
  { apply N.ltb_lt in E32. rewrite <- !app_assoc.
    rewrite parse_escaped_unit by lia. apply Hstep. lia. }
  apply N.ltb_ge in E32.
  unfold is_high_surrogate, is_low_surrogate.
  destruct ((55296 <=? c) && (c <=? 56319)) eqn:Ehigh.
  { apply andb_true_iff in Ehigh as [Hlo Hhi]. apply N.leb_le in Hlo, Hhi.
    destruct s as [|d s].
    - rewrite <- !app_assoc. rewrite parse_escaped_unit by lia.
      apply (Hstep [] rest acc). simpl. lia.
    - destruct ((56320 <=? d) && (d <=? 57343)) eqn:Elow.
      + apply andb_true_iff in Elow as [Hlo' Hhi'].
        apply N.leb_le in Hlo', Hhi'.
        cbn [app]. rewrite !parse_plain_unit by lia.
        destruct n as [|n']; [simpl in Hlen; lia|].
        rewrite IH by (simpl in *; lia).
        cbn [rev]. rewrite <- !app_assoc. reflexivity.
      + rewrite <- !app_assoc. rewrite parse_escaped_unit by lia.
        apply Hstep. simpl in *. lia. }
  destruct ((56320 <=? c) && (c <=? 57343)) eqn:Elow.
  { apply andb_true_iff in Elow as [Hlo Hhi]. apply N.leb_le in Hlo, Hhi.
    rewrite <- !app_assoc. rewrite parse_escaped_unit by lia.
    apply Hstep. lia. }
  cbn [app]. rewrite parse_plain_unit by lia. apply Hstep. lia.
Qed.

Lemma parse_value_string (fuel : nat) (r : jstring) :
  parse_value (S fuel) (34 :: r)
  = ('(str, r') ← parse_string_body r []; Some (JStr str, r')).
Proof. reflexivity. Qed.

(** X12.  A string survives [JSON.stringify] followed by [JSON.parse],
    whatever code units it holds (quotation marks, reverse solidi, control
    characters, surrogates with or without a partner); so [safeParseJson]
    gives back the string whose JSON text it is given. *)
Theorem string_survives_stringify_and_parse :
  forall s : jstring,
    JSON_parse (JSON_stringify (JStr s)) = Some (JStr s)
    /\ safeParseJson (JSON_stringify (JStr s)) = JStr s.
Proof.
  intros s.
  assert (H : JSON_parse (JSON_stringify (JStr s)) = Some (JStr s)).
  { unfold JSON_parse. cbn [JSON_stringify]. unfold quote. cbn [app].
    rewrite parse_value_string.
    rewrite (parse_quoted_chars (length s) s [] []) by lia. reflexivity. }
  split; [exact H|].
  unfold safeParseJson. rewrite H.
  cbn [JSON_stringify]. unfold quote. reflexivity.
Qed.

End RuntimeProps.

(* ================================================================== *)
(** * Part 12: more properties of logger.ts                             *)
(* ================================================================== *)

Module ReassemblyProps.
Import JS Logger Samples Notions Doubles JSFacts LoggerProps RuntimeProps.

(** ** deriveTurnIndex and buildLogKey *)

(** X1.  The turn index of a history in two parts is the sum of the turn
    indices of the parts: a request that appends messages to the history
    of an earlier one adds the assistant messages among them. *)
Theorem deriveTurnIndex_app :
  forall a b : list AnthropicMessage,
    deriveTurnIndex (a ++ b)
    = (deriveTurnIndex a + deriveTurnIndex b)%nat.
Proof.
  intros a b. unfold deriveTurnIndex.
  rewrite fold_left_app, !count_loop. lia.
Qed.

Lemma cut_at_first (c : N) (a b x y : jstring) :
  ~ In c a -> ~ In c b -> a ++ c :: x = b ++ c :: y -> a = b /\ x = y.
Proof.
  revert b. induction a as [|d a IH]; intros [|e b] Ha Hb H; simpl in *.
  - injection H as ->. auto.
  - injection H as -> _. tauto.
  - injection H as -> _. tauto.
  - injection H as -> H.
    destruct (IH b) as [-> ->]; auto.
Qed.

Lemma nat_to_string_chars (n : nat) (c : N) :
  number_char c = false -> ~ In c (nat_to_string n).
Proof.
  intros Hc Hin. unfold nat_to_string in Hin.
  pose proof (Number_toString_chars (number_of_N (N.of_nat n))) as H.
  pose proof (proj1 (List.Forall_forall _ _) H c Hin). congruence.
Qed.

Lemma app_same_length {A} (a b x y : list A) :
  length a = length b -> a ++ x = b ++ y -> a = b /\ x = y.
Proof.
  revert b. induction a as [|d a IH]; intros [|e b] Hl H; simpl in *;
    try discriminate; [auto|].
  injection H as -> H. injection Hl as Hl.
  destruct (IH b Hl H) as [-> ->]. auto.
Qed.

(** X2.  The key of a log entry tells its parts apart.  For entries whose
    timestamps have the ten characters of a date and whose session
    identifiers hold no solidus, equal keys mean the same date, the same
    session, the same turn index as written in the key, and the same
    request identifier. *)
Theorem buildLogKey_injective :
  forall e1 e2 : LogEntry,
    (10 <= length (timestamp e1))%nat ->
    (10 <= length (timestamp e2))%nat ->
    ~ In 47 (sessionId e1) ->
    ~ In 47 (sessionId e2) ->
    buildLogKey e1 = buildLogKey e2 ->
    slice_to 10 (timestamp e1) = slice_to 10 (timestamp e2)
    /\ sessionId e1 = sessionId e2
    /\ nat_to_string (turnIndex e1) = nat_to_string (turnIndex e2)
    /\ requestId e1 = requestId e2.
Proof.
  intros e1 e2 Ht1 Ht2 Hs1 Hs2. unfold buildLogKey. cbv zeta.
  intros H. apply app_inv_head in H.
  apply app_same_length in H as [Hdate H];
    [|unfold slice_to; rewrite !length_take; lia].
  apply app_inv_head in H.
  change (js "/" ++ ?r) with (47 :: r) in H.
  apply cut_at_first in H as [Hsess H]; [|assumption..].
  change (js "_" ++ ?r) with (95 :: r) in H.
  apply cut_at_first in H as [Hturn H];
    [|apply nat_to_string_chars; reflexivity..].
  apply app_inv_tail in H. auto.
Qed.

(** Two entries of one request, written at different times of a day, with
    different providers: one key. *)
Lemma buildLogKey_injective_witness :
  ((10 <= length (timestamp sample_entry))%nat
   /\ (10 <= length (timestamp later_entry))%nat
   /\ ~ In 47 (sessionId sample_entry)
   /\ ~ In 47 (sessionId later_entry)
   /\ buildLogKey sample_entry = buildLogKey later_entry)
  /\ slice_to 10 (timestamp sample_entry) = slice_to 10 (timestamp later_entry)
  /\ sessionId sample_entry = sessionId later_entry
  /\ nat_to_string (turnIndex sample_entry)
     = nat_to_string (turnIndex later_entry)
  /\ requestId sample_entry = requestId later_entry.
Proof.
  assert (H1 : (10 <= length (timestamp sample_entry))%nat)
    by (vm_compute; lia).
  assert (H2 : (10 <= length (timestamp later_entry))%nat)
    by (vm_compute; lia).
  assert (H3 : ~ In 47 (sessionId sample_entry))
    by (vm_compute; intuition discriminate).
  assert (H4 : ~ In 47 (sessionId later_entry))
    by (vm_compute; intuition discriminate).
  assert (H5 : buildLogKey sample_entry = buildLogKey later_entry)
    by (vm_compute; reflexivity).
  split; [repeat split; assumption|].
  exact (buildLogKey_injective sample_entry later_entry H1 H2 H3 H4 H5).
Defined.

(** ** Framed events *)

Lemma startsWith_blank_line (c : N) (r more : jstring) :
  startsWith (c :: r ++ [LF]) [LF; LF]
  = startsWith (c :: r ++ LF :: LF :: more) [LF; LF].
Proof.
  destruct r; cbn [startsWith app]; rewrite ?startsWith_nil; reflexivity.
Qed.

Lemma indexOf_terminated (raw more : jstring) :
  terminable raw ->
  indexOf (raw ++ LF :: LF :: more) [LF; LF] = Some (length raw).
Proof.
  unfold terminable. induction raw as [|c r IH]; intros H.
  - cbn [app indexOf startsWith]. rewrite startsWith_nil. reflexivity.
  - cbn [app indexOf] in *. rewrite <- startsWith_blank_line.
    destruct (startsWith (c :: r ++ [LF]) [LF; LF]); [discriminate|].
    destruct (indexOf (r ++ [LF]) [LF; LF]) eqn:E; [discriminate|].
    rewrite IH by reflexivity. reflexivity.
Qed.

Lemma drop_after_blank_line (raw more : jstring) :
  drop (length raw + 2) (raw ++ LF :: LF :: more) = more.
Proof. induction raw as [|c r IH]; [reflexivity | exact IH]. Qed.

(** Cutting a framed text gives back the events that were framed. *)
Lemma segs_frame (raws : list jstring) (tail : jstring) :
  Forall terminable raws ->
  segs (frame raws ++ tail) = (raws ++ fst (segs tail), snd (segs tail)).
Proof.
  induction 1 as [|raw raws Hraw _ IH]; simpl.
  - destruct (segs tail); reflexivity.
  - unfold frame in *. cbn [List.map concat].
    rewrite segs_eq, <- !app_assoc. cbn [app].
    rewrite indexOf_terminated by exact Hraw.
    unfold slice_to, slice_from.
    rewrite take_app_length, drop_after_blank_line, IH. reflexivity.
Qed.

Lemma events_of_frame (raws : list jstring) (tail : jstring) :
  Forall terminable raws ->
  indexOf tail [LF; LF] = None ->
  events_of (frame raws ++ tail) = raws.
Proof.
  intros Hr Ht. unfold events_of. rewrite segs_frame by exact Hr.
  rewrite (segs_eq tail), Ht. simpl. apply app_nil_r.
Qed.

Lemma reassemble_framed (rid : jstring) (stream : ReadableStream)
    (raws : list jstring) (tail : jstring) :
  text_of stream = frame raws ++ tail ->
  Forall terminable raws ->
  indexOf tail [LF; LF] = None ->
  reassembleFromSSE rid stream
  = settle (finish rid (fst (run_raw raws initial))).
Proof.
  intros Htext Hr Ht.
  rewrite reassemble_in_one_pass. unfold replay.
  fold (text_of stream). rewrite Htext, events_of_frame by assumption.
  reflexivity.
Qed.

(** X3.  A stream whose text is a sequence of events, each ended by a
    blank line, and then a rest without a blank line: the response is the
    one of these events, processed once each and in order, until one
    throws.  The rest is never processed, not even when the stream ends
    there: an event that lacks its blank line is lost.  Neither the chunks
    nor the way the stream ends matter. *)
Theorem framed_events_processed_in_order :
  forall (rid : jstring) (stream : ReadableStream) (raws : list jstring)
         (tail : jstring),
    text_of stream = frame raws ++ tail ->
    Forall terminable raws ->
    indexOf tail [LF; LF] = None ->
    reassembleFromSSE rid stream
    = settle (finish rid (fst (run_raw raws initial))).
Proof.
  intros rid stream raws tail Htext Hr Ht.
  rewrite reassemble_in_one_pass. unfold replay.
  fold (text_of stream). rewrite Htext.
  unfold events_of. rewrite segs_frame by exact Hr.
  rewrite (segs_eq tail), Ht. cbn [fst]. rewrite app_nil_r. reflexivity.
Qed.

(** The events of the text response in one chunk, followed by the start of
    another event, and then a failed read: the response of the events of
    the text response. *)
Lemma framed_events_processed_in_order_witness :
  (text_of (failing_text (frame (List.map raw_event text_events)
                          ++ js "event: message_st"))
   = frame (List.map raw_event text_events) ++ js "event: message_st"
   /\ Forall terminable (List.map raw_event text_events)
   /\ indexOf (js "event: message_st") [LF; LF] = None)
  /\ reassembleFromSSE (js "msg_generated")
       (failing_text (frame (List.map raw_event text_events)
                      ++ js "event: message_st"))
     = reassembleFromSSE (js "msg_generated") (buildSSEStream text_events).
Proof.
  assert (H1 : text_of (failing_text (frame (List.map raw_event text_events)
                                      ++ js "event: message_st"))
               = frame (List.map raw_event text_events)
                 ++ js "event: message_st")
    by (vm_compute; reflexivity).
  assert (H2 : Forall terminable (List.map raw_event text_events))
    by (repeat constructor; vm_compute; reflexivity).
  assert (H3 : indexOf (js "event: message_st") [LF; LF] = None)
    by (vm_compute; reflexivity).
  split; [repeat split; assumption|].
  rewrite (framed_events_processed_in_order (js "msg_generated") _ _ _
             H1 H2 H3).
  vm_compute. reflexivity.
Defined.

(** X24.  A stream whose text holds no blank line, that is no two line
    feeds in a row, gives the empty message, the response of a response
    without a body; so does a stream whose lines all end with a carriage
    return and a line feed. *)
Theorem stream_without_blank_line_is_empty :
  forall (rid : jstring) (stream : ReadableStream),
    indexOf (text_of stream) [LF; LF] = None ->
    reassembleFromSSE rid stream = Fulfilled (emptyResponse rid).
Proof.
  intros rid stream H.
  rewrite (reassemble_framed rid stream [] (text_of stream));
    [reflexivity | reflexivity | constructor | exact H].
Qed.

(** A [message_start] event and a [message_stop] event, with the line ends
    of a carriage return and a line feed. *)
Lemma stream_without_blank_line_is_empty_witness :
  indexOf (text_of crlf_stream) [LF; LF] = None
  /\ reassembleFromSSE (js "msg_generated") crlf_stream
     = Fulfilled (emptyResponse (js "msg_generated")).
Proof.
  assert (H : indexOf (text_of crlf_stream) [LF; LF] = None)
    by (vm_compute; reflexivity).
  split; [exact H|].
  exact (stream_without_blank_line_is_empty (js "msg_generated") crlf_stream
           H).
Defined.

(** ** Events that are passed over *)

Lemma passed_over_spec (raw : jstring) (st : Reassembly) :
  passed_over raw = true -> processRawEvent (trim raw) st = Ok st.
Proof.
  unfold passed_over, processRawEvent.
  destruct (trim raw) as [|c t]; [reflexivity|].
  destruct (startsWith (c :: t) (js ":")); [reflexivity|]. cbn [orb].
  destruct (event_fields (c :: t)) as [eventType dataStr].
  destruct dataStr as [|c' d]; [reflexivity|].
  destruct (str_eqb (c' :: d) (js "[DONE]")); [reflexivity|]. cbn [orb].
  destruct (JSON_parse (c' :: d)) as [data|]; [|reflexivity].
  unfold dispatch. cbv zeta.
  rewrite negb_true_iff, !orb_false_iff. intros [[[[-> ->] ->] ->] ->].
  destruct (is_str _ "content_block_stop"); reflexivity.
Qed.

Lemma run_raw_passed_over (a b : list jstring) (raw : jstring) :
  passed_over raw = true ->
  forall st, run_raw (a ++ raw :: b) st = run_raw (a ++ b) st.
Proof.
  intros H st. rewrite !run_raw_app.
  destruct (run_raw a st) as [st' [e|]]; [reflexivity|].
  cbn [run_raw]. rewrite passed_over_spec by exact H. reflexivity.
Qed.

(** X4.  Comments, empty events, events without data or with the data
    [[DONE]], events whose data is no JSON, events of a kind that the
    reassembler has no case for, and [content_block_stop] events change
    nothing: a stream with such an event among its events gives the
    response of the stream without it. *)
Theorem passed_over_events_are_invisible :
  forall (rid : jstring) (s s' : ReadableStream) (a b : list jstring)
         (raw tail tail' : jstring),
    text_of s = frame (a ++ raw :: b) ++ tail ->
    text_of s' = frame (a ++ b) ++ tail' ->
    Forall terminable (a ++ raw :: b) ->
    indexOf tail [LF; LF] = None ->
    indexOf tail' [LF; LF] = None ->
    passed_over raw = true ->
    reassembleFromSSE rid s = reassembleFromSSE rid s'.
Proof.
  intros rid s s' a b raw tail tail' Hs Hs' Hr Ht Ht' Hraw.
  rewrite (reassemble_framed rid s _ _ Hs Hr Ht).
  rewrite (reassemble_framed rid s' _ _ Hs').
  - rewrite run_raw_passed_over by exact Hraw. reflexivity.
  - apply Forall_app in Hr as [Ha Hb]. inversion Hb; subst.
    apply Forall_app. split; assumption.
  - exact Ht'.
Qed.

(** The events of the text response with a comment after the first of
    them. *)
Lemma passed_over_events_are_invisible_witness :
  (text_of (failing_text
              (frame (raw_event (message_start "msg_test" "claude-3")
                      :: keep_alive
                      :: List.map raw_event (tail text_events))))
   = frame ([raw_event (message_start "msg_test" "claude-3")]
            ++ keep_alive :: List.map raw_event (tail text_events)) ++ []
   /\ text_of (buildSSEStream text_events)
      = frame ([raw_event (message_start "msg_test" "claude-3")]
               ++ List.map raw_event (tail text_events)) ++ []
   /\ Forall terminable
        ([raw_event (message_start "msg_test" "claude-3")]
         ++ keep_alive :: List.map raw_event (tail text_events))
   /\ indexOf [] [LF; LF] = None
   /\ passed_over keep_alive = true)
  /\ reassembleFromSSE (js "msg_generated")
       (failing_text
          (frame (raw_event (message_start "msg_test" "claude-3")
                  :: keep_alive
                  :: List.map raw_event (tail text_events))))
     = reassembleFromSSE (js "msg_generated") (buildSSEStream text_events).
Proof.
  set (a := [raw_event (message_start "msg_test" "claude-3")]).
  set (b := List.map raw_event (tail text_events)).
  assert (H1 : text_of (failing_text
                          (frame (raw_event
                                    (message_start "msg_test" "claude-3")
                                  :: keep_alive :: b)))
               = frame (a ++ keep_alive :: b) ++ [])
    by (vm_compute; reflexivity).
  assert (H2 : text_of (buildSSEStream text_events) = frame (a ++ b) ++ [])
    by (vm_compute; reflexivity).
  assert (H3 : Forall terminable (a ++ keep_alive :: b))
    by (repeat constructor; vm_compute; reflexivity).
  assert (H4 : indexOf [] [LF; LF] = None) by reflexivity.
  assert (H5 : passed_over keep_alive = true) by (vm_compute; reflexivity).
  split; [repeat split; assumption|].
  exact (passed_over_events_are_invisible (js "msg_generated") _ _ a b
           keep_alive [] [] H1 H2 H3 H4 H4 H5).
Defined.

(** ** Events that throw *)

Lemma run_raw_fatal (a b : list jstring) (raw : jstring) :
  fatal raw ->
  forall st, fst (run_raw (a ++ raw :: b) st) = fst (run_raw a st).
Proof.
  intros H st. rewrite run_raw_app.
  destruct (run_raw a st) as [st' [e|]]; [reflexivity|].
  cbn [run_raw]. destruct (H st') as [e ->]. reflexivity.
Qed.

(** X5.  The [try] statement encloses the processing of the events, and
    its [catch] clause is empty: an event whose processing throws ends the
    reading.  The events after it are lost, and the response is the one of
    the events before it. *)
Theorem throwing_event_ends_reassembly :
  forall (rid : jstring) (s s' : ReadableStream) (a b : list jstring)
         (raw tail tail' : jstring),
    text_of s = frame (a ++ raw :: b) ++ tail ->
    text_of s' = frame a ++ tail' ->
    Forall terminable (a ++ raw :: b) ->
    indexOf tail [LF; LF] = None ->
    indexOf tail' [LF; LF] = None ->
    fatal raw ->
    reassembleFromSSE rid s = reassembleFromSSE rid s'.
Proof.
  intros rid s s' a b raw tail tail' Hs Hs' Hr Ht Ht' Hraw.
  rewrite (reassemble_framed rid s _ _ Hs Hr Ht).
  rewrite (reassemble_framed rid s' _ _ Hs').
  - rewrite run_raw_fatal by exact Hraw. reflexivity.
  - apply Forall_app in Hr as [Ha Hb]. exact Ha.
  - exact Ht'.
Qed.

(** A [message_start] event with the data [null] after the first event of
    the text response: reading [data.message] throws, and the text, the
    stop reason and the usage that follow are lost. *)
Lemma throwing_event_ends_reassembly_witness :
  (text_of (failing_text
              (frame (raw_event (message_start "msg_test" "claude-3")
                      :: null_start
                      :: List.map raw_event (tail text_events))))
   = frame ([raw_event (message_start "msg_test" "claude-3")]
            ++ null_start :: List.map raw_event (tail text_events)) ++ []
   /\ text_of (buildSSEStream [message_start "msg_test" "claude-3"])
      = frame [raw_event (message_start "msg_test" "claude-3")] ++ []
   /\ Forall terminable
        ([raw_event (message_start "msg_test" "claude-3")]
         ++ null_start :: List.map raw_event (tail text_events))
   /\ indexOf [] [LF; LF] = None
   /\ fatal null_start)
  /\ reassembleFromSSE (js "msg_generated")
       (failing_text
          (frame (raw_event (message_start "msg_test" "claude-3")
                  :: null_start
                  :: List.map raw_event (tail text_events))))
     = reassembleFromSSE (js "msg_generated")
         (buildSSEStream [message_start "msg_test" "claude-3"]).
Proof.
  set (a := [raw_event (message_start "msg_test" "claude-3")]).
  set (b := List.map raw_event (tail text_events)).
  assert (H1 : text_of (failing_text
                          (frame (raw_event
                                    (message_start "msg_test" "claude-3")
                                  :: null_start :: b)))
               = frame (a ++ null_start :: b) ++ [])
    by (vm_compute; reflexivity).
  assert (H2 : text_of (buildSSEStream [message_start "msg_test" "claude-3"])
               = frame a ++ [])
    by (vm_compute; reflexivity).
  assert (H3 : Forall terminable (a ++ null_start :: b))
    by (repeat constructor; vm_compute; reflexivity).
  assert (H4 : indexOf [] [LF; LF] = None) by reflexivity.
  assert (H5 : fatal null_start)
    by (intros st; exists TypeError; vm_compute; reflexivity).
  split; [repeat split; assumption|].
  exact (throwing_event_ends_reassembly (js "msg_generated") _ _ a b
           null_start [] [] H1 H2 H3 H4 H4 H5).
Defined.

(** ** The array of blocks *)

Lemma named_get_set_same {A} (k : jstring) (v : A) (kv : list (jstring * A)) :
  named_get k (named_set k v kv) = Some v.
Proof.
  induction kv as [|[k' v'] kv IH]; simpl.
  - rewrite str_eqb_refl. reflexivity.
  - destruct (str_eqb k k') eqn:E; simpl.
    + rewrite str_eqb_refl. reflexivity.
    + rewrite E. exact IH.
Qed.

Lemma named_get_set_other {A} (k k' : jstring) (v : A)
    (kv : list (jstring * A)) :
  k <> k' -> named_get k' (named_set k v kv) = named_get k' kv.
Proof.
  intros Hne. induction kv as [|[k0 v0] kv IH]; simpl.
  - apply not_eq_sym, str_eqb_neq in Hne. rewrite Hne. reflexivity.
  - destruct (str_eqb k k0) eqn:E; simpl.
    + apply str_eqb_eq in E. subst k0.
      apply not_eq_sym, str_eqb_neq in Hne. rewrite Hne. reflexivity.
    + rewrite IH. reflexivity.
Qed.

Lemma array_store_same {A} (i : nat) (v : A) (l : list (option A)) :
  array_store i v l !! i = Some (Some v).
Proof.
  unfold array_store. case_decide as Hi.
  - apply list_lookup_insert_eq. exact Hi.
  - rewrite lookup_app_r by lia.
    rewrite lookup_app_r by (rewrite length_replicate; lia).
    rewrite length_replicate, Nat.sub_diag. reflexivity.
Qed.


(** A block that was stored under a key is found under it. *)
Lemma blocks_get_set_same (key : jstring) (b : BlockState)
    (arr arr' : BlockArray) :
  blocks_set key b arr = Ok arr' -> blocks_get key arr' = Some b.
Proof.
  unfold blocks_set, blocks_get.
  destruct (array_index key) as [i|].
  - intros [= <-]. cbn [items]. rewrite array_store_same. reflexivity.
  - destruct (str_eqb key (js "length")); [discriminate|].
    intros [= <-]. apply named_get_set_same.
Qed.


Lemma blocks_get_update_same (key : jstring) (b0 b : BlockState)
    (arr : BlockArray) :
  blocks_get key arr = Some b0 ->
  blocks_get key (blocks_update key b arr) = Some b.
Proof.
  unfold blocks_update, blocks_get.
  destruct (array_index key) as [i|]; cbn [items named].
  - intros H. destruct (items arr !! i) as [o|] eqn:Hl; [|discriminate].
    apply lookup_lt_Some in Hl.
    rewrite list_lookup_insert_eq by exact Hl. reflexivity.
  - intros _. apply named_get_set_same.
Qed.


Lemma blocks_set_callable (key : jstring) (b : BlockState)
    (arr arr' : BlockArray) :
  key <> js "map" -> key <> js "__proto__" ->
  blocks_set key b arr = Ok arr' ->
  map_callable arr' = map_callable arr.
Proof.
  intros Hm Hp. unfold blocks_set, map_callable.
  destruct (array_index key).
  - intros [= <-]. reflexivity.
  - destruct (str_eqb key (js "length")); [discriminate|].
    intros [= <-]. cbn [named].
    rewrite !named_get_set_other by assumption. reflexivity.
Qed.

Lemma blocks_update_callable (key : jstring) (b : BlockState)
    (arr : BlockArray) :
  key <> js "map" -> key <> js "__proto__" ->
  map_callable (blocks_update key b arr) = map_callable arr.
Proof.
  intros Hm Hp. unfold blocks_update, map_callable.
  destruct (array_index key); cbn [named]; [reflexivity|].
  rewrite !named_get_set_other by assumption. reflexivity.
Qed.

(** A number always names a property that can be assigned. *)
Lemma blocks_set_number (x : number) (b : BlockState) (arr : BlockArray) :
  exists arr', blocks_set (Number_toString x) b arr = Ok arr'.
Proof.
  unfold blocks_set. destruct (array_index _); [eauto|].
  rewrite (proj2 (str_eqb_neq _ _))
    by (apply Number_toString_avoids; reflexivity).
  eauto.
Qed.

(** ** Indices that are not strings *)

Lemma plain_key (data : json) (key : jstring) :
  plain_index data = true ->
  ToPropertyKey (get data "index") = Ok key ->
  key <> js "map" /\ key <> js "__proto__".
Proof.
  unfold plain_index, ToPropertyKey.
  destruct (get data "index") as [[|[|]|x|s|l|kv]|]; try discriminate;
    intros _ [= <-]; try (split; discriminate).
  split; apply Number_toString_avoids; reflexivity.
Qed.

Lemma get_strict_ok (data : json) (name : string) (v : jsval) :
  get_strict (Some data) name = Ok v -> v = get data name.
Proof. destruct data; simpl; congruence. Qed.

Ltac unchanged := intros [= <-]; reflexivity.

Lemma dispatch_callable (eventType : jstring) (data : json)
    (st st' : Reassembly) :
  plain_index data = true ->
  dispatch eventType data st = Ok st' ->
  map_callable (blocks st') = map_callable (blocks st).
Proof.
  intros Hplain. unfold dispatch. cbv zeta.
  repeat case_match; try unchanged.
  - unfold on_message_start. destruct (get_strict _ _); [|discriminate].
    simpl. case_match; unchanged.
  - unfold on_content_block_start.
    destruct (get_strict _ _) as [block|]; [|discriminate]. simpl.
    repeat case_match; try unchanged; try discriminate.
    all: destruct (ToPropertyKey (get data "index")) as [key|] eqn:Hk;
      [|discriminate]; simpl.
    all: destruct (blocks_set key _ (blocks st)) as [arr|] eqn:Hs;
      [|discriminate]; simpl.
    all: intros [= <-]; cbn [blocks set_blocks].
    all: destruct (plain_key data key Hplain Hk) as [Hm Hp].
    all: exact (blocks_set_callable _ _ _ _ Hm Hp Hs).
  - unfold on_content_block_delta.
    destruct (get_strict (Some data) "index") as [idx|] eqn:Hidx;
      [|discriminate].
    apply get_strict_ok in Hidx. subst idx.
    unfold mbind, outcome_bind.
    destruct (truthy (get data "delta")); [|unchanged].
    destruct (ToPropertyKey (get data "index")) as [key|] eqn:Hk;
      [|discriminate].
    destruct (plain_key data key Hplain Hk) as [Hm Hp].
    destruct (blocks_get key (blocks st)) as [[text|id name buf]|];
      [| |unchanged].
    + destruct (is_str _ "text_delta"); [|unchanged].
      destruct (js_add _ _); [|discriminate].
      intros [= <-]. apply blocks_update_callable; assumption.
    + destruct (is_str _ "input_json_delta"); [|unchanged].
      destruct (append_to_string _ _); [|discriminate].
      intros [= <-]. apply blocks_update_callable; assumption.
  - unfold on_message_delta. destruct (get_strict _ _); [|discriminate].
    simpl. repeat case_match; unchanged.
  - unfold on_message_stop. destruct (get_strict _ _); [|discriminate].
    simpl. repeat case_match; unchanged.
Qed.

Lemma processRawEvent_callable (raw : jstring) (st st' : Reassembly) :
  (forall data, JSON_parse (snd (event_fields raw)) = Some data ->
                plain_index data = true) ->
  processRawEvent raw st = Ok st' ->
  map_callable (blocks st') = map_callable (blocks st).
Proof.
  intros Hplain. unfold processRawEvent.
  destruct raw as [|c raw]; [unchanged|].
  destruct (startsWith (c :: raw) (js ":")); [unchanged|].
  destruct (event_fields (c :: raw)) as [eventType dataStr].
  cbn [snd] in Hplain.
  destruct dataStr as [|c' d]; [unchanged|].
  destruct (str_eqb (c' :: d) (js "[DONE]")); [unchanged|].
  destruct (JSON_parse (c' :: d)) as [data|]; [|unchanged].
  apply dispatch_callable, Hplain. reflexivity.
Qed.

Lemma run_raw_callable (raws : list jstring) :
  (forall raw data,
     In raw raws ->
     JSON_parse (snd (event_fields (trim raw))) = Some data ->
     plain_index data = true) ->
  forall st,
    map_callable (blocks (fst (run_raw raws st))) = map_callable (blocks st).
Proof.
  induction raws as [|raw raws IH]; intros Hplain st; [reflexivity|].
  cbn [run_raw].
  destruct (processRawEvent (trim raw) st) as [st1|e] eqn:Hp; [|reflexivity].
  rewrite IH by (intros r d Hin; apply Hplain; right; exact Hin).
  apply (processRawEvent_callable _ _ _
           (fun d => Hplain raw d (or_introl eq_refl)) Hp).
Qed.

(** X6.  When no event of a stream has a string, an array or an object for
    its index (the protocol has numbers there), the promise of the
    reassembler is fulfilled, and with the same response whether the
    stream ends or a read fails: [blocks.map] stays callable, because the
    name that a number, a boolean, [null] or [undefined] gives to a
    property is neither [map] nor [__proto__]. *)
Theorem plain_indices_keep_the_promise :
  forall (rid : jstring) (cs : list (list Byte.byte)),
    (forall raw data,
       In raw (events_of (stream_text (concat cs))) ->
       JSON_parse (snd (event_fields (trim raw))) = Some data ->
       plain_index data = true) ->
    exists r,
      forall e : StreamEnd,
        reassembleFromSSE rid {| chunks := cs; ending := e |} = Fulfilled r.
Proof.
  intros rid cs Hplain.
  pose proof (run_raw_callable _ Hplain initial) as Hc.
  fold (replay (concat cs)) in Hc. cbn in Hc.
  destruct (finish rid (replay (concat cs))) as [r|err] eqn:Hf.
  - exists r. intros e. rewrite reassemble_in_one_pass. cbn [chunks].
    rewrite Hf. reflexivity.
  - unfold finish, blocks_map in Hf. rewrite Hc in Hf. discriminate.
Qed.

Ltac each_event Hin :=
  repeat (destruct Hin as [<-|Hin];
          [let H := fresh in
           intros H; vm_compute in H; injection H as <-; reflexivity|]);
  destruct Hin.

(** The chunks of the text response, whose indices are the number 0. *)
Lemma plain_indices_keep_the_promise_witness :
  (forall raw data,
     In raw (events_of
               (stream_text (concat (chunks (buildSSEStream text_events))))) ->
     JSON_parse (snd (event_fields (trim raw))) = Some data ->
     plain_index data = true)
  /\ exists r,
       forall e : StreamEnd,
         reassembleFromSSE (js "msg_generated")
           {| chunks := chunks (buildSSEStream text_events); ending := e |}
         = Fulfilled r.
Proof.
  assert (H : forall raw data,
            In raw (events_of
                      (stream_text
                         (concat (chunks (buildSSEStream text_events))))) ->
            JSON_parse (snd (event_fields (trim raw))) = Some data ->
            plain_index data = true).
  { intros raw data Hin. vm_compute in Hin. each_event Hin. }
  split; [exact H|].
  exact (plain_indices_keep_the_promise (js "msg_generated")
           (chunks (buildSSEStream text_events)) H).
Defined.

(** ** What an event changes *)



Ltac handler_result :=
  unfold mbind, outcome_bind;
  repeat match goal with
         | |- context [match ?x with _ => _ end] => destruct x
         end;
  try discriminate;
  intros [= <-]; repeat split; reflexivity.

Lemma on_message_start_writes (data : json) (st st' : Reassembly) :
  on_message_start data st = Ok st' ->
  usage st' = usage st /\ stopReason st' = stopReason st
  /\ blocks st' = blocks st.
Proof. unfold on_message_start. handler_result. Qed.

Lemma on_content_block_start_writes (data : json) (st st' : Reassembly) :
  on_content_block_start data st = Ok st' ->
  messageId st' = messageId st /\ model st' = model st
  /\ usage st' = usage st /\ stopReason st' = stopReason st.
Proof. unfold on_content_block_start. handler_result. Qed.

Lemma on_content_block_delta_writes (data : json) (st st' : Reassembly) :
  on_content_block_delta data st = Ok st' ->
  messageId st' = messageId st /\ model st' = model st
  /\ usage st' = usage st /\ stopReason st' = stopReason st.
Proof. unfold on_content_block_delta. handler_result. Qed.

Lemma on_message_delta_writes (data : json) (st st' : Reassembly) :
  on_message_delta data st = Ok st' ->
  messageId st' = messageId st /\ model st' = model st
  /\ blocks st' = blocks st.
Proof. unfold on_message_delta. cbv zeta. handler_result. Qed.

Lemma on_message_stop_writes (data : json) (st st' : Reassembly) :
  on_message_stop data st = Ok st' ->
  messageId st' = messageId st /\ model st' = model st
  /\ usage st' = usage st /\ blocks st' = blocks st.
Proof. unfold on_message_stop. handler_result. Qed.

Ltac kept := repeat split; intros; solve [assumption | discriminate].

(** X8.  Each kind of event writes its own variables only.  The message
    identifier and the model change with a [message_start] event alone;
    the usage with a [message_delta] event alone (the usage that a
    [message_start] event carries is not read); the stop reason with a
    [message_delta] or a [message_stop] event alone; the blocks with a
    [content_block_start] or a [content_block_delta] event alone. *)
Theorem event_kinds_write_their_own_variables :
  forall (eventType : jstring) (data : json) (st st' : Reassembly),
    dispatch eventType data st = Ok st' ->
    let kind := event_kind eventType data in
    (is_str kind "message_start" = false ->
     messageId st' = messageId st /\ model st' = model st)
    /\ (is_str kind "message_delta" = false -> usage st' = usage st)
    /\ (is_str kind "message_delta" = false ->
        is_str kind "message_stop" = false ->
        stopReason st' = stopReason st)
    /\ (is_str kind "content_block_start" = false ->
        is_str kind "content_block_delta" = false ->
        blocks st' = blocks st).
Proof.
  intros eventType data st st'. unfold dispatch. cbv zeta.
  destruct (is_str _ "message_start") eqn:K1.
  { intros H. apply on_message_start_writes in H as (? & ? & ?). kept. }
  destruct (is_str _ "content_block_start") eqn:K2.
  { intros H. apply on_content_block_start_writes in H as (? & ? & ? & ?).
    kept. }
  destruct (is_str _ "content_block_delta") eqn:K3.
  { intros H. apply on_content_block_delta_writes in H as (? & ? & ? & ?).
    kept. }
  destruct (is_str _ "content_block_stop") eqn:K4.
  { intros [= <-]. repeat split; intros; reflexivity. }
  destruct (is_str _ "message_delta") eqn:K5.
  { intros H. apply on_message_delta_writes in H as (? & ? & ?). kept. }
  destruct (is_str _ "message_stop") eqn:K6.
  { intros H. apply on_message_stop_writes in H as (? & ? & ? & ?). kept. }
  intros [= <-]. repeat split; intros; reflexivity.
Qed.

(** A [message_start] event leaves the usage, the stop reason and the
    blocks. *)
Lemma event_kinds_write_their_own_variables_witness :
  dispatch (js "message_start") (snd (message_start "msg_test" "claude-3"))
    two_blocks
  = Ok (set_message (str "msg_test") (str "claude-3") two_blocks)
  /\ usage (set_message (str "msg_test") (str "claude-3") two_blocks)
     = usage two_blocks
  /\ stopReason (set_message (str "msg_test") (str "claude-3") two_blocks)
     = stopReason two_blocks
  /\ blocks (set_message (str "msg_test") (str "claude-3") two_blocks)
     = blocks two_blocks.
Proof.
  assert (H : dispatch (js "message_start")
                (snd (message_start "msg_test" "claude-3")) two_blocks
              = Ok (set_message (str "msg_test") (str "claude-3") two_blocks))
    by (vm_compute; reflexivity).
  split; [exact H|].
  destruct (event_kinds_write_their_own_variables _ _ _ _ H)
    as (_ & Husage & Hstop & Hblocks).
  split; [apply Husage; vm_compute; reflexivity|].
  split; [apply Hstop; vm_compute; reflexivity|].
  apply Hblocks; vm_compute; reflexivity.
Defined.

(** ** The deltas of a block *)

Lemma dispatch_text_start (x : number) (text : jstring) (st : Reassembly) :
  dispatch (js "content_block_start")
    (snd (block_start_event (JNum x) (text_block text))) st
  = (arr ← blocks_set (Number_toString x) (TextBlock (JStr text)) (blocks st);
     Ok (set_blocks arr st)).
Proof. reflexivity. Qed.

Lemma dispatch_tool_start (x : number) (id name : jstring) (st : Reassembly) :
  dispatch (js "content_block_start")
    (snd (block_start_event (JNum x) (tool_use_block id name))) st
  = (arr ← blocks_set (Number_toString x)
             (ToolUseBlock (JStr id) (JStr name) []) (blocks st);
     Ok (set_blocks arr st)).
Proof. reflexivity. Qed.

Lemma dispatch_text_delta_eq (x : number) (d : jstring) (st : Reassembly) :
  dispatch (js "content_block_delta")
    (snd (block_delta_event (JNum x) (text_delta_of d))) st
  = match blocks_get (Number_toString x) (blocks st) with
    | Some (TextBlock text) =>
        text' ← js_add text (JStr d);
        Ok (set_blocks
              (blocks_update (Number_toString x) (TextBlock text') (blocks st))
              st)
    | _ => Ok st
    end.
Proof. reflexivity. Qed.

Lemma dispatch_input_delta_eq (x : number) (p : jstring) (st : Reassembly) :
  dispatch (js "content_block_delta")
    (snd (block_delta_event (JNum x) (input_json_delta p))) st
  = match blocks_get (Number_toString x) (blocks st) with
    | Some (ToolUseBlock id name buf) =>
        Ok (set_blocks
              (blocks_update (Number_toString x)
                 (ToolUseBlock id name (buf ++ p)) (blocks st))
              st)
    | _ => Ok st
    end.
Proof. reflexivity. Qed.

Lemma run_text_deltas (x : number) (ds : list jstring) :
  forall (text : jstring) (st : Reassembly),
    blocks_get (Number_toString x) (blocks st)
    = Some (TextBlock (JStr text)) ->
    exists st',
      run_events
        (List.map (fun d => block_delta_event (JNum x) (text_delta_of d)) ds) st
      = Ok st'
      /\ blocks_get (Number_toString x) (blocks st')
         = Some (TextBlock (JStr (text ++ concat ds))).
Proof.
  induction ds as [|d ds IH]; intros text st H.
  - exists st. rewrite app_nil_r. split; [reflexivity|exact H].
  - cbn [List.map run_events]. cbn [block_delta_event fst].
    change (obj ?l) with (snd (js "content_block_delta", obj l)).
    fold (block_delta_event (JNum x) (text_delta_of d)).
    rewrite dispatch_text_delta_eq, H.
    destruct (IH (text ++ d)
                (set_blocks
                   (blocks_update (Number_toString x)
                      (TextBlock (JStr (text ++ d))) (blocks st)) st))
      as (st' & Hrun & Hget).
    { cbn [blocks set_blocks]. eapply blocks_get_update_same, H. }
    exists st'. split; [exact Hrun|].
    rewrite Hget. cbn [concat]. rewrite app_assoc. reflexivity.
Qed.

(** X9.  A text block started under a number, and then any text deltas for
    that number: none of these events throws, whatever the number and
    whatever was accumulated before, and the text of the block is the text
    of the start followed by the texts of the deltas, in their order. *)
Theorem text_deltas_accumulate :
  forall (x : number) (text : jstring) (deltas : list jstring)
         (st : Reassembly),
    exists st',
      run_events
        (block_start_event (JNum x) (text_block text)
         :: List.map
              (fun d => block_delta_event (JNum x) (text_delta_of d)) deltas)
        st
      = Ok st'
      /\ blocks_get (Number_toString x) (blocks st')
         = Some (TextBlock (JStr (text ++ concat deltas))).
Proof.
  intros x text deltas st. cbn [run_events].
  cbn [block_start_event fst].
  change (obj ?l) with (snd (js "content_block_start", obj l)).
  fold (block_start_event (JNum x) (text_block text)).
  rewrite dispatch_text_start.
  destruct (blocks_set_number x (TextBlock (JStr text)) (blocks st))
    as [arr Harr].
  rewrite Harr. cbn [mbind outcome_bind].
  apply run_text_deltas. cbn [blocks set_blocks].
  exact (blocks_get_set_same _ _ _ _ Harr).
Qed.

Lemma run_input_deltas (x : number) (id name : json) (ps : list jstring) :
  forall (buf : jstring) (st : Reassembly),
    blocks_get (Number_toString x) (blocks st)
    = Some (ToolUseBlock id name buf) ->
    exists st',
      run_events
        (List.map (fun p => block_delta_event (JNum x) (input_json_delta p)) ps)
        st
      = Ok st'
      /\ blocks_get (Number_toString x) (blocks st')
         = Some (ToolUseBlock id name (buf ++ concat ps))
      /\ (array_index (Number_toString x) = None ->
          items (blocks st') = items (blocks st)).
Proof.
  induction ps as [|p ps IH]; intros buf st H.
  - exists st. rewrite app_nil_r. split; [reflexivity|]. split; [exact H|auto].
  - cbn [List.map run_events]. cbn [block_delta_event fst].
    change (obj ?l) with (snd (js "content_block_delta", obj l)).
    fold (block_delta_event (JNum x) (input_json_delta p)).
    rewrite dispatch_input_delta_eq, H.
    destruct (IH (buf ++ p)
                (set_blocks
                   (blocks_update (Number_toString x)
                      (ToolUseBlock id name (buf ++ p)) (blocks st)) st))
      as (st' & Hrun & Hget & Hitems).
    { cbn [blocks set_blocks]. eapply blocks_get_update_same, H. }
    exists st'. split; [exact Hrun|]. split.
    + rewrite Hget. cbn [concat]. rewrite app_assoc. reflexivity.
    + intros Hkey. rewrite (Hitems Hkey). cbn [blocks set_blocks].
      unfold blocks_update. rewrite Hkey. reflexivity.
Qed.

(** X10.  A tool-use block started under a number, and then any argument
    deltas for that number: none of these events throws, whatever the
    number and whatever was accumulated before, and the accumulator under
    that number builds the tool-use block with the identifier and the name
    of the start, and for its input what [safeParseJson] makes of the
    fragments put together in their order.  The response is built unless
    [blocks.map] is not callable.  When the number is an array index, the
    content of the response holds that block at that position.  When it is
    not (a fraction, a negative number, [NaN], an infinity), the
    accumulator is a named property of the array and the content does not
    hold it: it is made of what the elements of the array held before
    these events. *)
Theorem tool_input_deltas_accumulate :
  forall (x : number) (id name : jstring) (pieces : list jstring)
         (st : Reassembly) (rid : jstring),
    let built :=
      ContentToolUse (JStr id) (JStr name) (safeParseJson (concat pieces)) in
    exists st',
      run_events
        (block_start_event (JNum x) (tool_use_block id name)
         :: List.map
              (fun p => block_delta_event (JNum x) (input_json_delta p))
              pieces)
        st
      = Ok st'
      /\ build_content <$> blocks_get (Number_toString x) (blocks st')
         = Some built
      /\ match finish rid st' with
         | Ok r =>
             match array_index (Number_toString x) with
             | Some i => resp_content r !! i = Some (Some built)
             | None =>
                 resp_content r
                 = List.map (option_map build_content) (items (blocks st))
             end
         | Throw _ => map_callable (blocks st') = false
         end.
Proof.
  intros x id name pieces st rid built. cbn [run_events].
  cbn [block_start_event fst].
  change (obj ?l) with (snd (js "content_block_start", obj l)).
  fold (block_start_event (JNum x) (tool_use_block id name)).
  rewrite dispatch_tool_start.
  destruct (blocks_set_number x (ToolUseBlock (JStr id) (JStr name) [])
              (blocks st)) as [arr Harr].
  rewrite Harr. cbn [mbind outcome_bind].
  destruct (run_input_deltas x (JStr id) (JStr name) pieces []
              (set_blocks arr st)) as (st' & Hrun & Hget & Hitems).
  { cbn [blocks set_blocks]. exact (blocks_get_set_same _ _ _ _ Harr). }
  exists st'. split; [exact Hrun|]. split; [rewrite Hget; reflexivity|].
  unfold finish, blocks_map.
  destruct (map_callable (blocks st')); [|reflexivity].
  cbn [mbind outcome_bind resp_content].
  unfold blocks_get in Hget. unfold blocks_set in Harr.
  destruct (array_index (Number_toString x)) as [i|].
  - rewrite lookup_map.
    destruct (items (blocks st') !! i) as [[b|]|]; try discriminate.
    cbn in Hget. injection Hget as ->. reflexivity.
  - rewrite (Hitems eq_refl). cbn [blocks set_blocks].
    destruct (str_eqb _ _); [discriminate|].
    injection Harr as <-. reflexivity.
Qed.

(** ** The response *)

(** X11.  Every response of the reassembler is a message of the assistant
    without a stop sequence, and its identifier is never empty nor
    otherwise falsy, as long as [randomId] gives an identifier that is not
    empty. *)
Theorem response_is_a_message_with_an_identifier :
  forall (rid : jstring) (stream : ReadableStream) (r : AnthropicResponse),
    reassembleFromSSE rid stream = Fulfilled r ->
    rid <> [] ->
    truthy (Some (resp_id r)) = true
    /\ resp_type r = js "message"
    /\ resp_role r = js "assistant"
    /\ stop_sequence r = JNull.
Proof.
  intros rid stream r. unfold reassembleFromSSE, finish.
  destruct (blocks_map _ _) as [content|]; [|discriminate].
  remember (truthy (Some (messageId (accumulate stream)))) as kept eqn:E.
  cbn [mbind outcome_bind settle]. intros [= <-] Hrid.
  cbn [resp_id resp_type resp_role stop_sequence].
  repeat split.
  destruct kept; [symmetry; exact E|].
  destruct rid; [congruence|reflexivity].
Qed.

(** The stream without a [message_start] event: the generated
    identifier. *)
Lemma response_is_a_message_with_an_identifier_witness :
  (reassembleFromSSE (js "msg_generated") (buildSSEStream [message_stop])
   = Fulfilled (emptyResponse (js "msg_generated"))
   /\ js "msg_generated" <> [])
  /\ truthy (Some (resp_id (emptyResponse (js "msg_generated")))) = true.
Proof.
  assert (H1 : reassembleFromSSE (js "msg_generated")
                 (buildSSEStream [message_stop])
               = Fulfilled (emptyResponse (js "msg_generated")))
    by (vm_compute; reflexivity).
  assert (H2 : js "msg_generated" <> []) by discriminate.
  split; [split; assumption|].
  exact (proj1 (response_is_a_message_with_an_identifier _ _ _ H1 H2)).
Defined.

End ReassemblyProps.

(* ================================================================== *)
(** * Part 13: more properties of index.ts                              *)
(* ================================================================== *)

Module HandlerProps.
Import JS Logger Worker Samples Notions HandlerNotions Doubles JSFacts.
Import LoggerProps WorkerProps.

(** ** Requests that are not served *)

(** X13.  A request for another path than [/v1/messages], or with another
    method than [POST], is answered [Not found] with the status 404:
    nothing is read of it, no upstream is called and nothing is logged. *)
Theorem other_routes_are_not_found :
  forall (D : Dependencies) (request : Request) (env : Env),
    pathname request <> js "/v1/messages" \/ method request <> js "POST" ->
    fetch request env = {| reply := not_found; scheduled := [] |}.
Proof.
  intros D request env H. unfold fetch.
  assert (E : negb (str_eqb (pathname request) (js "/v1/messages"))
              || negb (str_eqb (method request) (js "POST")) = true).
  { destruct H as [H|H]; apply str_eqb_neq in H; rewrite H;
      [reflexivity | apply orb_true_r]. }
  rewrite E. reflexivity.
Qed.

Lemma other_routes_are_not_found_witness :
  (pathname get_messages <> js "/v1/messages"
   \/ method get_messages <> js "POST")
  /\ @fetch native_unstreamed get_messages sample_env
     = {| reply := not_found; scheduled := [] |}.
Proof.
  assert (H : pathname get_messages <> js "/v1/messages"
              \/ method get_messages <> js "POST")
    by (right; vm_compute; discriminate).
  split; [exact H|].
  exact (other_routes_are_not_found native_unstreamed get_messages sample_env
           H).
Defined.

(** ** The keys of a request *)

Lemma extractApiKey_raises (h : Headers) (e : Exception) :
  extractApiKey h = Raise e -> e = authenticationError (js "Missing API key").
Proof.
  unfold extractApiKey.
  destruct (bearer_token _) as [[|c t]|];
    destruct (headers_get h (js "x-api-key")) as [[|c' k]|];
    congruence.
Qed.

(** X14.  The two ways of reading the key of a request agree.  When the
    required key is found it is not empty, and unless it is the word
    [no-auth] the optional key is the same; when it is missing, the error
    is the authentication error [Missing API key], and the optional key is
    absent.  The optional key is never the word [no-auth] and never
    empty. *)
Theorem optional_key_agrees_with_required :
  forall h : Headers,
    match extractApiKey h with
    | Return k =>
        k <> [] /\ (k = js "no-auth" \/ extractOptionalApiKey h = Some k)
    | Raise e =>
        e = authenticationError (js "Missing API key")
        /\ extractOptionalApiKey h = None
    end
    /\ extractOptionalApiKey h <> Some (js "no-auth")
    /\ extractOptionalApiKey h <> Some [].
Proof.
  intros h. unfold extractApiKey, extractOptionalApiKey, optional_header_key.
  destruct (bearer_token _) as [[|c t]|];
    destruct (headers_get h (js "x-api-key")) as [[|c' k]|];
    repeat match goal with
           | |- context [str_eqb ?a ?b] =>
               let E := fresh "E" in
               destruct (str_eqb a b) eqn:E;
               [apply str_eqb_eq in E | apply str_eqb_neq in E]
           end;
    repeat split; auto; try discriminate; try congruence.
Qed.

(** X15.  A request that the resolver sends to the native provider or to
    OpenRouter, and that carries no key, is refused with the
    authentication error before any upstream is called, and nothing is
    logged. *)
Theorem missing_key_is_refused :
  forall (D : Dependencies) (req : Request) (env : Env)
         (body : AnthropicRequest) (e : Exception),
    pathname req = js "/v1/messages" ->
    method req = js "POST" ->
    readJsonBody req = Return body ->
    res_provider (resolution req env body) = anthropic
    \/ res_provider (resolution req env body) = openrouter ->
    extractApiKey (req_headers req) = Raise e ->
    e = authenticationError (js "Missing API key")
    /\ fetch req env = {| reply := errorResponse e; scheduled := [] |}.
Proof.
  intros D req env body e Hpath Hmethod Hbody Hprov Hkey. split.
  - exact (extractApiKey_raises _ _ Hkey).
  - unfold fetch. rewrite Hpath, Hmethod, !str_eqb_refl. cbn [negb orb].
    unfold route. rewrite Hbody. cbn [mbind result_bind].
    unfold resolution in Hprov.
    destruct Hprov as [-> | ->]; rewrite Hkey; reflexivity.
Qed.

Lemma missing_key_is_refused_witness :
  (pathname anonymous_post = js "/v1/messages"
   /\ method anonymous_post = js "POST"
   /\ @readJsonBody native_unstreamed anonymous_post
      = Return (request_body "claude-3" (Some false))
   /\ (res_provider
         (@resolution native_unstreamed anonymous_post sample_env
            (request_body "claude-3" (Some false))) = anthropic
       \/ res_provider
            (@resolution native_unstreamed anonymous_post sample_env
               (request_body "claude-3" (Some false))) = openrouter)
   /\ extractApiKey (req_headers anonymous_post)
      = Raise (AuthenticationError (js "Missing API key")))
  /\ @fetch native_unstreamed anonymous_post sample_env
     = {| reply :=
            spec_errorResponse (AuthenticationError (js "Missing API key"));
          scheduled := [] |}.
Proof.
  assert (H1 : pathname anonymous_post = js "/v1/messages") by reflexivity.
  assert (H2 : method anonymous_post = js "POST") by reflexivity.
  assert (H3 : @readJsonBody native_unstreamed anonymous_post
               = Return (request_body "claude-3" (Some false)))
    by reflexivity.
  assert (H4 : res_provider
                 (@resolution native_unstreamed anonymous_post sample_env
                    (request_body "claude-3" (Some false))) = anthropic
               \/ res_provider
                    (@resolution native_unstreamed anonymous_post sample_env
                       (request_body "claude-3" (Some false))) = openrouter)
    by (left; vm_compute; reflexivity).
  assert (H5 : extractApiKey (req_headers anonymous_post)
               = Raise (AuthenticationError (js "Missing API key")))
    by reflexivity.
  split; [repeat split; assumption|].
  exact (proj2 (missing_key_is_refused native_unstreamed anonymous_post
                  sample_env _ _ H1 H2 H3 H4 H5)).
Defined.

(** ** Routing *)

Lemma route_inv `{Dependencies} (request : Request) (env : Env)
    (rt : Routing) :
  route request env = Return rt ->
  exists body,
    readJsonBody request = Return body
    /\ rt_body rt = body
    /\ rt_turnIndex rt = deriveTurnIndex (req_messages body)
    /\ rt_requestId rt = id_req ids
    /\ rt_sessionId rt = session_of request
    /\ rt_originalModel rt = res_originalModel (resolution request env body)
    /\ (rt_clientMeta rt = None
        \/ exists kv, rt_clientMeta rt = Some (JObj kv)).
Proof.
  unfold route, resolution, session_of.
  destruct (readJsonBody request) as [body|]; [|discriminate].
  cbn [mbind result_bind]. intros Hr. exists body. revert Hr.
  set (resolved := resolveProvider _ body _).
  assert (Hmeta : forall raw,
            safeParseJsonMeta raw = None
            \/ exists kv, safeParseJsonMeta raw = Some (JObj kv)).
  { intros raw. unfold safeParseJsonMeta.
    destruct (JSON_parse raw) as [[]|]; eauto. }
  match goal with
  | |- ?m ≫= _ = _ -> _ => destruct m as [apiKey|]; [|discriminate]
  end.
  cbn [mbind result_bind].
  repeat match goal with
         | |- context [if ?b then _ else _] => destruct b
         end; try discriminate; cbn [mbind result_bind];
    repeat match goal with
         | |- context [if ?b then _ else _] => destruct b
         end; try discriminate;
    intros [= <-];
    cbn [rt_body rt_turnIndex rt_requestId rt_sessionId rt_config
         rt_originalModel rt_clientMeta rt_provider res_provider
         res_originalModel res_wireModel];
    repeat split; auto;
    try (destruct (getHeader _ (js "x-client-meta")) as [[|c raw]|]; auto).
Qed.

(** X16.  What is routed to another provider than the native one has
    passed the guards.  The provider is the one the resolver named; the
    body has MCP servers only with the bridge mode [http-sse]; it has
    server tools other than web searches only when the mode for them is
    neither [error] nor [enforceAnthropic]; for OpenRouter the key is
    present and not empty, and for vLLM and SGLang it is the optional
    key. *)
Theorem non_native_routing_is_guarded :
  forall (D : Dependencies) (req : Request) (env : Env) (rt : Routing),
    route req env = Return rt ->
    rt_provider rt <> anthropic ->
    rt_provider rt = res_provider (resolution req env (rt_body rt))
    /\ match req_mcp_servers (rt_body rt) with
       | Some (_ :: _) => MCP_BRIDGE_MODE env = Some (js "http-sse")
       | _ => True
       end
    /\ (other_server_tools (rt_body rt) = []
        \/ (serverToolsMode (rt_config rt) <> js "error"
            /\ serverToolsMode (rt_config rt) <> js "enforceAnthropic"))
    /\ match rt_provider rt with
       | openrouter => exists c key, rt_apiKey rt = Some (c :: key)
       | _ => rt_apiKey rt = extractOptionalApiKey (req_headers req)
       end.
Proof.
  intros D req env rt. unfold route, resolution, other_server_tools.
  destruct (readJsonBody req) as [body|]; [|discriminate].
  cbn [mbind result_bind].
  set (resolved := resolveProvider _ body _).
  set (others := List.filter (is_kind "other") _).
  destruct (res_provider resolved) eqn:Hprov.
  all: cbn [mbind result_bind].
  all: try (destruct (extractApiKey (req_headers req)) as [key|] eqn:Hkey;
            [|discriminate]; cbn [mbind result_bind]).
  all: destruct others as [|o others'] eqn:Ho; cbn [negb andb].
  all: try (destruct (str_eqb (serverToolsMode (resolveConfig env))
                        (js "error")) eqn:Hmode1; [discriminate|]).
  all: try (destruct (str_eqb (serverToolsMode (resolveConfig env))
                        (js "enforceAnthropic")) eqn:Hmode2).
  all: cbn [mbind result_bind res_provider]; rewrite ?Hprov.
  all: destruct (req_mcp_servers body) as [[|m ms]|] eqn:Hmcp;
    cbn [negb andb]; try discriminate.
  all: try (destruct (MCP_BRIDGE_MODE env) as [mode|] eqn:Hbridge;
            [destruct (str_eqb mode (js "http-sse")) eqn:Hsse|];
            cbn [negb andb]; try discriminate).
  all: intros [= <-]; cbn [rt_provider rt_body rt_config rt_apiKey];
    intros Hnative; try congruence.
  all: rewrite ?Hmcp.
  all: repeat split; auto.
  all: try (apply str_eqb_eq in Hsse; congruence).
  all: try (right; split; apply str_eqb_neq; assumption).
  all: try (unfold extractApiKey in Hkey;
            repeat case_match; try discriminate;
            injection Hkey as <-; eauto).
Qed.

Lemma non_native_routing_is_guarded_witness :
  (@route failing_openrouter post_messages sample_env
   = Return (openrouter_routing None)
   /\ rt_provider (openrouter_routing None) <> anthropic)
  /\ exists c key, rt_apiKey (openrouter_routing None) = Some (c :: key).
Proof.
  assert (H1 : @route failing_openrouter post_messages sample_env
               = Return (openrouter_routing None))
    by (vm_compute; reflexivity).
  assert (H2 : rt_provider (openrouter_routing None) <> anthropic)
    by discriminate.
  split; [split; assumption|].
  destruct (non_native_routing_is_guarded failing_openrouter post_messages
              sample_env (openrouter_routing None) H1 H2)
    as (_ & _ & _ & Hkey).
  exact Hkey.
Defined.

(** X17.  A request routed to vLLM or SGLang whose base address is not
    configured, or is empty, is refused with an invalid-request error that
    names the variable to set; no upstream is called and nothing is
    logged. *)
Theorem unconfigured_provider_is_refused :
  forall (D : Dependencies) (req : Request) (env : Env) (rt : Routing),
    pathname req = js "/v1/messages" ->
    method req = js "POST" ->
    route req env = Return rt ->
    is_configured (rt_provider rt) (rt_config rt) = false ->
    (rt_provider rt = vllm \/ rt_provider rt = sglang)
    /\ fetch req env
       = {| reply :=
              errorResponse
                (invalidRequest
                   (provider_name (rt_provider rt)
                      ++ js " provider is not configured. Set UPSTREAM_"
                      ++ upper_provider (rt_provider rt) ++ js "_BASE_URL.")
                   None);
            scheduled := [] |}.
Proof.
  intros D req env rt Hpath Hmethod Hroute Hconf.
  rewrite (fetch_routed req env rt Hpath Hmethod Hroute).
  unfold serve. unfold is_configured, configured_url in Hconf.
  destruct (rt_provider rt); try discriminate.
  - destruct (vllmBaseUrl _) as [[|c url]|]; try discriminate; auto.
  - destruct (sglangBaseUrl _) as [[|c url]|]; try discriminate; auto.
Qed.

Lemma unconfigured_provider_is_refused_witness :
  (pathname post_messages = js "/v1/messages"
   /\ method post_messages = js "POST"
   /\ @route vllm_unconfigured post_messages sample_env = Return vllm_routing
   /\ is_configured (rt_provider vllm_routing) (rt_config vllm_routing)
      = false)
  /\ @fetch vllm_unconfigured post_messages sample_env
     = {| reply :=
            spec_errorResponse
              (InvalidRequest
                 (js "vllm provider is not configured. Set UPSTREAM_VLLM_BASE_URL.")
                 None);
          scheduled := [] |}.
Proof.
  assert (H1 : pathname post_messages = js "/v1/messages") by reflexivity.
  assert (H2 : method post_messages = js "POST") by reflexivity.
  assert (H3 : @route vllm_unconfigured post_messages sample_env
               = Return vllm_routing)
    by (vm_compute; reflexivity).
  assert (H4 : is_configured (rt_provider vllm_routing)
                 (rt_config vllm_routing) = false)
    by reflexivity.
  split; [repeat split; assumption|].
  exact (proj2 (unconfigured_provider_is_refused vllm_unconfigured
                  post_messages sample_env vllm_routing H1 H2 H3 H4)).
Defined.

(** ** What is logged *)

Lemma logStreamingResponse_passes `{Dependencies} (env : Env) (rt : Routing)
    (resp : Response) :
  logStreamingResponse env rt resp
  = match body resp with
    | None =>
        Return
          {| reply := resp;
             scheduled :=
               [scheduleLog env rt
                  (Some (Reassembled (emptyResponse (id_msg ids)))) true
                  None] |}
    | Some stream =>
        if status_admits_body (status resp)
        then Return
               {| reply := resp;
                  scheduled :=
                    match reassembleFromSSE (id_msg ids) stream with
                    | Fulfilled r =>
                        [scheduleLog env rt (Some (Reassembled r)) true None]
                    | _ => []
                    end |}
        else Raise (Native (refusal (status resp)))
    end.
Proof.
  unfold logStreamingResponse.
  destruct resp as [st hs [stream|]]; [|reflexivity].
  rewrite (teeAndCollectStream_body _ _ _ stream) by reflexivity.
  cbn [body status headers].
  destruct (status_admits_body st); reflexivity.
Qed.

(** What [serve] schedules: nothing, or one entry of one of three
    shapes. *)
Lemma serve_scheduled `{Dependencies} (request : Request) (env : Env)
    (rt : Routing) (r : Reply) :
  serve request env rt = Return r ->
  scheduled r = []
  \/ (exists e, rt_provider rt = anthropic
                /\ scheduled r = [scheduleLog env rt None false (Some e)])
  \/ (exists a, scheduled r
                = [scheduleLog env rt (Some (Reassembled a)) true None])
  \/ (exists j, rt_provider rt <> anthropic
                /\ scheduled r
                   = [scheduleLog env rt (Some (ParsedBody j)) false None]).
Proof.
  assert (Hstream : forall resp,
    logStreamingResponse env rt resp = Return r ->
    scheduled r = []
    \/ (exists e, rt_provider rt = anthropic
                  /\ scheduled r = [scheduleLog env rt None false (Some e)])
    \/ (exists a, scheduled r
                  = [scheduleLog env rt (Some (Reassembled a)) true None])
    \/ (exists j, rt_provider rt <> anthropic
                  /\ scheduled r
                     = [scheduleLog env rt (Some (ParsedBody j)) false None])).
  { intros resp. rewrite logStreamingResponse_passes.
    destruct (body resp) as [stream|]; [|intros [= <-]; eauto 6].
    destruct (status_admits_body (status resp)); [|discriminate].
    intros [= <-]. cbn [scheduled].
    destruct (reassembleFromSSE _ stream); eauto 6. }
  assert (Hparsed : forall resp, rt_provider rt <> anthropic ->
    logParsedResponse env rt resp = Return r ->
    exists j, rt_provider rt <> anthropic
              /\ scheduled r
                 = [scheduleLog env rt (Some (ParsedBody j)) false None]).
  { intros resp Hp. unfold logParsedResponse.
    destruct (body_json resp) as [j|]; [|discriminate].
    intros [= <-]. eauto. }
  unfold serve. destruct (rt_provider rt) eqn:Hp.
  - destruct (proxyAnthropic _ _ _ _) as [resp|]; [|discriminate].
    cbn [mbind result_bind].
    destruct (negb (ok resp)).
    + destruct (body_text resp) as [t|]; [|discriminate].
      intros [= <-]. right; left. eauto.
    + apply Hstream.
  - destruct (handleOpenRouter _ _ _ _ _ _ _) as [resp|]; [|discriminate].
    cbn [mbind result_bind].
    destruct (is_true _).
    + apply Hstream.
    + intros Hr. right; right; right. eapply Hparsed; [discriminate|exact Hr].
  - destruct (vllmBaseUrl _) as [[|c url]|]; try discriminate.
    destruct (handleOpenAICompatible _ _ _ _ _ _) as [resp|]; [|discriminate].
    cbn [mbind result_bind].
    destruct (is_true _).
    + apply Hstream.
    + intros Hr. right; right; right. eapply Hparsed; [discriminate|exact Hr].
  - destruct (sglangBaseUrl _) as [[|c url]|]; try discriminate.
    destruct (handleOpenAICompatible _ _ _ _ _ _) as [resp|]; [|discriminate].
    cbn [mbind result_bind].
    destruct (is_true _).
    + apply Hstream.
    + intros Hr. right; right; right. eapply Hparsed; [discriminate|exact Hr].
Qed.

Lemma fetch_cases `{Dependencies} (request : Request) (env : Env) :
  scheduled (fetch request env) = []
  \/ exists rt,
       route request env = Return rt
       /\ serve request env rt = Return (fetch request env).
Proof.
  unfold fetch.
  destruct (negb _ || negb _).
  - left. cbn. reflexivity.
  - destruct (route request env) as [rt|e]; [|left; reflexivity].
    cbn [mbind result_bind].
    destruct (serve request env rt) as [r|e] eqn:Hs; [|left; reflexivity].
    right. exists rt. split; [reflexivity|exact Hs].
Qed.

(** X18.  A request schedules one write to the audit log at most. *)
Theorem at_most_one_log_entry :
  forall (D : Dependencies) (request : Request) (env : Env),
    (length (scheduled (fetch request env)) <= 1)%nat.
Proof.
  intros D request env.
  destruct (fetch_cases request env) as [E|(rt & _ & Hs)];
    [rewrite E; simpl; lia|].
  apply serve_scheduled in Hs
    as [E|[(e & _ & E)|[(a & E)|(j & _ & E)]]]; rewrite E; simpl; lia.
Qed.

(** X19.  Every entry that is scheduled has one of three shapes: an error
    without a response, not streamed, on the native path; a reassembled
    response without an error, streamed; a parsed body without an error,
    not streamed, on another path than the native one. *)
Theorem log_entries_are_well_shaped :
  forall (D : Dependencies) (request : Request) (env : Env),
    Forall (fun s => well_shaped (entry s) = true)
      (scheduled (fetch request env)).
Proof.
  intros D request env.
  destruct (fetch_cases request env) as [E|(rt & _ & Hs)];
    [rewrite E; constructor|].
  apply serve_scheduled in Hs
    as [E|[(e & Hp & E)|[(a & E)|(j & Hp & E)]]]; rewrite E;
    repeat constructor; unfold well_shaped; cbn.
  - rewrite Hp. reflexivity.
  - destruct (rt_provider rt); [congruence|reflexivity..].
Qed.

(** X20.  Every entry that is scheduled tells its request: it holds the
    body that was read and the turn index of its messages, the identifier
    drawn for the request, the session of the header or a new one, the
    model as the client named it, the time read for the entry and the
    latency up to the moment of logging; its client metadata is absent or
    an object; and its write is the one of [writeLogEntry] to the bucket
    of the environment. *)
Theorem log_entries_identify_the_request :
  forall (D : Dependencies) (req : Request) (env : Env),
    Forall
      (fun s =>
         exists body,
           readJsonBody req = Return body
           /\ request (entry s) = body
           /\ turnIndex (entry s) = deriveTurnIndex (req_messages body)
           /\ requestId (entry s) = id_req ids
           /\ sessionId (entry s) = session_of req
           /\ originalModel (entry s)
              = res_originalModel (resolution req env body)
           /\ timestamp (entry s) = isoTime clock
           /\ latencyMs (entry s) = (logTime clock - startTime clock)%Z
           /\ (clientMeta (entry s) = None
               \/ exists kv, clientMeta (entry s) = Some (JObj kv))
           /\ write s
              = writeLogEntry stringify_entry (LOG_BUCKET env) (entry s))
      (scheduled (fetch req env)).
Proof.
  intros D req env.
  destruct (fetch_cases req env) as [E|(rt & Hroute & Hs)];
    [rewrite E; constructor|].
  apply route_inv in Hroute
    as (body & Hbody & Hb & Ht & Hr & Hsess & Hm & Hmeta).
  apply serve_scheduled in Hs
    as [E|[(e & _ & E)|[(a & E)|(j & _ & E)]]]; rewrite E;
    repeat constructor; exists body; cbn [entry write scheduleLog];
    cbn [request turnIndex requestId sessionId originalModel timestamp
         latencyMs clientMeta];
    repeat split; assumption.
Qed.

(** ** Streams and bodies *)




(** X22.  On the paths of OpenRouter, vLLM and SGLang, a success of a
    request that does not ask for a stream is answered with a new response
    of status 200, made of the translated body, with the content type of
    JSON and [cache-control: no-store]; one entry is scheduled, not
    streamed, with the body of that response parsed again. *)
Theorem translated_success_is_logged_from_the_body :
  forall (D : Dependencies) (req : Request) (env : Env) (rt : Routing)
         (up : Response) (parsed cloned : json),
    pathname req = js "/v1/messages" ->
    method req = js "POST" ->
    route req env = Return rt ->
    rt_provider rt <> anthropic ->
    is_configured (rt_provider rt) (rt_config rt) = true ->
    is_true (req_stream (rt_body rt)) = false ->
    (forall u, upstream u = Return up) ->
    ok up = true ->
    body_json up = Return parsed ->
    body_json
      (translated_response (mapOpenRouterResponse parsed (rt_originalModel rt)))
    = Return cloned ->
    fetch req env
    = {| reply :=
           translated_response
             (mapOpenRouterResponse parsed (rt_originalModel rt));
         scheduled :=
           [scheduleLog env rt (Some (ParsedBody cloned)) false None] |}.
Proof.
  intros D req env rt up parsed cloned Hpath Hmethod Hroute Hp Hconf Hstream
    Hup Hok Hparsed Hcloned.
  rewrite (fetch_routed req env rt Hpath Hmethod Hroute).
  rewrite (translated_success_logged_from_body req env rt up parsed cloned
             Hp Hconf Hstream Hup Hok Hparsed Hcloned).
  reflexivity.
Qed.

Lemma translated_success_is_logged_from_the_body_witness :
  (pathname post_messages = js "/v1/messages"
   /\ method post_messages = js "POST"
   /\ @route openrouter_unstreamed post_messages sample_env
      = Return (openrouter_routing None)
   /\ rt_provider (openrouter_routing None) <> anthropic
   /\ is_configured (rt_provider (openrouter_routing None))
        (rt_config (openrouter_routing None)) = true
   /\ is_true (req_stream (rt_body (openrouter_routing None))) = false
   /\ (forall u, @upstream openrouter_unstreamed u = Return upstream_message)
   /\ ok upstream_message = true
   /\ body_json upstream_message = Return upstream_message_body
   /\ body_json
        (translated_response
           (@mapOpenRouterResponse openrouter_unstreamed upstream_message_body
              (rt_originalModel (openrouter_routing None))))
      = Return upstream_message_body)
  /\ @fetch openrouter_unstreamed post_messages sample_env
     = {| reply := translated_response upstream_message_body;
          scheduled :=
            [@scheduleLog openrouter_unstreamed sample_env
               (openrouter_routing None)
               (Some (ParsedBody upstream_message_body)) false None] |}.
Proof.
  assert (H1 : pathname post_messages = js "/v1/messages") by reflexivity.
  assert (H2 : method post_messages = js "POST") by reflexivity.
  assert (H3 : @route openrouter_unstreamed post_messages sample_env
               = Return (openrouter_routing None))
    by (vm_compute; reflexivity).
  assert (H4 : rt_provider (openrouter_routing None) <> anthropic)
    by discriminate.
  assert (H5 : is_configured (rt_provider (openrouter_routing None))
                 (rt_config (openrouter_routing None)) = true)
    by reflexivity.
  assert (H6 : is_true (req_stream (rt_body (openrouter_routing None)))
               = false)
    by reflexivity.
  assert (H7 : forall u, @upstream openrouter_unstreamed u
                         = Return upstream_message)
    by (intros u; reflexivity).
  assert (H8 : ok upstream_message = true) by reflexivity.
  assert (H9 : body_json upstream_message = Return upstream_message_body)
    by (vm_compute; reflexivity).
  assert (H10 : body_json
                  (translated_response
                     (@mapOpenRouterResponse openrouter_unstreamed
                        upstream_message_body
                        (rt_originalModel (openrouter_routing None))))
                = Return upstream_message_body)
    by (vm_compute; reflexivity).
  split; [repeat split; assumption|].
  exact (translated_success_is_logged_from_the_body openrouter_unstreamed
           post_messages sample_env (openrouter_routing None) upstream_message
           upstream_message_body upstream_message_body
           H1 H2 H3 H4 H5 H6 H7 H8 H9 H10).
Defined.

(** X23.  On the paths of OpenRouter, vLLM and SGLang, an upstream answer
    that is not a success, to a request that asks for a stream, is not
    passed on: the client gets the response that [errorResponse] makes of
    an invalid-request error with the status and the text of the upstream
    body, and nothing is logged. *)
Theorem failed_stream_request_is_translated :
  forall (D : Dependencies) (req : Request) (env : Env) (rt : Routing)
         (up : Response) (payload : jstring),
    pathname req = js "/v1/messages" ->
    method req = js "POST" ->
    route req env = Return rt ->
    rt_provider rt <> anthropic ->
    is_configured (rt_provider rt) (rt_config rt) = true ->
    is_true (req_stream (rt_body rt)) = true ->
    (forall u, upstream u = Return up) ->
    ok up = false ->
    body_text up = Return payload ->
    fetch req env
    = {| reply :=
           errorResponse
             (streaming_error (rt_provider rt) (status up) payload);
         scheduled := [] |}.
Proof.
  intros D req env rt up payload Hpath Hmethod Hroute Hp Hconf Hstream Hup
    Hok Htext.
  rewrite (fetch_routed req env rt Hpath Hmethod Hroute).
  unfold serve, streaming_error, is_configured, configured_url in *.
  destruct (rt_provider rt); [congruence| | |].
  - unfold handleOpenRouter. rewrite Hup. cbn [mbind result_bind].
    rewrite Hstream, Hok. cbn [negb]. rewrite Htext. reflexivity.
  - destruct (vllmBaseUrl _) as [[|c url]|]; try discriminate.
    unfold handleOpenAICompatible. rewrite Hup. cbn [mbind result_bind].
    rewrite Hstream, Hok. cbn [negb]. rewrite Htext. reflexivity.
  - destruct (sglangBaseUrl _) as [[|c url]|]; try discriminate.
    unfold handleOpenAICompatible. rewrite Hup. cbn [mbind result_bind].
    rewrite Hstream, Hok. cbn [negb]. rewrite Htext. reflexivity.
Qed.

Lemma failed_stream_request_is_translated_witness :
  (pathname post_messages = js "/v1/messages"
   /\ method post_messages = js "POST"
   /\ @route openrouter_stream_failing post_messages sample_env
      = Return (openrouter_routing (Some true))
   /\ rt_provider (openrouter_routing (Some true)) <> anthropic
   /\ is_configured (rt_provider (openrouter_routing (Some true)))
        (rt_config (openrouter_routing (Some true))) = true
   /\ is_true (req_stream (rt_body (openrouter_routing (Some true)))) = true
   /\ (forall u, @upstream openrouter_stream_failing u
                 = Return upstream_failure)
   /\ ok upstream_failure = false
   /\ body_text upstream_failure = Return upstream_failure_text)
  /\ @fetch openrouter_stream_failing post_messages sample_env
     = {| reply :=
            spec_errorResponse
              (InvalidRequest (js "OpenRouter streaming error")
                 (status_details 500 (JStr upstream_failure_text)));
          scheduled := [] |}.
Proof.
  assert (H1 : pathname post_messages = js "/v1/messages") by reflexivity.
  assert (H2 : method post_messages = js "POST") by reflexivity.
  assert (H3 : @route openrouter_stream_failing post_messages sample_env
               = Return (openrouter_routing (Some true)))
    by (vm_compute; reflexivity).
  assert (H4 : rt_provider (openrouter_routing (Some true)) <> anthropic)
    by discriminate.
  assert (H5 : is_configured (rt_provider (openrouter_routing (Some true)))
                 (rt_config (openrouter_routing (Some true))) = true)
    by reflexivity.
  assert (H6 : is_true (req_stream (rt_body (openrouter_routing (Some true))))
               = true)
    by reflexivity.
  assert (H7 : forall u, @upstream openrouter_stream_failing u
                         = Return upstream_failure)
    by (intros u; reflexivity).
  assert (H8 : ok upstream_failure = false) by reflexivity.
  assert (H9 : body_text upstream_failure = Return upstream_failure_text)
    by (vm_compute; reflexivity).
  split; [repeat split; assumption|].
  exact (failed_stream_request_is_translated openrouter_stream_failing
           post_messages sample_env (openrouter_routing (Some true))
           upstream_failure upstream_failure_text
           H1 H2 H3 H4 H5 H6 H7 H8 H9).
Defined.

End HandlerProps.
